(** * Proof-of-ownership verification engine of zroop-agent-bot

    A shallow embedding of

    - [src/backend/services/proofChecker.ts] (the chain-transaction locator
      and its GraphQL explorer client),
    - the proof-task functions of [src/backend/database/db.ts], and
    - [ProofVerificationService] (the task scheduler),

    followed by the properties of the specification that are stated about
    them.

    Modelling conventions.

    - JavaScript strings are [string]s; [toLowerCase] and [trim] act on the
      ASCII range, which is the range of EVM addresses and of the status
      and error literals the code compares against.
    - A JavaScript number that may be [NaN] is a [jsnum]; the integer
      columns of the database are [Z].
    - The outside world (explorer replies, wall clock, store failures,
      AES, hashing, date parsing) is an [Env] of oracles.  Every
      consultation of an oracle advances the event counter [ticks] of the
      [World], so an oracle indexed by the counter can answer each call
      differently.
    - Effects are threaded through a state monad over [World] whose outcome
      is a returned value, a thrown exception, or exhausted fuel.  State
      changes made before a [throw] persist, as they do in JavaScript.
    - [await delay(..)] and logging have no effect on the modelled state. *)

From Stdlib Require Import ZArith List String Ascii Bool Lia Arith.
From Stdlib Require Import DecimalString Permutation.
Import ListNotations.

Local Open Scope Z_scope.
Local Open Scope string_scope.
Local Open Scope list_scope.

(* ===================================================================== *)
(** * Strings and numbers *)
(* ===================================================================== *)

Module Js.

(** [String.prototype.toLowerCase], ASCII range. *)
Definition lowerChar (c : ascii) : ascii :=
  let n := nat_of_ascii c in
  if andb (Nat.leb 65 n) (Nat.leb n 90) then ascii_of_nat (n + 32) else c.

Fixpoint toLowerCase (s : string) : string :=
  match s with
  | EmptyString => EmptyString
  | String c s' => String (lowerChar c) (toLowerCase s')
  end.

(** White space removed by [String.prototype.trim], ASCII range. *)
Definition isSpace (c : ascii) : bool :=
  let n := nat_of_ascii c in
  orb (Nat.eqb n 32) (andb (Nat.leb 9 n) (Nat.leb n 13)).

Fixpoint trimStart (s : string) : string :=
  match s with
  | EmptyString => EmptyString
  | String c s' => if isSpace c then trimStart s' else s
  end.

(** [trimEnd s] drops the trailing white space: a character is kept when it
    is not a space or when something survives after it. *)
Fixpoint trimEnd (s : string) : string :=
  match s with
  | EmptyString => EmptyString
  | String c s' =>
      match trimEnd s' with
      | EmptyString => if isSpace c then EmptyString else String c EmptyString
      | t => String c t
      end
  end.

Definition trim (s : string) : string := trimEnd (trimStart s).

(** [String.prototype.includes]. *)
Fixpoint includes (needle s : string) : bool :=
  orb (String.prefix needle s)
      (match s with
       | EmptyString => false
       | String _ s' => includes needle s'
       end).

(** Truthiness of a string: non-empty. *)
Definition truthy (s : string) : bool :=
  match s with EmptyString => false | _ => true end.

(** Truthiness of a nullable string. *)
Definition truthyOpt (o : option string) : bool :=
  match o with Some s => truthy s | None => false end.

(** A JavaScript number as the code meets it: an integer or [NaN]. *)
Inductive jsnum : Type :=
| JNaN
| JInt (z : Z).

(** [a >= b] and [a < b] with a possibly-NaN left operand: every comparison
    with [NaN] is false. *)
Definition geb (a : jsnum) (b : Z) : bool :=
  match a with JNaN => false | JInt z => Z.leb b z end.

Definition ltb (a : jsnum) (b : Z) : bool :=
  match a with JNaN => false | JInt z => Z.ltb z b end.

(** Template-literal rendering of an integer. *)
Definition showZ (z : Z) : string := NilZero.string_of_int (Z.to_int z).

End Js.

(* ===================================================================== *)
(** * The environment and the world *)
(* ===================================================================== *)

(** ** GraphQL data, as [GraphQLResponseData] declares it *)

Record BlockRef : Type := mkBlockRef { timestamp : string }.

Record TxNode : Type := mkTxNode {
  hash : string;
  fromAddressHash : option string;
  toAddressHash : option string;
  value : string;
  txStatus : string;
  block : option BlockRef;
  blockNumber : option Z
}.

Record PageInfo : Type := mkPageInfo {
  hasNextPage : bool;
  endCursor : option string
}.

(** [data.address.transactions], when present. *)
Record Transactions : Type := mkTransactions {
  edges : option (list (option TxNode));
  pageInfo : option PageInfo
}.

Record GraphQLResponseData : Type := mkResponse {
  transactions : option Transactions;
  blockTimestamp : option string;         (* data.block.timestamp *)
  errors : option (list (option string))  (* the messages of [errors] *)
}.

(** What [axios.post] is asked. *)
Inductive Request : Type :=
| ReqPrimary (userAddress : string) (afterCursor : option string)
| ReqFallback (userAddress : string) (afterCursor : option string)
| ReqBlock (blockNumber : Z).

(** What [axios.post] does: it resolves with a body, or it rejects with an
    error whose [response.status] may be absent (time-out, no connection). *)
Inductive Reply : Type :=
| HttpOk (body : GraphQLResponseData)
| HttpError (status : option Z).

(** ** The [proof_tasks] and [wallets] tables *)

Inductive Status : Type :=
| pending | processing | success | failed_no_tx | expired | error | cancelled.

Record ProofTask : Type := mkProofTask {
  task_uid : string;
  telegram_id : string;
  wallet_address_encrypted : string;
  after_timestamp : Z;
  check_deadline_utc : Z;
  status : Status;
  attempts : Z;
  created_at : Z;
  updated_at : Z;
  found_tx_hash : option string;
  error_message : option string;
  last_checked_block : option Z
}.

Record WalletRow : Type := mkWalletRow {
  telegram_id_hash : string;
  raw_telegram_id : string;
  wallet_hash : string;
  wallet_encrypted : string;
  proofed : Z
}.

(** ** Oracles *)

Record Env : Type := mkEnv {
  explorer : nat -> Request -> Reply;   (* reply to the request made at an event *)
  clock : nat -> Z;                     (* Math.floor(Date.now() / 1000) at an event *)
  storeFault : nat -> option string;    (* message of the exception a store call throws *)
  dateSeconds : string -> Js.jsnum;     (* Math.floor(new Date(s).getTime() / 1000) *)
  aesDecrypt : string -> option string; (* CryptoJS AES + Utf8; None when it throws *)
  encryptWallet : string -> string;
  hashTelegramId : string -> string;
  hashWallet : string -> string;
  CHECK_WALLET : option string          (* process.env.CHECK_WALLET *)
}.

(** ** The mutable state *)

(** The optional [details] argument of [updateProofTaskStatus]; [None] is a
    field left [undefined]. *)
Record Details : Type := mkDetails {
  foundTxHash : option (option string);
  errorMessage : option string;
  lastCheckedBlock : option Z
}.

(** One [UPDATE proof_tasks SET status = ? ..] performed by the store. *)
Record StatusWrite : Type := mkStatusWrite {
  sw_uid : string;
  sw_status : Status;
  sw_details : Details
}.

(** The tables, the two re-entrancy flags of the service, and three
    observations: the event counter, the requests sent to the explorer and
    the status writes performed, each most recent first. *)
Record World : Type := mkWorld {
  proof_tasks : list ProofTask;
  wallets : list WalletRow;
  isProcessingCycle : bool;
  isCleaningUp : bool;
  ticks : nat;
  posted : list Request;
  written : list StatusWrite
}.

Definition with_tasks (ts : list ProofTask) (w : World) : World :=
  mkWorld ts (wallets w) (isProcessingCycle w) (isCleaningUp w) (ticks w)
          (posted w) (written w).

Definition with_wallets (ws : list WalletRow) (w : World) : World :=
  mkWorld (proof_tasks w) ws (isProcessingCycle w) (isCleaningUp w) (ticks w)
          (posted w) (written w).

Definition with_isProcessingCycle (b : bool) (w : World) : World :=
  mkWorld (proof_tasks w) (wallets w) b (isCleaningUp w) (ticks w)
          (posted w) (written w).

Definition with_isCleaningUp (b : bool) (w : World) : World :=
  mkWorld (proof_tasks w) (wallets w) (isProcessingCycle w) b (ticks w)
          (posted w) (written w).

Definition with_ticks (n : nat) (w : World) : World :=
  mkWorld (proof_tasks w) (wallets w) (isProcessingCycle w) (isCleaningUp w) n
          (posted w) (written w).

Definition with_posted (rs : list Request) (w : World) : World :=
  mkWorld (proof_tasks w) (wallets w) (isProcessingCycle w) (isCleaningUp w)
          (ticks w) rs (written w).

Definition with_written (ws : list StatusWrite) (w : World) : World :=
  mkWorld (proof_tasks w) (wallets w) (isProcessingCycle w) (isCleaningUp w)
          (ticks w) (posted w) ws.

(* ===================================================================== *)
(** * The effect monad *)
(* ===================================================================== *)

Inductive Outcome (A : Type) : Type :=
| Ret (a : A)
| Throw (message : string)
| OutOfFuel.

Arguments Ret {A} a.
Arguments Throw {A} message.
Arguments OutOfFuel {A}.

Definition M (A : Type) : Type := World -> Outcome A * World.

Definition ret {A} (a : A) : M A := fun w => (Ret a, w).

Definition bind {A B} (m : M A) (k : A -> M B) : M B :=
  fun w =>
    match m w with
    | (Ret a, w') => k a w'
    | (Throw msg, w') => (Throw msg, w')
    | (OutOfFuel, w') => (OutOfFuel, w')
    end.

Definition throw {A} (msg : string) : M A := fun w => (Throw msg, w).

Definition outOfFuel {A} : M A := fun w => (OutOfFuel, w).

(** [try { m } catch (error) { handler error.message }] *)
Definition tryCatch {A} (m : M A) (handler : string -> M A) : M A :=
  fun w =>
    match m w with
    | (Throw msg, w') => handler msg w'
    | r => r
    end.

Definition modify (f : World -> World) : M unit := fun w => (Ret tt, f w).

Definition gets {A} (f : World -> A) : M A := fun w => (Ret (f w), w).

Declare Scope m_scope.
Delimit Scope m_scope with m.
Notation "x <- m ;; k" := (bind m (fun x => k))
  (at level 100, m at next level, right associativity) : m_scope.
Notation "' p <- m ;; k" := (bind m (fun x => match x with p => k end))
  (at level 100, p pattern, m at next level, right associativity) : m_scope.
Notation "m ;;; k" := (bind m (fun _ => k))
  (at level 100, right associativity) : m_scope.
Local Open Scope m_scope.

(** [for (const x of xs) { body x }] *)
Fixpoint forEach {A} (xs : list A) (body : A -> M unit) : M unit :=
  match xs with
  | [] => ret tt
  | x :: xs' => body x ;;; forEach xs' body
  end.

(* ===================================================================== *)
(** * proofChecker.ts *)
(* ===================================================================== *)

(** Max attempts for a single GraphQL call within proofChecker.ts. *)
Definition MAX_API_CALL_ATTEMPTS : nat := 5.

(** [/^0x[a-fA-F0-9]{40}$/.test(addr)] *)
Definition isHexDigit (c : ascii) : bool :=
  let n := nat_of_ascii c in
  orb (andb (Nat.leb 48 n) (Nat.leb n 57))
      (orb (andb (Nat.leb 65 n) (Nat.leb n 70))
           (andb (Nat.leb 97 n) (Nat.leb n 102))).

Fixpoint allHex (s : string) : bool :=
  match s with
  | EmptyString => true
  | String c s' => andb (isHexDigit c) (allHex s')
  end.

Definition isValidEvmAddress (addr : string) : bool :=
  match addr with
  | String "0"%char (String "x"%char digits) =>
      andb (Nat.eqb (String.length digits) 40) (allHex digits)
  | _ => false
  end.

(** [response.data?.errors && response.data.errors.length > 0] *)
Definition hasErrors (body : GraphQLResponseData) : bool :=
  match errors body with
  | Some (_ :: _) => true
  | _ => false
  end.

(** [errors.some(err => err.message?.toLowerCase().includes("internal server error"))] *)
Definition isInternalError (body : GraphQLResponseData) : bool :=
  match errors body with
  | Some errs =>
      existsb (fun message =>
                 match message with
                 | Some m => Js.includes "internal server error" (Js.toLowerCase m)
                 | None => false
                 end) errs
  | None => false
  end.

(** [response.data?.data?.address?.transactions?.edges], when truthy. *)
Definition edgesOf (body : GraphQLResponseData) : option (list (option TxNode)) :=
  match transactions body with
  | Some t => edges t
  | None => None
  end.

Definition pageInfoOf (body : GraphQLResponseData) : option PageInfo :=
  match transactions body with
  | Some t => pageInfo t
  | None => None
  end.

Definition isStatus500 (st : option Z) : bool :=
  match st with
  | Some s => Z.eqb s 500
  | None => false
  end.

Record ProofTransaction : Type := mkProofTransaction {
  pt_hash : string;
  pt_from : option string;
  pt_to : option string;
  pt_blockNumber : option Z;
  pt_timestamp : Js.jsnum
}.

Record ProofResult : Type := mkProofResult {
  isProofConfirmed : bool;
  txHash : option string;
  pr_error : option string
}.

Section Engine.

Variable E : Env.

(** ** Primitive effects *)

Definition tick : M nat :=
  fun w => (Ret (ticks w), with_ticks (S (ticks w)) w).

(** [Math.floor(Date.now() / 1000)] *)
Definition dateNowSeconds : M Z :=
  k <- tick ;; ret (clock E k).

(** [await axios.post(FORMA_EXPLORER_GRAPHQL_URL, request)]; a rejection is
    the reply [HttpError], which every caller handles in its own [catch]. *)
Definition axiosPost (req : Request) : M Reply :=
  k <- tick ;;
  modify (fun w => with_posted (req :: posted w) w) ;;;
  ret (explorer E k req).

(** ** getTimestampForBlockGraphQL *)

(** The [while (currentAttempt < MAX_API_CALL_ATTEMPTS)] loop, with [left]
    the number of iterations still allowed. *)
Fixpoint timestampAttempts (left currentAttempt : nat) (blockNum : Z)
  : M (option Js.jsnum) :=
  match left with
  | O => ret None
  | S left' =>
      let currentAttempt := S currentAttempt in
      reply <- axiosPost (ReqBlock blockNum) ;;
      match reply with
      | HttpOk body =>
          if hasErrors body then
            if andb (isInternalError body)
                    (Nat.leb MAX_API_CALL_ATTEMPTS currentAttempt)
            then ret None
            else timestampAttempts left' currentAttempt blockNum
          else
            match blockTimestamp body with
            | Some timestampStr =>
                if Js.truthy timestampStr
                then ret (Some (dateSeconds E timestampStr))
                else timestampAttempts left' currentAttempt blockNum
            | None => timestampAttempts left' currentAttempt blockNum
            end
      | HttpError st =>
          if andb (isStatus500 st)
                  (Nat.leb MAX_API_CALL_ATTEMPTS currentAttempt)
          then ret None
          else timestampAttempts left' currentAttempt blockNum
      end
  end.

Definition getTimestampForBlockGraphQL (blockNum : Z) : M (option Js.jsnum) :=
  timestampAttempts MAX_API_CALL_ATTEMPTS 0 blockNum.

(** ** findProofTransactionGraphQL: fetching one page *)

(** The primary attempt loop.  It yields [responseData], [useFallbackQuery]
    and [currentApiCallAttemptPrimary] as they stand when the loop is left. *)
Fixpoint primaryAttempts (left currentAttempt : nat)
         (userAddress : string) (afterCursor : option string)
  : M (option GraphQLResponseData * bool * nat) :=
  match left with
  | O => ret (None, false, currentAttempt)
  | S left' =>
      let currentAttempt := S currentAttempt in
      reply <- axiosPost (ReqPrimary userAddress afterCursor) ;;
      match reply with
      | HttpOk body =>
          if hasErrors body then
            if isInternalError body
            then ret (None, true, currentAttempt)
            else primaryAttempts left' currentAttempt userAddress afterCursor
          else
            match edgesOf body with
            | Some _ => ret (Some body, false, currentAttempt)
            | None => primaryAttempts left' currentAttempt userAddress afterCursor
            end
      | HttpError st =>
          if isStatus500 st
          then ret (None, true, currentAttempt)
          else primaryAttempts left' currentAttempt userAddress afterCursor
      end
  end.

(** The fallback attempt loop: [responseData] and
    [currentApiCallAttemptFallback] when the loop is left. *)
Fixpoint fallbackAttempts (left currentAttempt : nat)
         (userAddress : string) (afterCursor : option string)
  : M (option GraphQLResponseData * nat) :=
  match left with
  | O => ret (None, currentAttempt)
  | S left' =>
      let currentAttempt := S currentAttempt in
      reply <- axiosPost (ReqFallback userAddress afterCursor) ;;
      match reply with
      | HttpOk body =>
          if hasErrors body then
            fallbackAttempts left' currentAttempt userAddress afterCursor
          else
            match edgesOf body with
            | Some _ => ret (Some body, currentAttempt)
            | None => fallbackAttempts left' currentAttempt userAddress afterCursor
            end
      | HttpError _ =>
          fallbackAttempts left' currentAttempt userAddress afterCursor
      end
  end.

(** How fetching a page ends: the function returns [null] at once
    ([GiveUp]), or the page is there, with the flag telling which query
    produced it. *)
Inductive PageFetch : Type :=
| GiveUp
| Page (responseData : option GraphQLResponseData) (useFallbackQuery : bool).

Definition isNone {A} (o : option A) : bool :=
  match o with None => true | Some _ => false end.

Definition fetchPage (userAddress : string) (afterCursor : option string)
  : M PageFetch :=
  ' (responseData, useFallbackQuery, attemptPrimary) <-
      primaryAttempts MAX_API_CALL_ATTEMPTS 0 userAddress afterCursor ;;
  if andb (Nat.leb MAX_API_CALL_ATTEMPTS attemptPrimary)
          (andb (isNone responseData) (negb useFallbackQuery))
  then ret GiveUp
  else if useFallbackQuery then
    ' (responseData, attemptFallback) <-
        fallbackAttempts MAX_API_CALL_ATTEMPTS 0 userAddress afterCursor ;;
    if andb (Nat.leb MAX_API_CALL_ATTEMPTS attemptFallback) (isNone responseData)
    then ret GiveUp
    else ret (Page responseData true)
  else ret (Page responseData false).

(** ** findProofTransactionGraphQL: examining one page *)

(** The block timestamp of a transaction, or [None] where the loop body
    says [continue]. *)
Definition resolveTimestamp (useFallbackQuery : bool) (txNode : TxNode)
  : M (option Js.jsnum) :=
  if useFallbackQuery then
    match blockNumber txNode with
    | None => ret None
    | Some bn => getTimestampForBlockGraphQL bn
    end
  else
    match block txNode with
    | Some b =>
        if Js.truthy (timestamp b)
        then ret (Some (dateSeconds E (timestamp b)))
        else ret None
    | None => ret None
    end.

Definition eqOpt (o : option string) (s : string) : bool :=
  match o with
  | Some x => String.eqb x s
  | None => false
  end.

(** The [if] that decides a match. *)
Definition criteria (userWalletLower targetWalletLower : string)
           (afterTimestamp deadlineTimestamp : Z)
           (txNode : TxNode) (blockTimestampSeconds : Js.jsnum) : bool :=
  let toAddressLower := option_map Js.toLowerCase (toAddressHash txNode) in
  let fromAddressLower := option_map Js.toLowerCase (fromAddressHash txNode) in
  let isToCorrect := eqOpt toAddressLower targetWalletLower in
  let isFromCorrect := eqOpt fromAddressLower userWalletLower in
  let isStatusOk := String.eqb (txStatus txNode) "OK" in
  let isAfterTimestamp := Js.geb blockTimestampSeconds afterTimestamp in
  let isBeforeDeadline := Js.ltb blockTimestampSeconds deadlineTimestamp in
  andb isFromCorrect
       (andb isToCorrect
             (andb isStatusOk (andb isAfterTimestamp isBeforeDeadline))).

Definition proofOf (txNode : TxNode) (blockTimestampSeconds : Js.jsnum)
  : ProofTransaction :=
  {| pt_hash := hash txNode;
     pt_from := fromAddressHash txNode;
     pt_to := toAddressHash txNode;
     pt_blockNumber := blockNumber txNode;
     pt_timestamp := blockTimestampSeconds |}.

(** [for (const edge of edges)]: the first match, if any. *)
Fixpoint scanEdges (useFallbackQuery : bool)
         (userWalletLower targetWalletLower : string)
         (afterTimestamp deadlineTimestamp : Z)
         (es : list (option TxNode)) : M (option ProofTransaction) :=
  match es with
  | [] => ret None
  | None :: es' =>
      scanEdges useFallbackQuery userWalletLower targetWalletLower
                afterTimestamp deadlineTimestamp es'
  | Some txNode :: es' =>
      resolved <- resolveTimestamp useFallbackQuery txNode ;;
      match resolved with
      | None =>
          scanEdges useFallbackQuery userWalletLower targetWalletLower
                    afterTimestamp deadlineTimestamp es'
      | Some blockTimestampSeconds =>
          if criteria userWalletLower targetWalletLower
                      afterTimestamp deadlineTimestamp
                      txNode blockTimestampSeconds
          then ret (Some (proofOf txNode blockTimestampSeconds))
          else scanEdges useFallbackQuery userWalletLower targetWalletLower
                         afterTimestamp deadlineTimestamp es'
      end
  end.

(** The early exit on the last edge of a page. *)
Definition lastIsOlder (afterTimestamp : Z) (es : list (option TxNode)) : bool :=
  match last es None with
  | Some lastTxNodeOnPage =>
      match block lastTxNodeOnPage with
      | Some b =>
          andb (Js.truthy (timestamp b))
               (Js.ltb (dateSeconds E (timestamp b)) afterTimestamp)
      | None => false
      end
  | None => false
  end.

(** [nextCursor] as the [if (pageInfo?.hasNextPage && pageInfo.endCursor)]
    statement leaves it. *)
Definition nextCursorOf (useFallbackQuery : bool) (afterTimestamp : Z)
           (es : list (option TxNode)) (pi : option PageInfo) : option string :=
  match pi with
  | Some p =>
      if andb (hasNextPage p) (Js.truthyOpt (endCursor p)) then
        if andb (negb useFallbackQuery) (Nat.ltb 0 (List.length es)) then
          if lastIsOlder afterTimestamp es then None else endCursor p
        else endCursor p
      else None
  | None => None
  end.

(** ** findProofTransactionGraphQL *)

(** The [do { .. } while (nextCursor && !proofFound)] loop; [fuel] bounds
    the number of pages. *)
Fixpoint pageLoop (fuel : nat) (userWalletLower targetWalletLower : string)
         (afterTimestamp deadlineTimestamp : Z) (nextCursor : option string)
  : M (option ProofTransaction) :=
  match fuel with
  | O => outOfFuel
  | S fuel' =>
      fetched <- fetchPage userWalletLower nextCursor ;;
      match fetched with
      | GiveUp => ret None
      | Page responseData useFallbackQuery =>
          match responseData with
          | None => ret None
          | Some body =>
              match edgesOf body with
              | None => ret None
              | Some es =>
                  result <- scanEdges useFallbackQuery userWalletLower
                                      targetWalletLower afterTimestamp
                                      deadlineTimestamp es ;;
                  match result with
                  | Some proof => ret (Some proof)
                  | None =>
                      let nextCursor :=
                        nextCursorOf useFallbackQuery afterTimestamp es
                                     (pageInfoOf body) in
                      if Js.truthyOpt nextCursor
                      then pageLoop fuel' userWalletLower targetWalletLower
                                    afterTimestamp deadlineTimestamp nextCursor
                      else ret None
                  end
              end
          end
      end
  end.

Definition findProofTransactionGraphQL (fuel : nat)
           (userWallet targetWallet : string)
           (afterTimestamp deadlineTimestamp : Z)
  : M (option ProofTransaction) :=
  pageLoop fuel (Js.toLowerCase userWallet) (Js.toLowerCase targetWallet)
           afterTimestamp deadlineTimestamp None.

(** ** checkOwnershipAfter *)

Definition notConfirmed (reason : string) : ProofResult :=
  {| isProofConfirmed := false; txHash := None; pr_error := Some reason |}.

Definition checkOwnershipAfter (fuel : nat) (walletHash : string)
           (afterTimestamp deadlineTimestamp : Z) (targetWalletAddress : string)
  : M ProofResult :=
  let userWallet := Js.toLowerCase (Js.trim walletHash) in
  if negb (Js.truthy targetWalletAddress) then
    ret (notConfirmed "targetWalletAddress is not defined")
  else if negb (isValidEvmAddress userWallet) then
    ret (notConfirmed "Invalid user EVM address")
  else if negb (isValidEvmAddress targetWalletAddress) then
    ret (notConfirmed "Invalid target wallet address")
  else if Z.leb deadlineTimestamp afterTimestamp then
    ret (notConfirmed "Invalid time window")
  else
    tryCatch
      (proofTxNode <- findProofTransactionGraphQL fuel userWallet
                        targetWalletAddress afterTimestamp deadlineTimestamp ;;
       match proofTxNode with
       | Some proof =>
           ret {| isProofConfirmed := true;
                  txHash := Some (pt_hash proof);
                  pr_error := None |}
       | None => ret (notConfirmed "Proof transaction not found via GraphQL")
       end)
      (fun message =>
         ret (notConfirmed ("Overall error in checkOwnershipAfter: " ++ message))).

End Engine.

(* ===================================================================== *)
(** * db.ts: proof tasks and wallet links *)
(* ===================================================================== *)

(** Max attempts for ProofVerificationService to process a task. *)
Definition PROOF_RETRY_LIMIT : Z := 7.

(** [status IN ('pending', 'processing')] *)
Definition isActive (s : Status) : bool :=
  match s with
  | pending | processing => true
  | _ => false
  end.

(** The terminal statuses. *)
Definition isTerminal (s : Status) : bool := negb (isActive s).

Definition noDetails : Details :=
  {| foundTxHash := None; errorMessage := None; lastCheckedBlock := None |}.

Definition withErrorMessage (m : string) : Details :=
  {| foundTxHash := None; errorMessage := Some m; lastCheckedBlock := None |}.

Definition withFoundTxHash (h : option string) : Details :=
  {| foundTxHash := Some h; errorMessage := None; lastCheckedBlock := None |}.

(** The row after [UPDATE proof_tasks SET status = ?, .. , updated_at =
    CURRENT_TIMESTAMP]. *)
Definition setStatus (st : Status) (d : Details) (now : Z) (t : ProofTask)
  : ProofTask :=
  {| task_uid := task_uid t;
     telegram_id := telegram_id t;
     wallet_address_encrypted := wallet_address_encrypted t;
     after_timestamp := after_timestamp t;
     check_deadline_utc := check_deadline_utc t;
     status := st;
     attempts := attempts t;
     created_at := created_at t;
     updated_at := now;
     found_tx_hash :=
       match foundTxHash d with Some h => h | None => found_tx_hash t end;
     error_message :=
       match errorMessage d with Some m => Some m | None => error_message t end;
     last_checked_block :=
       match lastCheckedBlock d with
       | Some b => Some b
       | None => last_checked_block t
       end |}.

(** The row after [UPDATE proof_tasks SET attempts = ?, updated_at =
    CURRENT_TIMESTAMP]. *)
Definition setAttempts (n : Z) (now : Z) (t : ProofTask) : ProofTask :=
  {| task_uid := task_uid t;
     telegram_id := telegram_id t;
     wallet_address_encrypted := wallet_address_encrypted t;
     after_timestamp := after_timestamp t;
     check_deadline_utc := check_deadline_utc t;
     status := status t;
     attempts := n;
     created_at := created_at t;
     updated_at := now;
     found_tx_hash := found_tx_hash t;
     error_message := error_message t;
     last_checked_block := last_checked_block t |}.

(** [UPDATE proof_tasks SET .. WHERE task_uid = ?] *)
Definition updateWhereUid (uid : string) (f : ProofTask -> ProofTask)
           (ts : list ProofTask) : list ProofTask :=
  map (fun t => if String.eqb (task_uid t) uid then f t else t) ts.

(** [ORDER BY created_at ASC], rows with equal keys kept in table order. *)
Fixpoint insertByCreatedAt (t : ProofTask) (sorted : list ProofTask)
  : list ProofTask :=
  match sorted with
  | [] => [t]
  | u :: rest =>
      if Z.leb (created_at t) (created_at u) then t :: sorted
      else u :: insertByCreatedAt t rest
  end.

Definition orderByCreatedAt (ts : list ProofTask) : list ProofTask :=
  fold_right insertByCreatedAt [] ts.

(** [SELECT * FROM proof_tasks WHERE task_uid = ?], first row. *)
Definition selectByUid (uid : string) (ts : list ProofTask) : option ProofTask :=
  find (fun t => String.eqb (task_uid t) uid) ts.

(** The [WHERE] clause of [findProcessableTasks]. *)
Definition isProcessable (nowUtc : Z) (t : ProofTask) : bool :=
  andb (isActive (status t)) (Z.ltb nowUtc (check_deadline_utc t)).

(** The [WHERE] clause of [getStuckAndExpiredTasks]. *)
Definition isStuckOrExpired (nowUtc : Z) (t : ProofTask) : bool :=
  andb (isActive (status t)) (Z.ltb (check_deadline_utc t) nowUtc).

(** What [getWallet] returns.  The object has no [raw_telegram_id]. *)
Record WalletLink : Type := mkWalletLink {
  wl_wallet : string;
  wl_proofed : bool
}.

(** [INSERT INTO wallets .. ON CONFLICT(telegram_id_hash) DO UPDATE SET ..] *)
Fixpoint upsertWallet (row : WalletRow) (ws : list WalletRow) : list WalletRow :=
  match ws with
  | [] => [row]
  | r :: rest =>
      if String.eqb (telegram_id_hash r) (telegram_id_hash row)
      then row :: rest
      else r :: upsertWallet row rest
  end.

Section Store.

Variable E : Env.

(** A call into better-sqlite3: it throws when the store fails. *)
Definition storeCall : M nat :=
  k <- tick ;;
  match storeFault E k with
  | Some message => throw message
  | None => ret k
  end.

Definition updateProofTaskStatus (taskUid : string) (st : Status) (d : Details)
  : M unit :=
  k <- storeCall ;;
  modify (fun w =>
            with_written (mkStatusWrite taskUid st d :: written w)
              (with_tasks (updateWhereUid taskUid (setStatus st d (clock E k))
                                          (proof_tasks w)) w)).

Definition updateProofTaskAttempts (taskUid : string) (n : Z) : M unit :=
  k <- storeCall ;;
  modify (fun w =>
            with_tasks (updateWhereUid taskUid (setAttempts n (clock E k))
                                       (proof_tasks w)) w).

Definition findProcessableTasks (limit : nat) : M (list ProofTask) :=
  nowUtc <- dateNowSeconds E ;;
  _ <- storeCall ;;
  rows <- gets proof_tasks ;;
  ret (firstn limit (orderByCreatedAt (filter (isProcessable nowUtc) rows))).

Definition getStuckAndExpiredTasks (nowUtc : Z) : M (list ProofTask) :=
  _ <- storeCall ;;
  rows <- gets proof_tasks ;;
  ret (filter (isStuckOrExpired nowUtc) rows).

Definition getProofTaskByUid (taskUid : string) : M (option ProofTask) :=
  _ <- storeCall ;;
  rows <- gets proof_tasks ;;
  ret (selectByUid taskUid rows).

(** crypto.ts *)
Definition decryptWallet (encrypted : string) : string :=
  if negb (Js.truthy encrypted) then ""
  else
    match aesDecrypt E encrypted with
    | Some decrypted => if String.eqb decrypted " " then "" else decrypted
    | None => ""
    end.

Definition getWallet (telegramId : string) : M (option WalletLink) :=
  let telegramIdHash := hashTelegramId E telegramId in
  _ <- storeCall ;;
  rows <- gets wallets ;;
  match find (fun r => String.eqb (telegram_id_hash r) telegramIdHash) rows with
  | None => ret None
  | Some row =>
      ret (Some {| wl_wallet := decryptWallet (wallet_encrypted row);
                   wl_proofed := negb (Z.eqb (proofed row) 0) |})
  end.

Definition saveWalletLink (telegramId wallet : string) (isProofed : bool)
           (rawTelegramIdToStore : option string) : M unit :=
  let telegramIdHash := hashTelegramId E telegramId in
  let finalRawTelegramId :=
    if Js.truthyOpt rawTelegramIdToStore
    then match rawTelegramIdToStore with Some r => r | None => telegramId end
    else telegramId in
  let walletLower := Js.toLowerCase wallet in
  let row := {| telegram_id_hash := telegramIdHash;
                raw_telegram_id := finalRawTelegramId;
                wallet_hash := hashWallet E walletLower;
                wallet_encrypted := encryptWallet E walletLower;
                proofed := if isProofed then 1 else 0 |} in
  _ <- storeCall ;;
  modify (fun w => with_wallets (upsertWallet row (wallets w)) w).

End Store.

(* ===================================================================== *)
(** * ProofVerificationService *)
(* ===================================================================== *)

(** [task.attempts || 0] *)
Definition orZero (n : Z) : Z := if Z.eqb n 0 then 0 else n.

Definition retryLimitMessage (newAttempts : Z) : string :=
  "Max retry limit (" ++ Js.showZ PROOF_RETRY_LIMIT ++ ") reached. Attempts: "
    ++ Js.showZ newAttempts.

Section Scheduler.

Variable E : Env.

(** The second [try] block of [processSingleTask]: decrypt, check, and
    settle the task on the result. *)
Definition attemptProof (fuel : nat) (task : ProofTask) (checkWallet : string)
           (newAttempts : Z) : M unit :=
  tryCatch
    (let decryptedWalletAddress :=
       decryptWallet E (wallet_address_encrypted task) in
     if negb (Js.truthy decryptedWalletAddress) then
       updateProofTaskStatus E (task_uid task) error
         (withErrorMessage "Internal error: Failed to decrypt wallet address")
     else
       proofResult <- checkOwnershipAfter E fuel decryptedWalletAddress
                        (after_timestamp task) (check_deadline_utc task)
                        checkWallet ;;
       if isProofConfirmed proofResult then
         saveWalletLink E (telegram_id task) decryptedWalletAddress true
                        (Some (telegram_id task)) ;;;
         updateProofTaskStatus E (task_uid task) success
           (withFoundTxHash (txHash proofResult))
       else
         nowUtc <- dateNowSeconds E ;;
         if Z.leb (check_deadline_utc task) nowUtc then
           updateProofTaskStatus E (task_uid task) expired
             (withErrorMessage "Deadline passed, proof not found.")
         else if Z.leb PROOF_RETRY_LIMIT newAttempts then
           updateProofTaskStatus E (task_uid task) failed_no_tx
             (withErrorMessage (retryLimitMessage newAttempts))
         else ret tt)
    (fun message =>
       updateProofTaskStatus E (task_uid task) error (withErrorMessage message)).

Definition processSingleTask (fuel : nat) (task : ProofTask) : M unit :=
  if negb (Js.truthyOpt (CHECK_WALLET E)) then
    updateProofTaskStatus E (task_uid task) error
      (withErrorMessage "CHECK_WALLET not configured on server")
  else
    let checkWallet := match CHECK_WALLET E with Some a => a | None => "" end in
    updateProofTaskStatus E (task_uid task) processing noDetails ;;;
    let currentAttempts := orZero (attempts task) in
    let newAttempts := currentAttempts + 1 in
    tryCatch (updateProofTaskAttempts E (task_uid task) newAttempts)
             (fun _ => ret tt) ;;;
    attemptProof fuel task checkWallet newAttempts.

(** The body of the [for] loop of [processPendingTasks]. *)
Definition processPendingTask (fuel : nat) (now : Z) (task : ProofTask)
  : M unit :=
  if Z.leb (check_deadline_utc task) now then
    updateProofTaskStatus E (task_uid task) expired
      (withErrorMessage "Deadline passed before processing attempt.")
  else
    existingWalletLink <- getWallet E (telegram_id task) ;;
    match existingWalletLink with
    | Some link =>
        if wl_proofed link then
          updateProofTaskStatus E (task_uid task) success
            (withErrorMessage "Wallet already proofed.") ;;;
          (* [!existingWalletLink.raw_telegram_id] holds: the object that
             [getWallet] returns has no such property. *)
          if Js.truthy (wl_wallet link) then
            saveWalletLink E (telegram_id task) (wl_wallet link) true
                           (Some (telegram_id task))
          else ret tt
        else processSingleTask fuel task
    | None => processSingleTask fuel task
    end.

(** The body of the [for] loop of [handleStuckOrExpiredTasks]. *)
Definition expireTask (task : ProofTask) : M unit :=
  if isActive (status task) then
    updateProofTaskStatus E (task_uid task) expired
      (withErrorMessage "Task auto-expired by cleanup.")
  else ret tt.

Definition handleStuckOrExpiredTasks : M unit :=
  cleaning <- gets isCleaningUp ;;
  if cleaning then ret tt
  else
    modify (with_isCleaningUp true) ;;;
    tryCatch
      (nowUtc <- dateNowSeconds E ;;
       tasks <- getStuckAndExpiredTasks E nowUtc ;;
       forEach tasks expireTask)
      (fun _ => ret tt) ;;;
    modify (with_isCleaningUp false).

Definition processPendingTasks (fuel : nat) : M unit :=
  busy <- gets isProcessingCycle ;;
  if busy then ret tt
  else
    modify (with_isProcessingCycle true) ;;;
    tryCatch
      (now <- dateNowSeconds E ;;
       tasks <- findProcessableTasks E 10 ;;
       forEach tasks (processPendingTask fuel now))
      (fun _ => ret tt) ;;;
    modify (with_isProcessingCycle false).

Definition runFullCycle (fuel : nat) : M unit :=
  handleStuckOrExpiredTasks ;;;
  processPendingTasks fuel.

End Scheduler.

(* ===================================================================== *)
(** * Vocabulary of the specification *)
(* ===================================================================== *)

(** ** The match predicate, in the words of the specification *)

(** Equality of addresses up to letter case; an absent address equals
    nothing. *)
Definition sameAddress (a : option string) (b : string) : Prop :=
  exists x, a = Some x /\ Js.toLowerCase x = Js.toLowerCase b.

(** [from == userWallet] AND [to == targetWallet] (both case-insensitive)
    AND [status == OK] AND [afterTimestamp <= txTimestamp < deadline]. *)
Definition fourClauses (userWallet targetWallet : string)
           (afterTimestamp deadline : Z) (tx : TxNode) (t : Js.jsnum) : Prop :=
  sameAddress (fromAddressHash tx) userWallet /\
  sameAddress (toAddressHash tx) targetWallet /\
  txStatus tx = "OK" /\
  exists z, t = Js.JInt z /\ afterTimestamp <= z < deadline.

(** The edges of a page are examined in order from world [w] to world [w']
    and none of them qualifies: an edge without node is passed over, a
    transaction whose timestamp does not resolve is skipped, and one whose
    timestamp resolves fails a clause. *)
Inductive NoneQualifies (E : Env) (fb : bool) (u t : string) (a d : Z)
  : list (option TxNode) -> World -> World -> Prop :=
| nq_nil w : NoneQualifies E fb u t a d [] w w
| nq_null es w w' :
    NoneQualifies E fb u t a d es w w' ->
    NoneQualifies E fb u t a d (None :: es) w w'
| nq_skipped n es w w1 w' :
    resolveTimestamp E fb n w = (Ret None, w1) ->
    NoneQualifies E fb u t a d es w1 w' ->
    NoneQualifies E fb u t a d (Some n :: es) w w'
| nq_rejected n ts es w w1 w' :
    resolveTimestamp E fb n w = (Ret (Some ts), w1) ->
    ~ fourClauses u t a d n ts ->
    NoneQualifies E fb u t a d es w1 w' ->
    NoneQualifies E fb u t a d (Some n :: es) w w'.

(** ** How a reply to a page query is treated *)

Inductive Verdict : Type :=
| Accept (body : GraphQLResponseData)   (* the page is there *)
| Switch                                (* go to the fallback query *)
| Again.                                (* retry the same query *)

(** A reply to the primary query: HTTP 500 and a GraphQL error that
    mentions an internal server error switch to the fallback query; every
    other failure is retried. *)
Definition primaryVerdict (r : Reply) : Verdict :=
  match r with
  | HttpError st => if isStatus500 st then Switch else Again
  | HttpOk body =>
      if hasErrors body then (if isInternalError body then Switch else Again)
      else match edgesOf body with Some _ => Accept body | None => Again end
  end.

(** A reply to the fallback query: the page, or a retry. *)
Definition fallbackVerdict (r : Reply) : Verdict :=
  match r with
  | HttpError _ => Again
  | HttpOk body =>
      if hasErrors body then Again
      else match edgesOf body with Some _ => Accept body | None => Again end
  end.

(** A transport error: [axios.post] rejected. *)
Definition isTransportError (r : Reply) : Prop :=
  exists st, r = HttpError st.

(** A server-side internal error signalled in the response body. *)
Definition isInternalErrorReply (r : Reply) : Prop :=
  exists body, r = HttpOk body /\ hasErrors body = true /\ isInternalError body = true.

(** The world after one request, and after [n] times the same request. *)
Definition sent (req : Request) (w : World) : World :=
  with_posted (req :: posted w) (with_ticks (S (ticks w)) w).

Fixpoint sentN (req : Request) (n : nat) (w : World) : World :=
  match n with
  | O => w
  | S n' => sentN req n' (sent req w)
  end.

(** The second half of [fetchPage]: the fallback attempts and what is made
    of them. *)
Definition fallbackPhase (E : Env) (userAddress : string)
           (afterCursor : option string) : M PageFetch :=
  (' (responseData, attemptFallback) <-
      fallbackAttempts E MAX_API_CALL_ATTEMPTS 0 userAddress afterCursor ;;
   if andb (Nat.leb MAX_API_CALL_ATTEMPTS attemptFallback) (isNone responseData)
   then ret GiveUp
   else ret (Page responseData true))%m.

(** ** Readings of the scheduler's vocabulary *)

(** No [task_uid] occurs twice: the column is declared [UNIQUE]. *)
Definition uniqueUids (w : World) : Prop :=
  NoDup (map task_uid (proof_tasks w)).

(** The store performs every call it receives. *)
Definition storeReliable (E : Env) : Prop :=
  forall k, storeFault E k = None.

(** The world in which the ownership check of a task starts: the task has
    been marked processing and the attempt counted. *)
Definition checkStarts (E : Env) (task : ProofTask) (w : World) : World :=
  snd ((updateProofTaskStatus E (task_uid task) processing noDetails ;;;
        tryCatch (updateProofTaskAttempts E (task_uid task)
                    (orZero (attempts task) + 1))
                 (fun _ => ret tt))%m w).

(** The status writes performed between two worlds. *)
Definition writtenBetween (w w' : World) (ws : list StatusWrite) : Prop :=
  written w' = ws ++ written w.

(** A status write that may carry an [errorMessage], as the specification
    has it: none, or one with status error, expired or failed_no_tx. *)
Definition messageOnlyOnFailure (sw : StatusWrite) : Prop :=
  errorMessage (sw_details sw) = None \/
  sw_status sw = error \/ sw_status sw = expired \/ sw_status sw = failed_no_tx.

(** The same, with the already-proofed short circuit allowed for. *)
Definition messageOnFailureOrShortCircuit (sw : StatusWrite) : Prop :=
  messageOnlyOnFailure sw \/
  (sw_status sw = success /\
   sw_details sw = withErrorMessage "Wallet already proofed.").

(** From event [K] on, the explorer reports no further page. *)
Definition historyEndsBy (E : Env) (K : nat) : Prop :=
  forall k req body p,
    (K <= k)%nat -> explorer E k req = HttpOk body ->
    pageInfoOf body = Some p -> hasNextPage p = false.

(** [n] full cycles of the service, each over before the next begins. *)
Fixpoint runCycles (E : Env) (fuel : nat) (n : nat) : M unit :=
  match n with
  | O => ret tt
  | S n' => (runFullCycle E fuel ;;; runCycles E fuel n')%m
  end.

(* ===================================================================== *)
(** * Relations between worlds, and properties of computations *)
(* ===================================================================== *)

(** [preserves R m]: whatever the outcome of [m], the world it leaves is
    related by [R] to the world it started in. *)
Definition preserves {A} (R : World -> World -> Prop) (m : M A) : Prop :=
  forall w, R w (snd (m w)).

(** [grows w w']: [w'] differs from [w] only by events that have passed and
    requests that have been sent. *)
Definition grows (w w' : World) : Prop :=
  proof_tasks w' = proof_tasks w /\
  wallets w' = wallets w /\
  isProcessingCycle w' = isProcessingCycle w /\
  isCleaningUp w' = isCleaningUp w /\
  written w' = written w /\
  (ticks w <= ticks w')%nat /\
  exists sent, posted w' = sent ++ posted w.

(** The world after a status write and after an attempts write. *)
Definition statusWritten (uid : string) (st : Status) (d : Details) (now : Z)
           (w : World) : World :=
  with_written (mkStatusWrite uid st d :: written w)
    (with_tasks (updateWhereUid uid (setStatus st d now) (proof_tasks w)) w).

Definition attemptsWritten (uid : string) (n : Z) (now : Z) (w : World) : World :=
  with_tasks (updateWhereUid uid (setAttempts n now) (proof_tasks w)) w.

(** The (status, details) pairs that the scheduler passes to
    [updateProofTaskStatus], call site by call site. *)
Inductive taskWrite : Status -> Details -> Prop :=
| tw_processing : taskWrite processing noDetails
| tw_found h : taskWrite success (withFoundTxHash h)
| tw_already : taskWrite success (withErrorMessage "Wallet already proofed.")
| tw_error m : taskWrite error (withErrorMessage m)
| tw_expired m : taskWrite expired (withErrorMessage m)
| tw_failed m : taskWrite failed_no_tx (withErrorMessage m).

(** [returns m]: [m] neither throws nor runs out of fuel. *)
Definition returns {A} (m : M A) : Prop :=
  forall w, exists a w', m w = (Ret a, w').

(** While the scheduler works on [task], a row keeps its uid; a row of
    another task is not touched; and the attempts of a row that stood at
    the task's count or one above stay there and do not go down. *)
Definition rowStep (task r r' : ProofTask) : Prop :=
  task_uid r' = task_uid r /\
  (task_uid r <> task_uid task -> r' = r) /\
  (attempts r = attempts task \/ attempts r = attempts task + 1 ->
   (attempts r' = attempts task \/ attempts r' = attempts task + 1) /\
   attempts r <= attempts r').

Definition tableStep (task : ProofTask) (w w' : World) : Prop :=
  Forall2 (rowStep task) (proof_tasks w) (proof_tasks w').

(** Over a batch of tasks with the given uids: a row keeps its uid, a row
    outside the batch is not touched, and no row loses attempts. *)
Definition batchStep (uids : list string) (r r' : ProofTask) : Prop :=
  task_uid r' = task_uid r /\
  (~ In (task_uid r) uids -> r' = r) /\
  attempts r <= attempts r'.

(** Over a phase that selects by [selects]: a row keeps its uid, no row
    loses attempts, and a row that is not selected is not touched. *)
Definition phaseStep (selects : ProofTask -> bool) (r r' : ProofTask) : Prop :=
  task_uid r' = task_uid r /\
  attempts r <= attempts r' /\
  (selects r = false -> r' = r).

(** Events only accumulate. *)
Definition later (w w' : World) : Prop := (ticks w <= ticks w')%nat.

(** Over a full cycle: a row keeps its uid, no row loses attempts, and a
    row that neither query can select is not touched. *)
Definition cycleStep (E : Env) (w : World) (r r' : ProofTask) : Prop :=
  task_uid r' = task_uid r /\
  attempts r <= attempts r' /\
  (isStuckOrExpired (clock E (ticks w)) r = false ->
   (forall k, (ticks w < k)%nat -> isProcessable (clock E k) r = false) ->
   r' = r).

(** Every row keeps its uid and its attempts. *)
Definition attemptsKept (w w' : World) : Prop :=
  Forall2 (fun r r' => task_uid r' = task_uid r /\ attempts r' = attempts r)
          (proof_tasks w) (proof_tasks w').

(** Between two worlds only status writes that satisfy [P] were made. *)
Definition wrote (P : StatusWrite -> Prop) (w w' : World) : Prop :=
  exists ws, writtenBetween w w' ws /\ Forall P ws.

(** [finishes m]: [m] does not run out of fuel. *)
Definition finishes {A} (m : M A) : Prop :=
  forall w, fst (m w) <> OutOfFuel.

(** The bodies of the two phases leave both flags alone. *)
Definition flagsKept (w w' : World) : Prop :=
  isProcessingCycle w' = isProcessingCycle w /\ isCleaningUp w' = isCleaningUp w.

(* ===================================================================== *)
(** * Sample data *)
(* ===================================================================== *)

Module Sample.

Definition user : string := "0xaaaaaaaaaaaaaaaaaaaaaaaaaaaaaaaaaaaaaaaa".
Definition target : string := "0xBBBBBBBBBBBBBBBBBBBBBBBBBBBBBBBBBBBBBBBB".
Definition other : string := "0xcccccccccccccccccccccccccccccccccccccccc".

(** Timestamps are written as decimal seconds in the samples. *)
Definition seconds (s : string) : Js.jsnum :=
  match NilZero.int_of_string s with
  | Some i => Js.JInt (Z.of_int i)
  | None => Js.JNaN
  end.

Definition tx (h from to st ts : string) : option TxNode :=
  Some {| hash := h; fromAddressHash := Some from; toAddressHash := Some to;
          value := "0"; txStatus := st;
          block := Some {| timestamp := ts |}; blockNumber := Some 7 |}.

Definition pageBody (es : list (option TxNode)) (more : bool)
           (c : option string) : GraphQLResponseData :=
  {| transactions :=
       Some {| edges := Some es;
               pageInfo := Some {| hasNextPage := more; endCursor := c |} |};
     blockTimestamp := None;
     errors := None |}.

Definition page (es : list (option TxNode)) (more : bool) (c : option string)
  : Reply :=
  HttpOk (pageBody es more c).

Definition env (ex : nat -> Request -> Reply) (now : nat -> Z)
           (fault : nat -> option string) : Env :=
  {| explorer := ex;
     clock := now;
     storeFault := fault;
     dateSeconds := seconds;
     aesDecrypt := fun s => Some s;
     encryptWallet := fun s => s;
     hashTelegramId := fun s => s;
     hashWallet := fun s => s;
     CHECK_WALLET := Some target |}.

Definition task (uid tg : string) (st : Status) (n : Z) (deadline : Z)
  : ProofTask :=
  {| task_uid := uid; telegram_id := tg; wallet_address_encrypted := user;
     after_timestamp := 1000; check_deadline_utc := deadline;
     status := st; attempts := n; created_at := 1000; updated_at := 1000;
     found_tx_hash := None; error_message := None;
     last_checked_block := None |}.

Definition world (ts : list ProofTask) (ws : list WalletRow) : World :=
  {| proof_tasks := ts; wallets := ws;
     isProcessingCycle := false; isCleaningUp := false;
     ticks := 0; posted := []; written := [] |}.

(** An explorer that is down, one with nothing to report, and one that
    holds the proof transaction. *)
Definition down : nat -> Request -> Reply := fun _ _ => HttpError None.

Definition empty : nat -> Request -> Reply := fun _ _ => page [] false None.

Definition proofTx : option TxNode := tx "0xfeed" user target "OK" "1010".

Definition holding : nat -> Request -> Reply :=
  fun _ _ => page [proofTx] false None.

(** An explorer whose primary query fails with HTTP 500 and whose
    fallback query holds the proof transaction, in block 7 of second 1010. *)
Definition primaryBroken : nat -> Request -> Reply :=
  fun _ req =>
    match req with
    | ReqPrimary _ _ => HttpError (Some 500)
    | ReqFallback _ _ => page [proofTx] false None
    | ReqBlock _ =>
        HttpOk {| transactions := None; blockTimestamp := Some "1010";
                  errors := None |}
    end.

Definition quiet : nat -> option string := fun _ => None.

(** A user who holds a proofed wallet link and, still, a pending task. *)
Definition proofedLink : WalletRow :=
  {| telegram_id_hash := "tg1"; raw_telegram_id := "tg1";
     wallet_hash := user; wallet_encrypted := user; proofed := 1 |}.

Definition pendingTask : ProofTask := task "u1" "tg1" pending 0 1900.

(** Tasks of a second user: one expired, one at its last attempt, one
    whose deadline is the second the sample clock shows. *)
Definition expiredTask : ProofTask := task "u2" "tg2" expired 3 1200.

Definition lastAttemptTask : ProofTask := task "u3" "tg2" processing 6 1900.

Definition dueNowTask : ProofTask := task "u4" "tg2" processing 2 1500.

(** A store that fails once, at its [k]-th event. *)
Definition failingAt (k : nat) : nat -> option string :=
  fun i => if Nat.eqb i k then Some "SQLITE_BUSY" else None.

Definition at1500 : nat -> Z := fun _ => 1500.

End Sample.

(* ===================================================================== *)
(** * Further code of the same files *)
(* ===================================================================== *)

(** The remaining proof-task and wallet functions of [db.ts], the padding
    of [encryptWallet] in [crypto.ts], the proof router and the legacy
    link and terminal-access routes of [server.ts], and the JSON-RPC search
    of [proofChecker.ts].

    Further conventions.

    - The [status] column holds text.  [statusText] gives the literal of
      each status, as the scheduler passes it to [updateProofTaskStatus]
      and as the schema lists it.
    - A field of a JSON request body is a [JsValue]: absent, a string or
      an integer.  Bodies with other values (null, booleans, fractions,
      arrays, objects) are outside the model, and nothing is stated about
      them.
    - The JSON-RPC provider and the NFT balance look-up are oracles indexed
      by the event counter, like the explorer.
    - Where a query compares [created_at] as text with a date rendered by
      JavaScript, the comparison is a parameter of the function. *)

(** ** crypto.ts: what [encryptWallet] hands to AES *)

(** [wallet.toString().trim().toLowerCase() || ' '] *)
Definition walletToEncrypt (wallet : string) : string :=
  let normalized := Js.toLowerCase (Js.trim wallet) in
  if Js.truthy normalized then normalized else " ".

(** ** db.ts: the text of the status column *)

Definition statusText (s : Status) : string :=
  match s with
  | pending => "pending"
  | processing => "processing"
  | success => "success"
  | failed_no_tx => "failed_no_tx"
  | expired => "expired"
  | error => "error"
  | cancelled => "cancelled"
  end.



(** [telegram_id = ? AND (status = 'pending' OR status = 'processing')] *)
Definition isActiveOf (telegramId : string) (t : ProofTask) : bool :=
  andb (String.eqb (telegram_id t) telegramId) (isActive (status t)).

(** [ORDER BY created_at DESC LIMIT 1]; among rows of the same second the
    first in table order. *)
Fixpoint newestFirst (ts : list ProofTask) : option ProofTask :=
  match ts with
  | [] => None
  | t :: rest =>
      match newestFirst rest with
      | Some u => if Z.ltb (created_at t) (created_at u) then Some u else Some t
      | None => Some t
      end
  end.

(** The row that [INSERT INTO proof_tasks (task_uid, telegram_id,
    wallet_address_encrypted, after_timestamp, check_deadline_utc)] adds,
    the other columns at their defaults. *)
Definition newProofTask (taskUid telegramId encryptedWalletAddress : string)
           (afterTimestamp checkDeadlineUtc now : Z) : ProofTask :=
  {| task_uid := taskUid;
     telegram_id := telegramId;
     wallet_address_encrypted := encryptedWalletAddress;
     after_timestamp := afterTimestamp;
     check_deadline_utc := checkDeadlineUtc;
     status := pending;
     attempts := 0;
     created_at := now;
     updated_at := now;
     found_tx_hash := None;
     error_message := None;
     last_checked_block := None |}.


Section StoreMore.

Variable E : Env.

(** The insert fails on a [task_uid] that the table holds: the column is
    declared [UNIQUE]. *)
Definition createProofTask (taskUid telegramId walletAddress : string)
           (afterTimestamp checkDeadlineUtc : Z) : M unit :=
  let encryptedWalletAddress := encryptWallet E (Js.toLowerCase walletAddress) in
  k <- storeCall E ;;
  rows <- gets proof_tasks ;;
  match selectByUid taskUid rows with
  | Some _ => throw "UNIQUE constraint failed: proof_tasks.task_uid"
  | None =>
      modify (with_tasks
                (rows ++ [newProofTask taskUid telegramId encryptedWalletAddress
                                       afterTimestamp checkDeadlineUtc
                                       (clock E k)]))
  end.

Definition getActiveProofTaskByTelegramId (telegramId : string)
  : M (option ProofTask) :=
  tryCatch
    (_ <- storeCall E ;;
     rows <- gets proof_tasks ;;
     ret (newestFirst (filter (isActiveOf telegramId) rows)))
    (fun _ => ret None).

(** It returns the [RunResult]; the model keeps its [changes]. *)
Definition deleteNonFinalizedProofTasksByTelegramId (telegramId : string)
  : M nat :=
  _ <- storeCall E ;;
  rows <- gets proof_tasks ;;
  modify (with_tasks (filter (fun t => negb (isActiveOf telegramId t)) rows)) ;;;
  ret (List.length (filter (isActiveOf telegramId) rows)).


Definition unlinkWallet (telegramId : string) : M bool :=
  let telegramIdHash := hashTelegramId E telegramId in
  let mine r := String.eqb (telegram_id_hash r) telegramIdHash in
  _ <- storeCall E ;;
  rows <- gets wallets ;;
  modify (with_wallets (filter (fun r => negb (mine r)) rows)) ;;;
  ret (Nat.ltb 0 (List.length (filter mine rows))).

Definition getTelegramIdByWallet (wallet : string) : M (option string) :=
  let walletHash := hashWallet E wallet in
  _ <- storeCall E ;;
  rows <- gets wallets ;;
  ret (option_map telegram_id_hash
         (find (fun r => String.eqb (wallet_hash r) walletHash) rows)).

End StoreMore.

(* ===================================================================== *)
(** * server.ts: the proof router and two legacy routes *)
(* ===================================================================== *)

Inductive JsValue : Type :=
| JUndefined
| JString (s : string)
| JNumber (z : Z).

Definition truthyValue (v : JsValue) : bool :=
  match v with
  | JUndefined => false
  | JString s => Js.truthy s
  | JNumber z => negb (Z.eqb z 0)
  end.

(** [v.toString()], called on truthy values only. *)
Definition toString (v : JsValue) : string :=
  match v with
  | JUndefined => ""
  | JString s => s
  | JNumber z => Js.showZ z
  end.

(** The text lies in the ASCII range, where [Js.trim] and
    [Js.toLowerCase] are [trim()] and [toLowerCase()]. *)
Definition isAsciiText (s : string) : bool :=
  forallb (fun c => Nat.ltb (nat_of_ascii c) 128) (list_ascii_of_string s).

(** What a JSON-RPC or contract call does: it resolves or it rejects. *)
Inductive RpcReply (A : Type) : Type :=
| RpcOk (a : A)
| RpcError (message : string).

Arguments RpcOk {A} a.
Arguments RpcError {A} message.

Definition rpcCall {A} (oracle : nat -> RpcReply A) : M A :=
  k <- tick ;;
  match oracle k with
  | RpcOk a => ret a
  | RpcError message => throw message
  end.

(** [POST /api/v1/proof/initiate] *)
Inductive InitiateResponse : Type :=
| InitiateRejected (httpStatus : Z) (message : string)
| InitiateOk (taskUid : string) (deadlineUtc : Z) (checkWallet : string).

(** [GET /api/v1/proof/status/:taskUid]; an absent property of the payload
    is [None]. *)
Record StatusPayload : Type := mkStatusPayload {
  sp_status : string;
  sp_walletAddress : option (option string);
  sp_proofed : option bool;
  sp_errorMessage : option (option string)
}.

Inductive StatusResponse : Type :=
| StatusRejected (httpStatus : Z) (message : string)
| StatusOk (payload : StatusPayload).

(** [GET /api/v1/proof/task/active/:telegramId] *)
Inductive ActiveResponse : Type :=
| ActiveRejected (httpStatus : Z) (message : string)
| ActiveNone
| ActiveTask (taskUid : string) (walletAddress : option string)
             (statusField : string) (createdAt : Z).

(** [POST /api/v1/proof/task/cancel/by-telegram/:telegramId] *)
Inductive CancelResponse : Type :=
| CancelRejected (httpStatus : Z) (message : string)
| CancelDone (successField : bool) (message : string).

(** [POST /link] *)
Inductive LinkResponse : Type :=
| LinkRejected (httpStatus : Z) (message : string)
| LinkOk (message : string).

(** [GET /terminal-access/:telegramId] *)
Inductive AccessResponse : Type :=
| AccessRejected (httpStatus : Z) (message : string)
| AccessRefused (reason : string)
| AccessGranted.

(** [task.wallet_address_encrypted ? decryptWallet(..) : null] *)
Definition decryptedOrNull (E : Env) (encrypted : string) : option string :=
  if Js.truthy encrypted then Some (decryptWallet E encrypted) else None.

(** [balance > 0] for a balance that is not [NaN]. *)
Definition isPositive (balance : Js.jsnum) : bool :=
  match balance with
  | Js.JNaN => false
  | Js.JInt z => Z.ltb 0 z
  end.

Section Routes.

Variable E : Env.

(** [uuidv4()] drawn at an event. *)
Variable uuidv4 : nat -> string.

(** [Number(await nftChecker.getNFTBalance(wallet))] at an event. *)
Variable getNFTBalance : nat -> string -> RpcReply Js.jsnum.

Definition proofInitiate (telegramId wallet : JsValue) : M InitiateResponse :=
  if orb (negb (truthyValue telegramId)) (negb (truthyValue wallet)) then
    ret (InitiateRejected 400 "Missing telegramId or wallet")
  else
    let normalizedWallet := Js.toLowerCase (Js.trim (toString wallet)) in
    if negb (isValidEvmAddress normalizedWallet) then
      ret (InitiateRejected 400 "Invalid EVM wallet address")
    else if negb (Js.truthyOpt (CHECK_WALLET E)) then
      ret (InitiateRejected 500
             "Server configuration error for proof verification.")
    else
      let checkWallet := match CHECK_WALLET E with Some a => a | None => "" end in
      tryCatch
        (_ <- unlinkWallet E (toString telegramId) ;;
         _ <- deleteNonFinalizedProofTasksByTelegramId E (toString telegramId) ;;
         k <- tick ;;
         let taskUid := uuidv4 k in
         afterTimestamp <- dateNowSeconds E ;;
         let checkDeadlineUtc := afterTimestamp + 15 * 60 in
         createProofTask E taskUid (toString telegramId) normalizedWallet
                         afterTimestamp checkDeadlineUtc ;;;
         ret (InitiateOk taskUid checkDeadlineUtc checkWallet))
        (fun _ => ret (InitiateRejected 500 "Failed to initiate proof task")).

Definition proofStatus (taskUid : string) : M StatusResponse :=
  if negb (Js.truthy taskUid) then ret (StatusRejected 400 "Missing taskUid")
  else
    tryCatch
      (found <- getProofTaskByUid E taskUid ;;
       match found with
       | None => ret (StatusRejected 404 "Proof task not found")
       | Some task =>
           let text := statusText (status task) in
           if String.eqb text "completed_success" then
             walletInfo <- getWallet E (telegram_id task) ;;
             ret (StatusOk
                    {| sp_status := text;
                       sp_walletAddress :=
                         Some (decryptedOrNull E (wallet_address_encrypted task));
                       sp_proofed :=
                         Some (match walletInfo with
                               | Some link => wl_proofed link
                               | None => false
                               end);
                       sp_errorMessage := None |})
           else if String.eqb text "error" then
             ret (StatusOk {| sp_status := text;
                              sp_walletAddress := None;
                              sp_proofed := None;
                              sp_errorMessage := Some (error_message task) |})
           else
             ret (StatusOk {| sp_status := text;
                              sp_walletAddress := None;
                              sp_proofed := None;
                              sp_errorMessage := None |})
       end)
      (fun _ => ret (StatusRejected 500 "Failed to get proof task status")).

Definition proofTaskActive (telegramId : string) : M ActiveResponse :=
  if negb (Js.truthy telegramId) then
    ret (ActiveRejected 400 "Telegram ID is required")
  else
    tryCatch
      (found <- getActiveProofTaskByTelegramId E telegramId ;;
       match found with
       | Some task =>
           ret (ActiveTask (task_uid task)
                           (decryptedOrNull E (wallet_address_encrypted task))
                           (statusText (status task)) (created_at task))
       | None => ret ActiveNone
       end)
      (fun _ => ret (ActiveRejected 500
                       "Internal server error while checking task status.")).

Definition proofTaskCancel (telegramId : string) : M CancelResponse :=
  tryCatch
    (changes <- deleteNonFinalizedProofTasksByTelegramId E telegramId ;;
     if Nat.ltb 0 changes then
       ret (CancelDone true
              ("Cancelled " ++ Js.showZ (Z.of_nat changes)
                 ++ " active proof tasks."))
     else ret (CancelDone false "No active proof tasks found to cancel."))
    (fun _ => ret (CancelRejected 500 "Failed to cancel proof tasks.")).

(** [saveWalletLink] is an upsert: its [RunResult] reports one change, so
    the handler answers from the first branch of [result.changes > 0]. *)
Definition legacyLink (telegramId wallet : JsValue) : M LinkResponse :=
  tryCatch
    (if orb (negb (truthyValue telegramId)) (negb (truthyValue wallet)) then
       ret (LinkRejected 400 "Missing required fields")
     else
       let normalizedWallet := Js.toLowerCase (Js.trim (toString wallet)) in
       if negb (isValidEvmAddress normalizedWallet) then
         ret (LinkRejected 400 "Invalid EVM address")
       else
         saveWalletLink E (toString telegramId) normalizedWallet false None ;;;
         ret (LinkOk "Wallet linked initially. Proof pending."))
    (fun _ => ret (LinkRejected 500 "Internal server error during initial link.")).

Definition terminalAccess (telegramId : string) : M AccessResponse :=
  tryCatch
    (if negb (Js.truthy telegramId) then
       ret (AccessRejected 400 "Missing telegramId")
     else
       walletObj <- getWallet E telegramId ;;
       match walletObj with
       | None => ret (AccessRefused "Wallet not linked")
       | Some link =>
           if negb (Js.truthy (wl_wallet link)) then
             ret (AccessRefused "Wallet not linked")
           else if negb (wl_proofed link) then
             ret (AccessRefused "Wallet ownership not verified")
           else
             hasNFT <- tryCatch
                         (balance <- rpcCall (fun k =>
                                                getNFTBalance k (wl_wallet link)) ;;
                          ret (isPositive balance))
                         (fun _ => ret false) ;;
             if negb hasNFT then ret (AccessRefused "NFT ownership required")
             else ret AccessGranted
       end)
    (fun _ => ret (AccessRejected 500
                     "Internal server error checking access")).

End Routes.

(* ===================================================================== *)
(** * proofChecker.ts: the JSON-RPC search *)
(* ===================================================================== *)

(** ~2 seconds per block on Forma. *)
Definition BLOCK_TIME : Z := 2.

Record RpcTransaction : Type := mkRpcTransaction {
  rt_hash : string;
  rt_from : option string;
  rt_to : option string
}.

(** A block as [provider.getBlock] resolves it: [rb_timestamp] is [None]
    when [typeof timestamp !== 'number']. *)
Record RpcBlock : Type := mkRpcBlock {
  rb_timestamp : option Z;
  prefetchedTransactions : option (list RpcTransaction)
}.

Record Provider : Type := mkProvider {
  getBlockNumber : nat -> RpcReply Z;
  getBlock : nat -> Z -> RpcReply (option RpcBlock)
}.

(** [a === b] for two possibly-undefined strings. *)
Definition sameOpt (a b : option string) : bool :=
  match a, b with
  | Some x, Some y => String.eqb x y
  | None, None => true
  | _, _ => false
  end.

Section RpcSearch.

Variable E : Env.
Variable provider : Provider.

(** [Number(process.env.BLOCKS_TO_CHECK) || 1000], an integer. *)
Variable BLOCKS_TO_CHECK : Z.

Definition getBlockNumberFromTimestamp (timestampSeconds currentBlockNumber : Z)
  : M Z :=
  latestBlock <- rpcCall (fun k => getBlock provider k currentBlockNumber) ;;
  match latestBlock with
  | None => throw "Could not get latest block data"
  | Some b =>
      match rb_timestamp b with
      | None => throw "Latest block data does not contain a valid timestamp"
      | Some latestTimestamp =>
          let timeDiff := latestTimestamp - timestampSeconds in
          let blockDiff := timeDiff / BLOCK_TIME in
          let calculatedStartBlock := Z.max 0 (currentBlockNumber - blockDiff) in
          if Z.ltb 0 BLOCKS_TO_CHECK then
            ret (Z.max (currentBlockNumber - BLOCKS_TO_CHECK + 1)
                       calculatedStartBlock)
          else ret calculatedStartBlock
      end
  end.

(** [tx.from?.toLowerCase() === wallet &&
     tx.to?.toLowerCase() === CHECK_WALLET?.toLowerCase()] *)
Definition isProofTransfer (wallet : string) (tx : RpcTransaction) : bool :=
  andb (eqOpt (option_map Js.toLowerCase (rt_from tx)) wallet)
       (sameOpt (option_map Js.toLowerCase (rt_to tx))
                (option_map Js.toLowerCase (CHECK_WALLET E))).

(** [for (let i = currentBlock; i >= actualStartBlock; i--)], with [count]
    the number of blocks from [i] down to [actualStartBlock]. *)
Fixpoint scanBlocks (count : nat) (i : Z) (wallet : string)
  : M (option RpcTransaction) :=
  match count with
  | O => ret None
  | S count' =>
      fetched <- rpcCall (fun k => getBlock provider k i) ;;
      match fetched with
      | None => scanBlocks count' (i - 1) wallet
      | Some b =>
          match prefetchedTransactions b with
          | None => scanBlocks count' (i - 1) wallet
          | Some txs =>
              match find (isProofTransfer wallet) txs with
              | Some tx => ret (Some tx)
              | None => scanBlocks count' (i - 1) wallet
              end
          end
      end
  end.

Definition findTransaction (walletHash : string) (afterTimestamp : Z)
  : M (option RpcTransaction) :=
  let wallet := Js.toLowerCase (Js.trim walletHash) in
  if negb (isValidEvmAddress wallet) then throw "Invalid EVM address"
  else
    tryCatch
      (currentBlock <- rpcCall (getBlockNumber provider) ;;
       startBlock <- getBlockNumberFromTimestamp afterTimestamp currentBlock ;;
       let searchDepth := currentBlock - startBlock in
       let effectiveBlocksToCheck :=
         if Z.ltb 0 BLOCKS_TO_CHECK
         then Z.min (searchDepth + 1) BLOCKS_TO_CHECK
         else searchDepth + 1 in
       let actualStartBlock := currentBlock - effectiveBlocksToCheck + 1 in
       scanBlocks (Z.to_nat (currentBlock - actualStartBlock + 1))
                  currentBlock wallet)
      (fun _ => ret None).

End RpcSearch.

(* ===================================================================== *)
(** * Vocabulary of the further properties *)
(* ===================================================================== *)

(** No [telegram_id_hash] occurs twice: the column is declared [UNIQUE]. *)
Definition uniqueLinks (w : World) : Prop :=
  NoDup (map telegram_id_hash (wallets w)).

(** The row of the [wallets] table with a given [telegram_id_hash]. *)
Definition linkOf (h : string) (ws : list WalletRow) : option WalletRow :=
  find (fun r => String.eqb (telegram_id_hash r) h) ws.

(** The active tasks of a user. *)
Definition activeTasksOf (telegramId : string) (w : World) : list ProofTask :=
  filter (isActiveOf telegramId) (proof_tasks w).

(** A list of tasks in ascending order of [created_at]. *)
Fixpoint oldestFirst (ts : list ProofTask) : Prop :=
  match ts with
  | [] => True
  | t :: rest =>
      (forall u, In u rest -> created_at t <= created_at u) /\ oldestFirst rest
  end.

(** The tables of two worlds are the same. *)
Definition sameTables (w w' : World) : Prop :=
  proof_tasks w' = proof_tasks w /\ wallets w' = wallets w.

(** Between two worlds the reap phase has expired the rows it selected and
    has left the others alone. *)
Definition reaped (nowUtc : Z) (r r' : ProofTask) : Prop :=
  if isStuckOrExpired nowUtc r
  then status r' = expired /\
       error_message r' = Some "Task auto-expired by cleanup." /\
       task_uid r' = task_uid r /\ attempts r' = attempts r /\
       found_tx_hash r' = found_tx_hash r
  else r' = r.

(** Rows whose uid is among [uids] are expired by the clean-up; the others
    are as they were. *)
Definition expiredAmong (uids : list string) (r r' : ProofTask) : Prop :=
  if existsb (String.eqb (task_uid r)) uids
  then status r' = expired /\
       error_message r' = Some "Task auto-expired by cleanup." /\
       task_uid r' = task_uid r /\ attempts r' = attempts r /\
       found_tx_hash r' = found_tx_hash r
  else r' = r.

(** The world after [n] events in which nothing but time has passed. *)
Definition elapsed (n : nat) (w : World) : World :=
  with_ticks (n + ticks w) w.

(** The status write of the work phase's own deadline test. *)
Definition expiredBeforeAttempt (sw : StatusWrite) : Prop :=
  sw_status sw = expired /\
  errorMessage (sw_details sw)
  = Some "Deadline passed before processing attempt.".

(** Between two worlds no such write was made. *)
Definition live (w w' : World) : Prop :=
  wrote (fun sw => ~ expiredBeforeAttempt sw) w w'.

(** ** Further sample data *)

Module Scenario.

Definition uuid : nat -> string := fun _ => "uuid-1".

Definition oneToken : nat -> string -> RpcReply Js.jsnum :=
  fun _ _ => RpcOk (Js.JInt 1).

Definition env : Env := Sample.env Sample.empty Sample.at1500 Sample.quiet.

(** A server whose AES key does not fit the stored ciphertexts. *)
Definition wrongKey : Env :=
  {| explorer := Sample.holding;
     clock := Sample.at1500;
     storeFault := Sample.quiet;
     dateSeconds := Sample.seconds;
     aesDecrypt := fun _ => None;
     encryptWallet := fun s => s;
     hashTelegramId := fun s => s;
     hashWallet := fun s => s;
     CHECK_WALLET := Some Sample.target |}.

(** A chain whose head is block 100 of second 2000, every block holding one
    transfer from the sample user to the sample target. *)
Definition transfer : RpcTransaction :=
  {| rt_hash := "0xfeed"; rt_from := Some Sample.user;
     rt_to := Some Sample.target |}.

Definition chain : Provider :=
  {| getBlockNumber := fun _ => RpcOk 100;
     getBlock := fun _ _ =>
       RpcOk (Some {| rb_timestamp := Some 2000;
                      prefetchedTransactions := Some [transfer] |}) |}.

(** Two tasks of one user, the second the newer, and a finished one. *)
Definition olderTask : ProofTask := Sample.task "a1" "tg7" processing 1 1900.

Definition newerTask : ProofTask :=
  {| task_uid := "a2"; telegram_id := "tg7";
     wallet_address_encrypted := Sample.user;
     after_timestamp := 1100; check_deadline_utc := 2000;
     status := pending; attempts := 0; created_at := 1100; updated_at := 1100;
     found_tx_hash := None; error_message := None;
     last_checked_block := None |}.

Definition doneTask : ProofTask := Sample.task "a3" "tg7" success 1 1900.

Definition overdueTask : ProofTask := Sample.task "a4" "tg8" processing 2 1400.

End Scenario.

(* ===================================================================== *)
(** * A work phase in flight while the timer ticks *)
(* ===================================================================== *)

(** [start()] arms the timer with
    [setInterval(() => this.runFullCycle(), this.pollingIntervalMs)]: a tick
    calls [runFullCycle] and does not wait for the cycle that an earlier
    tick, or [start()] itself, has begun.  The store is better-sqlite3,
    whose calls are synchronous, so the only places where a cycle gives the
    event loop back are [await axios.post(..)] and the [await delay(..)]
    before a retry, all of them in the work phase.  A tick that falls due
    there runs its own [runFullCycle] to the end before the reply is
    handled: its reap phase is made of store calls only, and its work phase
    finds [isProcessingCycle] up and returns.

    [Live] is the explorer client and the scheduler once more, word for
    word, over the operation [post] that stands for [await axios.post(..)];
    with [axiosPost] for [post] they are the definitions above, and with
    [axiosPostAwaited] the timer ticks while a reply is awaited. *)

Module Live.

Section Awaiting.

Variable E : Env.

Variable post : Request -> M Reply.

Fixpoint timestampAttempts (left currentAttempt : nat) (blockNum : Z)
  : M (option Js.jsnum) :=
  match left with
  | O => ret None
  | S left' =>
      let currentAttempt := S currentAttempt in
      reply <- post (ReqBlock blockNum) ;;
      match reply with
      | HttpOk body =>
          if hasErrors body then
            if andb (isInternalError body)
                    (Nat.leb MAX_API_CALL_ATTEMPTS currentAttempt)
            then ret None
            else timestampAttempts left' currentAttempt blockNum
          else
            match blockTimestamp body with
            | Some timestampStr =>
                if Js.truthy timestampStr
                then ret (Some (dateSeconds E timestampStr))
                else timestampAttempts left' currentAttempt blockNum
            | None => timestampAttempts left' currentAttempt blockNum
            end
      | HttpError st =>
          if andb (isStatus500 st)
                  (Nat.leb MAX_API_CALL_ATTEMPTS currentAttempt)
          then ret None
          else timestampAttempts left' currentAttempt blockNum
      end
  end.

Definition getTimestampForBlockGraphQL (blockNum : Z) : M (option Js.jsnum) :=
  timestampAttempts MAX_API_CALL_ATTEMPTS 0 blockNum.

Fixpoint primaryAttempts (left currentAttempt : nat)
         (userAddress : string) (afterCursor : option string)
  : M (option GraphQLResponseData * bool * nat) :=
  match left with
  | O => ret (None, false, currentAttempt)
  | S left' =>
      let currentAttempt := S currentAttempt in
      reply <- post (ReqPrimary userAddress afterCursor) ;;
      match reply with
      | HttpOk body =>
          if hasErrors body then
            if isInternalError body
            then ret (None, true, currentAttempt)
            else primaryAttempts left' currentAttempt userAddress afterCursor
          else
            match edgesOf body with
            | Some _ => ret (Some body, false, currentAttempt)
            | None => primaryAttempts left' currentAttempt userAddress afterCursor
            end
      | HttpError st =>
          if isStatus500 st
          then ret (None, true, currentAttempt)
          else primaryAttempts left' currentAttempt userAddress afterCursor
      end
  end.

Fixpoint fallbackAttempts (left currentAttempt : nat)
         (userAddress : string) (afterCursor : option string)
  : M (option GraphQLResponseData * nat) :=
  match left with
  | O => ret (None, currentAttempt)
  | S left' =>
      let currentAttempt := S currentAttempt in
      reply <- post (ReqFallback userAddress afterCursor) ;;
      match reply with
      | HttpOk body =>
          if hasErrors body then
            fallbackAttempts left' currentAttempt userAddress afterCursor
          else
            match edgesOf body with
            | Some _ => ret (Some body, currentAttempt)
            | None => fallbackAttempts left' currentAttempt userAddress afterCursor
            end
      | HttpError _ =>
          fallbackAttempts left' currentAttempt userAddress afterCursor
      end
  end.

Definition fetchPage (userAddress : string) (afterCursor : option string)
  : M PageFetch :=
  ' (responseData, useFallbackQuery, attemptPrimary) <-
      primaryAttempts MAX_API_CALL_ATTEMPTS 0 userAddress afterCursor ;;
  if andb (Nat.leb MAX_API_CALL_ATTEMPTS attemptPrimary)
          (andb (isNone responseData) (negb useFallbackQuery))
  then ret GiveUp
  else if useFallbackQuery then
    ' (responseData, attemptFallback) <-
        fallbackAttempts MAX_API_CALL_ATTEMPTS 0 userAddress afterCursor ;;
    if andb (Nat.leb MAX_API_CALL_ATTEMPTS attemptFallback) (isNone responseData)
    then ret GiveUp
    else ret (Page responseData true)
  else ret (Page responseData false).

Definition resolveTimestamp (useFallbackQuery : bool) (txNode : TxNode)
  : M (option Js.jsnum) :=
  if useFallbackQuery then
    match blockNumber txNode with
    | None => ret None
    | Some bn => getTimestampForBlockGraphQL bn
    end
  else
    match block txNode with
    | Some b =>
        if Js.truthy (timestamp b)
        then ret (Some (dateSeconds E (timestamp b)))
        else ret None
    | None => ret None
    end.

Fixpoint scanEdges (useFallbackQuery : bool)
         (userWalletLower targetWalletLower : string)
         (afterTimestamp deadlineTimestamp : Z)
         (es : list (option TxNode)) : M (option ProofTransaction) :=
  match es with
  | [] => ret None
  | None :: es' =>
      scanEdges useFallbackQuery userWalletLower targetWalletLower
                afterTimestamp deadlineTimestamp es'
  | Some txNode :: es' =>
      resolved <- resolveTimestamp useFallbackQuery txNode ;;
      match resolved with
      | None =>
          scanEdges useFallbackQuery userWalletLower targetWalletLower
                    afterTimestamp deadlineTimestamp es'
      | Some blockTimestampSeconds =>
          if criteria userWalletLower targetWalletLower
                      afterTimestamp deadlineTimestamp
                      txNode blockTimestampSeconds
          then ret (Some (proofOf txNode blockTimestampSeconds))
          else scanEdges useFallbackQuery userWalletLower targetWalletLower
                         afterTimestamp deadlineTimestamp es'
      end
  end.

Fixpoint pageLoop (fuel : nat) (userWalletLower targetWalletLower : string)
         (afterTimestamp deadlineTimestamp : Z) (nextCursor : option string)
  : M (option ProofTransaction) :=
  match fuel with
  | O => outOfFuel
  | S fuel' =>
      fetched <- fetchPage userWalletLower nextCursor ;;
      match fetched with
      | GiveUp => ret None
      | Page responseData useFallbackQuery =>
          match responseData with
          | None => ret None
          | Some body =>
              match edgesOf body with
              | None => ret None
              | Some es =>
                  result <- scanEdges useFallbackQuery userWalletLower
                                      targetWalletLower afterTimestamp
                                      deadlineTimestamp es ;;
                  match result with
                  | Some proof => ret (Some proof)
                  | None =>
                      let nextCursor :=
                        nextCursorOf E useFallbackQuery afterTimestamp es
                                     (pageInfoOf body) in
                      if Js.truthyOpt nextCursor
                      then pageLoop fuel' userWalletLower targetWalletLower
                                    afterTimestamp deadlineTimestamp nextCursor
                      else ret None
                  end
              end
          end
      end
  end.

Definition findProofTransactionGraphQL (fuel : nat)
           (userWallet targetWallet : string)
           (afterTimestamp deadlineTimestamp : Z)
  : M (option ProofTransaction) :=
  pageLoop fuel (Js.toLowerCase userWallet) (Js.toLowerCase targetWallet)
           afterTimestamp deadlineTimestamp None.

Definition checkOwnershipAfter (fuel : nat) (walletHash : string)
           (afterTimestamp deadlineTimestamp : Z) (targetWalletAddress : string)
  : M ProofResult :=
  let userWallet := Js.toLowerCase (Js.trim walletHash) in
  if negb (Js.truthy targetWalletAddress) then
    ret (notConfirmed "targetWalletAddress is not defined")
  else if negb (isValidEvmAddress userWallet) then
    ret (notConfirmed "Invalid user EVM address")
  else if negb (isValidEvmAddress targetWalletAddress) then
    ret (notConfirmed "Invalid target wallet address")
  else if Z.leb deadlineTimestamp afterTimestamp then
    ret (notConfirmed "Invalid time window")
  else
    tryCatch
      (proofTxNode <- findProofTransactionGraphQL fuel userWallet
                        targetWalletAddress afterTimestamp deadlineTimestamp ;;
       match proofTxNode with
       | Some proof =>
           ret {| isProofConfirmed := true;
                  txHash := Some (pt_hash proof);
                  pr_error := None |}
       | None => ret (notConfirmed "Proof transaction not found via GraphQL")
       end)
      (fun message =>
         ret (notConfirmed ("Overall error in checkOwnershipAfter: " ++ message))).

Definition attemptProof (fuel : nat) (task : ProofTask) (checkWallet : string)
           (newAttempts : Z) : M unit :=
  tryCatch
    (let decryptedWalletAddress :=
       decryptWallet E (wallet_address_encrypted task) in
     if negb (Js.truthy decryptedWalletAddress) then
       updateProofTaskStatus E (task_uid task) error
         (withErrorMessage "Internal error: Failed to decrypt wallet address")
     else
       proofResult <- checkOwnershipAfter fuel decryptedWalletAddress
                        (after_timestamp task) (check_deadline_utc task)
                        checkWallet ;;
       if isProofConfirmed proofResult then
         saveWalletLink E (telegram_id task) decryptedWalletAddress true
                        (Some (telegram_id task)) ;;;
         updateProofTaskStatus E (task_uid task) success
           (withFoundTxHash (txHash proofResult))
       else
         nowUtc <- dateNowSeconds E ;;
         if Z.leb (check_deadline_utc task) nowUtc then
           updateProofTaskStatus E (task_uid task) expired
             (withErrorMessage "Deadline passed, proof not found.")
         else if Z.leb PROOF_RETRY_LIMIT newAttempts then
           updateProofTaskStatus E (task_uid task) failed_no_tx
             (withErrorMessage (retryLimitMessage newAttempts))
         else ret tt)
    (fun message =>
       updateProofTaskStatus E (task_uid task) error (withErrorMessage message)).

Definition processSingleTask (fuel : nat) (task : ProofTask) : M unit :=
  if negb (Js.truthyOpt (CHECK_WALLET E)) then
    updateProofTaskStatus E (task_uid task) error
      (withErrorMessage "CHECK_WALLET not configured on server")
  else
    let checkWallet := match CHECK_WALLET E with Some a => a | None => "" end in
    updateProofTaskStatus E (task_uid task) processing noDetails ;;;
    let currentAttempts := orZero (attempts task) in
    let newAttempts := currentAttempts + 1 in
    tryCatch (updateProofTaskAttempts E (task_uid task) newAttempts)
             (fun _ => ret tt) ;;;
    attemptProof fuel task checkWallet newAttempts.

Definition processPendingTask (fuel : nat) (now : Z) (task : ProofTask)
  : M unit :=
  if Z.leb (check_deadline_utc task) now then
    updateProofTaskStatus E (task_uid task) expired
      (withErrorMessage "Deadline passed before processing attempt.")
  else
    existingWalletLink <- getWallet E (telegram_id task) ;;
    match existingWalletLink with
    | Some link =>
        if wl_proofed link then
          updateProofTaskStatus E (task_uid task) success
            (withErrorMessage "Wallet already proofed.") ;;;
          if Js.truthy (wl_wallet link) then
            saveWalletLink E (telegram_id task) (wl_wallet link) true
                           (Some (telegram_id task))
          else ret tt
        else processSingleTask fuel task
    | None => processSingleTask fuel task
    end.

Definition processPendingTasks (fuel : nat) : M unit :=
  busy <- gets isProcessingCycle ;;
  if busy then ret tt
  else
    modify (with_isProcessingCycle true) ;;;
    tryCatch
      (now <- dateNowSeconds E ;;
       tasks <- findProcessableTasks E 10 ;;
       forEach tasks (processPendingTask fuel now))
      (fun _ => ret tt) ;;;
    modify (with_isProcessingCycle false).

Definition runFullCycle (fuel : nat) : M unit :=
  handleStuckOrExpiredTasks E ;;;
  processPendingTasks fuel.

End Awaiting.

End Live.

(** [await axios.post(..)] with the timer live.  [fired k] is the number of
    ticks that fall due while the reply to the request of event [k] is
    awaited, the retry delay before the request included; each of them runs
    [runFullCycle] to its end, and then the reply is there. *)
Definition axiosPostAwaited (E : Env) (fuel : nat) (fired : nat -> nat)
           (req : Request) : M Reply :=
  k <- tick ;;
  modify (fun w => with_posted (req :: posted w) w) ;;;
  runCycles E fuel (fired k) ;;;
  ret (explorer E k req).

(** The cycle that [start()] or a tick begins, with the ticks that follow
    while it is in flight. *)
Definition runFullCycleAwaited (E : Env) (fuel : nat) (fired : nat -> nat)
  : M unit :=
  Live.runFullCycle E (axiosPostAwaited E fuel fired) fuel.

(** A timer that never ticks while a request is out. *)
Definition still : nat -> nat := fun _ => O.

(* ===================================================================== *)
(** * The early exit and the oldest transaction of a page *)
(* ===================================================================== *)

(** The block timestamp of an edge, as the primary query delivers it,
    lies before [afterTimestamp]. *)
Definition isOlder (E : Env) (afterTimestamp : Z) (edge : option TxNode) : bool :=
  match edge with
  | Some txNode =>
      match block txNode with
      | Some b =>
          andb (Js.truthy (timestamp b))
               (Js.ltb (dateSeconds E (timestamp b)) afterTimestamp)
      | None => false
      end
  | None => false
  end.

(** Some transaction of the page is older than [afterTimestamp]; the
    oldest one of the page then is. *)
Definition holdsOlder (E : Env) (afterTimestamp : Z)
           (es : list (option TxNode)) : bool :=
  existsb (isOlder E afterTimestamp) es.

(* ===================================================================== *)
(** * Sample data on the calendar *)
(* ===================================================================== *)

(** [Math.floor(new Date(s).getTime() / 1000)] for the ISO 8601 date-time
    strings [YYYY-MM-DDTHH:MM:SSZ] that name an instant of the calendar;
    the samples hold no other string, and the model answers [NaN] there. *)
Module Iso.

Definition digitOf (c : ascii) : option Z :=
  let n := nat_of_ascii c in
  if andb (Nat.leb 48 n) (Nat.leb n 57) then Some (Z.of_nat (n - 48)) else None.

Fixpoint numberOf (s : string) (acc : Z) : option Z :=
  match s with
  | EmptyString => Some acc
  | String c s' =>
      match digitOf c with
      | Some d => numberOf s' (10 * acc + d)
      | None => None
      end
  end.

Definition field (from len : nat) (s : string) : option Z :=
  numberOf (substring from len s) 0.

Definition charAt (i : nat) (c : ascii) (s : string) : bool :=
  match get i s with
  | Some x => Ascii.eqb x c
  | None => false
  end.

Definition isLeap (y : Z) : bool :=
  andb (Z.eqb (y mod 4) 0)
       (orb (negb (Z.eqb (y mod 100) 0)) (Z.eqb (y mod 400) 0)).

Definition daysInMonth (y m : Z) : Z :=
  if Z.eqb m 2 then (if isLeap y then 29 else 28)
  else if orb (orb (Z.eqb m 4) (Z.eqb m 6)) (orb (Z.eqb m 9) (Z.eqb m 11))
       then 30
       else 31.

(** The days from 1970-01-01 to a date of the Gregorian calendar. *)
Definition daysFromCivil (y m d : Z) : Z :=
  let y := if Z.leb m 2 then y - 1 else y in
  let era := y / 400 in
  let yoe := y - era * 400 in
  let mp := if Z.ltb 2 m then m - 3 else m + 9 in
  let doy := (153 * mp + 2) / 5 + d - 1 in
  let doe := yoe * 365 + yoe / 4 - yoe / 100 + doy in
  era * 146097 + doe - 719468.

Definition seconds (s : string) : Js.jsnum :=
  if andb (Nat.eqb (String.length s) 20)
       (andb (charAt 4 "-" s)
          (andb (charAt 7 "-" s)
             (andb (charAt 10 "T" s)
                (andb (charAt 13 ":" s)
                   (andb (charAt 16 ":" s) (charAt 19 "Z" s))))))
  then
    match field 0 4 s, field 5 2 s, field 8 2 s,
          field 11 2 s, field 14 2 s, field 17 2 s with
    | Some y, Some m, Some d, Some h, Some mi, Some sec =>
        if andb (andb (Z.leb 1 m) (Z.leb m 12))
             (andb (andb (Z.leb 1 d) (Z.leb d (daysInMonth y m)))
                (andb (Z.leb h 23) (andb (Z.leb mi 59) (Z.leb sec 59))))
        then Js.JInt (daysFromCivil y m d * 86400 + h * 3600 + mi * 60 + sec)
        else Js.JNaN
    | _, _, _, _, _, _ => Js.JNaN
    end
  else Js.JNaN.

End Iso.

Module Timeline.

(** A proof that was initiated on 2024-05-01 at 12:00:00 UTC, with its
    quarter of an hour. *)
Definition noon : Z := 1714564800.

Definition deadline : Z := noon + 15 * 60.

Definition env (ex : nat -> Request -> Reply) (now : nat -> Z) : Env :=
  {| explorer := ex;
     clock := now;
     storeFault := Sample.quiet;
     dateSeconds := Iso.seconds;
     aesDecrypt := fun s => Some s;
     encryptWallet := fun s => s;
     hashTelegramId := fun s => s;
     hashWallet := fun s => s;
     CHECK_WALLET := Some Sample.target |}.

Definition fiveAfter : nat -> Z := fun _ => noon + 5 * 60.

(** An explorer whose first page holds one transaction, of 11:00:00, and
    after it an edge without a node, with more pages behind cursor c1. *)
Definition danglingPage : list (option TxNode) :=
  [Sample.tx "0x01" Sample.other Sample.target "OK" "2024-05-01T11:00:00Z";
   None].

Definition dangling : nat -> Request -> Reply :=
  fun _ req =>
    match req with
    | ReqPrimary _ None => Sample.page danglingPage true (Some "c1")
    | _ => Sample.page [] false None
    end.

(** An explorer whose first page is not listed newest first: the
    transaction of 11:00:00 precedes one of 12:05:00. *)
Definition shuffledPage : list (option TxNode) :=
  [Sample.tx "0x01" Sample.other Sample.target "OK" "2024-05-01T11:00:00Z";
   Sample.tx "0x02" Sample.other Sample.target "OK" "2024-05-01T12:05:00Z"].

Definition shuffled : nat -> Request -> Reply :=
  fun _ req =>
    match req with
    | ReqPrimary _ None => Sample.page shuffledPage true (Some "c1")
    | _ => Sample.page [] false None
    end.

(** An explorer with a first page listed newest first, all of it from
    before noon, and more pages behind it. *)
Definition oldPage : list (option TxNode) :=
  [Sample.tx "0x03" Sample.other Sample.target "OK" "2024-05-01T11:30:00Z";
   Sample.tx "0x04" Sample.other Sample.target "OK" "2024-05-01T11:00:00Z"].

Definition oldHistory : nat -> Request -> Reply :=
  fun _ _ => Sample.page oldPage true (Some "c1").

(** The user's task, and an explorer that holds the user's proof
    transaction, of 12:10:00. *)
Definition task : ProofTask :=
  {| task_uid := "u1"; telegram_id := "tg1";
     wallet_address_encrypted := Sample.user;
     after_timestamp := noon; check_deadline_utc := deadline;
     status := pending; attempts := 0; created_at := noon; updated_at := noon;
     found_tx_hash := None; error_message := None;
     last_checked_block := None |}.

Definition holding : nat -> Request -> Reply :=
  fun _ _ =>
    Sample.page
      [Sample.tx "0xfeed" Sample.user Sample.target "OK" "2024-05-01T12:10:00Z"]
      false None.

(** A cycle begins at 12:14:50, ten seconds before the deadline.  Its
    request to the explorer is its ninth event; the reply takes half a
    minute, in which the timer ticks once, at 12:15:20. *)
Definition slowReply : nat -> Z :=
  fun k => if Nat.leb k 8 then deadline - 10 else deadline + 20.

Definition oneTick : nat -> nat :=
  fun k => if Nat.eqb k 8 then 1%nat else O.

End Timeline.

(* ===================================================================== *)
(** * Reasoning about effects *)
(* ===================================================================== *)

Section Preserves.

Variable R : World -> World -> Prop.
Hypothesis R_refl : forall w, R w w.
Hypothesis R_trans : forall a b c, R a b -> R b c -> R a c.

Lemma preserves_ret A (a : A) : preserves R (ret a).
Proof. intros w; apply R_refl. Qed.

Lemma preserves_throw A msg : preserves R (@throw A msg).
Proof. intros w; apply R_refl. Qed.

Lemma preserves_outOfFuel A : preserves R (@outOfFuel A).
Proof. intros w; apply R_refl. Qed.

Lemma preserves_gets A (f : World -> A) : preserves R (gets f).
Proof. intros w; apply R_refl. Qed.

Lemma preserves_bind A B (m : M A) (k : A -> M B) :
  preserves R m -> (forall a, preserves R (k a)) -> preserves R (bind m k).
Proof.
  intros Hm Hk w. unfold bind.
  specialize (Hm w). destruct (m w) as [[a | msg |] w1]; simpl in *; auto.
  eapply R_trans; [exact Hm | apply Hk].
Qed.

Lemma preserves_tryCatch A (m : M A) (h : string -> M A) :
  preserves R m -> (forall msg, preserves R (h msg)) -> preserves R (tryCatch m h).
Proof.
  intros Hm Hh w. unfold tryCatch.
  specialize (Hm w). destruct (m w) as [[a | msg |] w1]; simpl in *; auto.
  eapply R_trans; [exact Hm | apply Hh].
Qed.

Lemma preserves_forEach A (xs : list A) (body : A -> M unit) :
  (forall x, In x xs -> preserves R (body x)) -> preserves R (forEach xs body).
Proof.
  induction xs as [| x xs IH]; intros Hb; simpl.
  - apply preserves_ret.
  - apply preserves_bind.
    + apply Hb; now left.
    + intros _. apply IH. intros y Hy. apply Hb; now right.
Qed.

End Preserves.

(** Case analysis on whatever the computation branches on. *)
Ltac split_branch :=
  match goal with
  | |- preserves _ (if ?b then _ else _) => destruct b
  | |- preserves _ (match ?x with _ => _ end) => destruct x
  | |- preserves _ (let '(_, _) := ?x in _) => destruct x
  end.

Create HintDb frames.

(** Decompose a computation along its binds, handlers and branches; the
    pieces already dealt with are looked up among the [frames] hints. *)
Ltac preserve_with Hrefl Htrans :=
  repeat first
    [ solve [ eauto 2 with frames ]
    | apply (preserves_ret _ Hrefl)
    | apply (preserves_throw _ Hrefl)
    | apply (preserves_outOfFuel _ Hrefl)
    | apply (preserves_gets _ Hrefl)
    | apply (preserves_bind _ Htrans); [| intros ]
    | apply (preserves_tryCatch _ Htrans); [| intros ]
    | split_branch
    | assumption ].

(** ** What the explorer client leaves alone *)

Lemma grows_refl w : grows w w.
Proof. unfold grows; repeat split; auto. now exists []. Qed.

Lemma grows_trans a b c : grows a b -> grows b c -> grows a c.
Proof.
  unfold grows.
  intros (T1 & W1 & P1 & C1 & J1 & K1 & s1 & S1) (T2 & W2 & P2 & C2 & J2 & K2 & s2 & S2).
  repeat split; try congruence; try lia.
  exists (s2 ++ s1). rewrite S2, S1. now rewrite app_assoc.
Qed.

Ltac grows_tac := preserve_with grows_refl grows_trans.

Lemma tick_grows : preserves grows tick.
Proof.
  intros w. unfold tick, grows; simpl. repeat split; auto. now exists [].
Qed.

#[local] Hint Resolve tick_grows : frames.

Section EngineFrame.

Variable E : Env.

Lemma dateNowSeconds_grows : preserves grows (dateNowSeconds E).
Proof. unfold dateNowSeconds. grows_tac. Qed.

Lemma axiosPost_grows req : preserves grows (axiosPost E req).
Proof.
  unfold axiosPost. grows_tac.
  intros w. unfold modify, grows; simpl. repeat split; auto. now exists [req].
Qed.

Hint Resolve dateNowSeconds_grows axiosPost_grows : frames.

Lemma timestampAttempts_grows left cur bn :
  preserves grows (timestampAttempts E left cur bn).
Proof.
  revert cur. induction left as [| left IH]; intros cur; simpl.
  - grows_tac.
  - grows_tac.
Qed.

Hint Resolve timestampAttempts_grows : frames.

Lemma primaryAttempts_grows left cur a c :
  preserves grows (primaryAttempts E left cur a c).
Proof.
  revert cur. induction left as [| left IH]; intros cur; simpl.
  - grows_tac.
  - grows_tac.
Qed.

Hint Resolve primaryAttempts_grows : frames.

Lemma fallbackAttempts_grows left cur a c :
  preserves grows (fallbackAttempts E left cur a c).
Proof.
  revert cur. induction left as [| left IH]; intros cur; simpl.
  - grows_tac.
  - grows_tac.
Qed.

Hint Resolve fallbackAttempts_grows : frames.

Lemma fetchPage_grows a c : preserves grows (fetchPage E a c).
Proof.
  unfold fetchPage. grows_tac.
Qed.

Hint Resolve fetchPage_grows : frames.

Lemma resolveTimestamp_grows fb n : preserves grows (resolveTimestamp E fb n).
Proof.
  unfold resolveTimestamp, getTimestampForBlockGraphQL. grows_tac.
Qed.

Hint Resolve resolveTimestamp_grows : frames.

Lemma scanEdges_grows fb u t a d es : preserves grows (scanEdges E fb u t a d es).
Proof.
  induction es as [| [n |] es IH]; simpl.
  - grows_tac.
  - grows_tac.
  - exact IH.
Qed.

Hint Resolve scanEdges_grows : frames.

Lemma pageLoop_grows fuel u t a d c : preserves grows (pageLoop E fuel u t a d c).
Proof.
  revert c. induction fuel as [| fuel IH]; intros c; simpl.
  - grows_tac.
  - grows_tac.
Qed.

Hint Resolve pageLoop_grows : frames.

Lemma checkOwnershipAfter_grows fuel wh a d t :
  preserves grows (checkOwnershipAfter E fuel wh a d t).
Proof.
  unfold checkOwnershipAfter, findProofTransactionGraphQL. grows_tac.
Qed.

End EngineFrame.

#[local] Hint Resolve dateNowSeconds_grows axiosPost_grows
  checkOwnershipAfter_grows fetchPage_grows scanEdges_grows pageLoop_grows
  resolveTimestamp_grows primaryAttempts_grows fallbackAttempts_grows
  timestampAttempts_grows : frames.

Lemma preserves_weaken {A} (R R' : World -> World -> Prop) (m : M A) :
  (forall w w', R w w' -> R' w w') -> preserves R m -> preserves R' m.
Proof. intros H Hm w. apply H, Hm. Qed.

(** ** What the scheduler writes for one task *)

#[local] Hint Constructors taskWrite : frames.

Section SchedulerFrame.

Variable E : Env.
Variable R : World -> World -> Prop.
Hypothesis R_refl : forall w, R w w.
Hypothesis R_trans : forall a b c, R a b -> R b c -> R a c.
Hypothesis R_grows : forall w w', grows w w' -> R w w'.
Hypothesis R_wallets : forall w ws, R w (with_wallets ws w).

Lemma frame_of_grows {A} (m : M A) : preserves grows m -> preserves R m.
Proof. apply preserves_weaken, R_grows. Qed.

#[local] Hint Resolve frame_of_grows : frames.

Lemma storeCall_frame : preserves R (storeCall E).
Proof.
  apply frame_of_grows. unfold storeCall. grows_tac.
Qed.

#[local] Hint Resolve storeCall_frame : frames.

Lemma getWallet_frame tg : preserves R (getWallet E tg).
Proof.
  unfold getWallet.
  preserve_with R_refl R_trans.
Qed.

Lemma saveWalletLink_frame tg wa b raw : preserves R (saveWalletLink E tg wa b raw).
Proof.
  unfold saveWalletLink.
  preserve_with R_refl R_trans.
  intros w. apply R_wallets.
Qed.

Lemma findProcessableTasks_frame n : preserves R (findProcessableTasks E n).
Proof.
  unfold findProcessableTasks.
  preserve_with R_refl R_trans.
Qed.

Lemma getStuckAndExpiredTasks_frame now : preserves R (getStuckAndExpiredTasks E now).
Proof.
  unfold getStuckAndExpiredTasks.
  preserve_with R_refl R_trans.
Qed.

Section ForTask.

Variable task : ProofTask.
Hypothesis R_status : forall w st d now,
  taskWrite st d -> R w (statusWritten (task_uid task) st d now w).
Hypothesis R_attempts : forall w now,
  R w (attemptsWritten (task_uid task) (orZero (attempts task) + 1) now w).

Lemma updateProofTaskStatus_frame st d :
  taskWrite st d -> preserves R (updateProofTaskStatus E (task_uid task) st d).
Proof.
  intros Hw. unfold updateProofTaskStatus.
  preserve_with R_refl R_trans.
  intros w. apply (R_status w st d _ Hw).
Qed.

Lemma updateProofTaskAttempts_frame :
  preserves R (updateProofTaskAttempts E (task_uid task) (orZero (attempts task) + 1)).
Proof.
  unfold updateProofTaskAttempts.
  preserve_with R_refl R_trans.
  intros w. apply R_attempts.
Qed.

End ForTask.

Section ForAttempt.

Variable task : ProofTask.
Hypothesis R_status : forall w st d now,
  taskWrite st d -> R w (statusWritten (task_uid task) st d now w).

Lemma attemptProof_frame fuel cw n : preserves R (attemptProof E fuel task cw n).
Proof.
  pose proof (updateProofTaskStatus_frame task R_status) as HS.
  pose proof saveWalletLink_frame as HW.
  unfold attemptProof.
  preserve_with R_refl R_trans.
Qed.

End ForAttempt.

Section ForWholeTask.

Variable task : ProofTask.
Hypothesis R_status : forall w st d now,
  taskWrite st d -> R w (statusWritten (task_uid task) st d now w).
Hypothesis R_attempts : forall w now,
  R w (attemptsWritten (task_uid task) (orZero (attempts task) + 1) now w).

Lemma processSingleTask_frame fuel : preserves R (processSingleTask E fuel task).
Proof.
  pose proof (updateProofTaskStatus_frame task R_status) as HS.
  pose proof (updateProofTaskAttempts_frame task R_attempts) as HA.
  pose proof (attemptProof_frame task R_status) as HP.
  unfold processSingleTask.
  preserve_with R_refl R_trans.
Qed.

Lemma processPendingTask_frame fuel now :
  preserves R (processPendingTask E fuel now task).
Proof.
  pose proof (updateProofTaskStatus_frame task R_status) as HS.
  pose proof saveWalletLink_frame as HW.
  pose proof getWallet_frame as HG.
  pose proof processSingleTask_frame as HP.
  unfold processPendingTask.
  preserve_with R_refl R_trans.
Qed.

Lemma expireTask_frame : preserves R (expireTask E task).
Proof.
  pose proof (updateProofTaskStatus_frame task R_status) as HS.
  unfold expireTask.
  preserve_with R_refl R_trans.
Qed.

End ForWholeTask.

End SchedulerFrame.

(* ===================================================================== *)
(** * The locator *)
(* ===================================================================== *)

Create HintDb returns.

Lemma returns_ret A (a : A) : returns (ret a).
Proof. intros w; now exists a, w. Qed.

Lemma returns_bind A B (m : M A) (k : A -> M B) :
  returns m -> (forall a, returns (k a)) -> returns (bind m k).
Proof.
  intros Hm Hk w. destruct (Hm w) as (a & w1 & H1).
  unfold bind. rewrite H1. apply Hk.
Qed.

Lemma returns_modify f : returns (modify f).
Proof. intros w; now exists tt, (f w). Qed.

Lemma returns_tick : returns tick.
Proof. intros w. unfold tick. eauto. Qed.

#[local] Hint Resolve returns_ret returns_modify returns_tick : returns.

Ltac returns_tac :=
  repeat first
    [ solve [ eauto 2 with returns ]
    | apply returns_bind; [| intros ]
    | match goal with
      | |- returns (if ?b then _ else _) => destruct b
      | |- returns (match ?x with _ => _ end) => destruct x
      end ].

Lemma axiosPost_run E req w :
  axiosPost E req w = (Ret (explorer E (ticks w) req), sent req w).
Proof. reflexivity. Qed.

Lemma axiosPost_returns E req : returns (axiosPost E req).
Proof. intros w. rewrite axiosPost_run. eauto. Qed.

#[local] Hint Resolve axiosPost_returns : returns.

Lemma timestampAttempts_returns E left cur bn :
  returns (timestampAttempts E left cur bn).
Proof.
  revert cur. induction left as [| left IH]; intros cur; simpl; returns_tac.
Qed.

#[local] Hint Resolve timestampAttempts_returns : returns.

Lemma resolveTimestamp_returns E fb n : returns (resolveTimestamp E fb n).
Proof. unfold resolveTimestamp, getTimestampForBlockGraphQL. returns_tac. Qed.

Lemma primaryAttempts_returns E left cur a c :
  returns (primaryAttempts E left cur a c).
Proof.
  revert cur. induction left as [| left IH]; intros cur; simpl; returns_tac.
Qed.

Lemma fallbackAttempts_returns E left cur a c :
  returns (fallbackAttempts E left cur a c).
Proof.
  revert cur. induction left as [| left IH]; intros cur; simpl; returns_tac.
Qed.

#[local] Hint Resolve resolveTimestamp_returns primaryAttempts_returns
  fallbackAttempts_returns : returns.

Lemma fetchPage_returns E a c : returns (fetchPage E a c).
Proof. unfold fetchPage. returns_tac. Qed.

Lemma scanEdges_returns E fb u t a d es : returns (scanEdges E fb u t a d es).
Proof.
  induction es as [| [n |] es IH]; simpl; returns_tac.
Qed.

#[local] Hint Resolve fetchPage_returns scanEdges_returns : returns.

(** ** The match predicate *)

Lemma eqOpt_sameAddress (x : option string) (b : string) :
  eqOpt (option_map Js.toLowerCase x) (Js.toLowerCase b) = true <->
  sameAddress x b.
Proof.
  unfold sameAddress. destruct x as [x |]; simpl.
  - rewrite String.eqb_eq. split.
    + intros H. now exists x.
    + intros (y & Hy & H). now inversion Hy; subst.
  - split; [discriminate | intros (y & Hy & _); discriminate].
Qed.

Lemma window_iff (ts : Js.jsnum) (a d : Z) :
  andb (Js.geb ts a) (Js.ltb ts d) = true <->
  exists z, ts = Js.JInt z /\ a <= z < d.
Proof.
  destruct ts as [| z]; simpl.
  - split; [discriminate | intros (z & Hz & _); discriminate].
  - rewrite andb_true_iff, Z.leb_le, Z.ltb_lt. split.
    + intros H. exists z. split; [reflexivity | lia].
    + intros (z' & Hz & H). inversion Hz; subst. lia.
Qed.

(** The test of the code is the four-clause conjunction of the
    specification, no more and no less. *)
Lemma criteria_iff u t a d n ts :
  criteria (Js.toLowerCase u) (Js.toLowerCase t) a d n ts = true <->
  fourClauses u t a d n ts.
Proof.
  unfold criteria, fourClauses.
  rewrite !andb_true_iff, !eqOpt_sameAddress, String.eqb_eq.
  rewrite <- andb_true_iff, window_iff. tauto.
Qed.

Lemma criteria_false u t a d n ts :
  criteria (Js.toLowerCase u) (Js.toLowerCase t) a d n ts = false <->
  ~ fourClauses u t a d n ts.
Proof.
  rewrite <- criteria_iff. destruct (criteria _ _ _ _ _ _); split; congruence.
Qed.

(** ** Examining a page *)

Lemma scanEdges_None E fb u t a d es w w' :
  scanEdges E fb (Js.toLowerCase u) (Js.toLowerCase t) a d es w = (Ret None, w')
  <-> NoneQualifies E fb u t a d es w w'.
Proof.
  revert w. induction es as [| [n |] es IH]; intros w; simpl.
  - split.
    + intros H. inversion H; subst. constructor.
    + intros H. inversion H; subst. reflexivity.
  - unfold bind.
    destruct (resolveTimestamp_returns E fb n w) as (r & w1 & Hr). rewrite Hr.
    destruct r as [ts |].
    + destruct (criteria _ _ _ _ _ _) eqn:Hc.
      * split; [discriminate |].
        intros H. inversion H; subst.
        -- congruence.
        -- match goal with
           | H1 : resolveTimestamp _ _ _ _ = _ |- _ =>
               rewrite Hr in H1; inversion H1; subst
           end.
           apply criteria_iff in Hc. contradiction.
      * rewrite IH. split.
        -- intros H. eapply nq_rejected; eauto. now apply criteria_false.
        -- intros H. inversion H; subst;
             match goal with
             | H1 : resolveTimestamp _ _ _ _ = _ |- _ =>
                 rewrite Hr in H1; inversion H1; subst
             end; assumption.
    + rewrite IH. split.
      * intros H. eapply nq_skipped; eauto.
      * intros H. inversion H; subst;
          match goal with
          | H1 : resolveTimestamp _ _ _ _ = _ |- _ =>
              rewrite Hr in H1; inversion H1; subst
          end; assumption.
  - rewrite IH. split.
    + intros H. now constructor.
    + intros H. now inversion H; subst.
Qed.

Lemma scanEdges_app E fb u t a d pre rest w w1 :
  NoneQualifies E fb u t a d pre w w1 ->
  scanEdges E fb (Js.toLowerCase u) (Js.toLowerCase t) a d (pre ++ rest) w =
  scanEdges E fb (Js.toLowerCase u) (Js.toLowerCase t) a d rest w1.
Proof.
  induction 1 as [w | es w w' _ IH | n es w w1 w' Hr _ IH
                  | n ts es w w1 w' Hr Hn _ IH]; simpl.
  - reflexivity.
  - exact IH.
  - unfold bind. rewrite Hr. exact IH.
  - unfold bind. rewrite Hr.
    apply criteria_false in Hn. rewrite Hn. exact IH.
Qed.

Lemma scanEdges_Some E fb u t a d es w p w' :
  scanEdges E fb (Js.toLowerCase u) (Js.toLowerCase t) a d es w = (Ret (Some p), w')
  <-> exists pre n post ts w1,
        es = pre ++ Some n :: post /\
        NoneQualifies E fb u t a d pre w w1 /\
        resolveTimestamp E fb n w1 = (Ret (Some ts), w') /\
        fourClauses u t a d n ts /\
        p = proofOf n ts.
Proof.
  split.
  - revert w. induction es as [| [n |] es IH]; intros w; simpl.
    + discriminate.
    + unfold bind.
      destruct (resolveTimestamp_returns E fb n w) as (r & w1 & Hr). rewrite Hr.
      destruct r as [ts |].
      * destruct (criteria _ _ _ _ _ _) eqn:Hc.
        -- intros H. inversion H; subst.
           exists [], n, es, ts, w.
           split; [reflexivity |]. split; [constructor |].
           split; [exact Hr |]. split; [now apply criteria_iff | reflexivity].
        -- intros H. destruct (IH _ H) as (pre & m & post & ts' & w2 & He & Hq & Hm & Hf & Hp).
           exists (Some n :: pre), m, post, ts', w2. subst es.
           split; [reflexivity |]. split; [| auto].
           eapply nq_rejected; eauto. now apply criteria_false.
      * intros H. destruct (IH _ H) as (pre & m & post & ts' & w2 & He & Hq & Hm & Hf & Hp).
        exists (Some n :: pre), m, post, ts', w2. subst es.
        split; [reflexivity |]. split; [| auto].
        eapply nq_skipped; eauto.
    + intros H. destruct (IH _ H) as (pre & m & post & ts' & w2 & He & Hq & Hm & Hf & Hp).
      exists (None :: pre), m, post, ts', w2. subst es.
      split; [reflexivity |]. split; [| auto].
      now constructor.
  - intros (pre & n & post & ts & w1 & He & Hq & Hr & Hf & Hp). subst es p.
    rewrite (scanEdges_app E fb u t a d pre _ w w1 Hq). simpl.
    unfold bind. rewrite Hr.
    apply criteria_iff in Hf. now rewrite Hf.
Qed.

(** ** Fetching a page *)

Lemma ticks_sent req w : ticks (sent req w) = S (ticks w).
Proof. reflexivity. Qed.

Lemma posted_sent req w : posted (sent req w) = req :: posted w.
Proof. reflexivity. Qed.

Lemma ticks_sentN req n w : ticks (sentN req n w) = (n + ticks w)%nat.
Proof.
  revert w. induction n as [| n IH]; intros w; simpl; auto.
  rewrite IH, ticks_sent. lia.
Qed.

Lemma posted_sentN req n w : posted (sentN req n w) = repeat req n ++ posted w.
Proof.
  revert w. induction n as [| n IH]; intros w; simpl; auto.
  rewrite IH, posted_sent.
  change (req :: posted w) with ([req] ++ posted w).
  rewrite app_assoc, <- (repeat_cons n req). reflexivity.
Qed.

Lemma sentN_S req n w : sentN req (S n) w = sent req (sentN req n w).
Proof.
  revert w. induction n as [| n IH]; intros w; simpl; auto.
  now rewrite <- IH.
Qed.

Lemma primaryAttempts_step E left cur a c w :
  primaryAttempts E (S left) cur a c w =
  match primaryVerdict (explorer E (ticks w) (ReqPrimary a c)) with
  | Accept body => (Ret (Some body, false, S cur), sent (ReqPrimary a c) w)
  | Switch => (Ret (None, true, S cur), sent (ReqPrimary a c) w)
  | Again => primaryAttempts E left (S cur) a c (sent (ReqPrimary a c) w)
  end.
Proof.
  simpl. unfold bind at 1. rewrite axiosPost_run. unfold primaryVerdict.
  destruct (explorer E (ticks w) (ReqPrimary a c)) as [body | st].
  - destruct (hasErrors body).
    + now destruct (isInternalError body).
    + now destruct (edgesOf body).
  - now destruct (isStatus500 st).
Qed.

Lemma fallbackAttempts_step E left cur a c w :
  fallbackAttempts E (S left) cur a c w =
  match fallbackVerdict (explorer E (ticks w) (ReqFallback a c)) with
  | Accept body => (Ret (Some body, S cur), sent (ReqFallback a c) w)
  | _ => fallbackAttempts E left (S cur) a c (sent (ReqFallback a c) w)
  end.
Proof.
  simpl. unfold bind at 1. rewrite axiosPost_run. unfold fallbackVerdict.
  destruct (explorer E (ticks w) (ReqFallback a c)) as [body | st]; auto.
  destruct (hasErrors body); auto.
  now destruct (edgesOf body).
Qed.

Lemma primaryVerdict_Accept r body :
  primaryVerdict r = Accept body -> r = HttpOk body /\ edgesOf body <> None.
Proof.
  unfold primaryVerdict. destruct r as [b | st].
  - destruct (hasErrors b); [destruct (isInternalError b); discriminate |].
    destruct (edgesOf b) eqn:He; [| discriminate].
    intros H; inversion H; subst. split; congruence.
  - destruct (isStatus500 st); discriminate.
Qed.

Lemma fallbackVerdict_Accept r body :
  fallbackVerdict r = Accept body -> r = HttpOk body /\ edgesOf body <> None.
Proof.
  unfold fallbackVerdict. destruct r as [b | st]; [| discriminate].
  destruct (hasErrors b); [discriminate |].
  destruct (edgesOf b) eqn:He; [| discriminate].
  intros H; inversion H; subst. split; congruence.
Qed.

Lemma fallbackVerdict_not_Switch r : fallbackVerdict r <> Switch.
Proof.
  unfold fallbackVerdict. destruct r as [b | st]; [| discriminate].
  destruct (hasErrors b); [discriminate |].
  destruct (edgesOf b); discriminate.
Qed.

(** Where the body of a fetched page comes from. *)
Lemma primaryAttempts_origin E left cur a c w body fb n w1 :
  primaryAttempts E left cur a c w = (Ret (Some body, fb, n), w1) ->
  fb = false /\
  exists k, (ticks w <= k < ticks w1)%nat /\
            explorer E k (ReqPrimary a c) = HttpOk body.
Proof.
  revert cur w. induction left as [| left IH]; intros cur w.
  - simpl. discriminate.
  - rewrite primaryAttempts_step.
    destruct (primaryVerdict _) as [b | |] eqn:Hv.
    + intros H. inversion H; subst.
      apply primaryVerdict_Accept in Hv. destruct Hv as [Hv _].
      split; auto. exists (ticks w). rewrite ticks_sent. split; [lia | exact Hv].
    + discriminate.
    + intros H. destruct (IH _ _ H) as (Hfb & k & Hk & Hx).
      split; auto. exists k. rewrite ticks_sent in Hk. split; [lia | exact Hx].
Qed.

Lemma fallbackAttempts_origin E left cur a c w body n w1 :
  fallbackAttempts E left cur a c w = (Ret (Some body, n), w1) ->
  exists k, (ticks w <= k < ticks w1)%nat /\
            explorer E k (ReqFallback a c) = HttpOk body.
Proof.
  revert cur w. induction left as [| left IH]; intros cur w.
  - simpl. discriminate.
  - rewrite fallbackAttempts_step.
    destruct (fallbackVerdict _) as [b | |] eqn:Hv.
    + intros H. inversion H; subst.
      apply fallbackVerdict_Accept in Hv. destruct Hv as [Hv _].
      exists (ticks w). rewrite ticks_sent. split; [lia | exact Hv].
    + now apply fallbackVerdict_not_Switch in Hv.
    + intros H. destruct (IH _ _ H) as (k & Hk & Hx).
      exists k. rewrite ticks_sent in Hk. split; [lia | exact Hx].
Qed.

Lemma fetchPage_origin E a c w body fb w1 :
  fetchPage E a c w = (Ret (Page (Some body) fb), w1) ->
  exists k, (ticks w <= k < ticks w1)%nat /\
            explorer E k (if fb then ReqFallback a c else ReqPrimary a c)
            = HttpOk body.
Proof.
  unfold fetchPage, bind.
  destruct (primaryAttempts E MAX_API_CALL_ATTEMPTS 0 a c w)
    as [[[[rd ufb] n] | msg |] wp] eqn:Hp; try discriminate.
  destruct (andb _ _); [discriminate |].
  destruct ufb.
  - destruct (fallbackAttempts E MAX_API_CALL_ATTEMPTS 0 a c wp)
      as [[[rd' m] | msg |] wf] eqn:Hf; try discriminate.
    destruct (andb _ _); [discriminate |].
    intros H. inversion H; subst.
    destruct (fallbackAttempts_origin _ _ _ _ _ _ _ _ _ Hf) as (k & Hk & Hx).
    pose proof (primaryAttempts_grows E MAX_API_CALL_ATTEMPTS 0 a c w) as Hg.
    rewrite Hp in Hg. destruct Hg as (_ & _ & _ & _ & _ & Ht & _). simpl in Ht.
    exists k. split; [lia | exact Hx].
  - intros H. inversion H; subst.
    destruct (primaryAttempts_origin _ _ _ _ _ _ _ _ _ _ Hp) as (_ & k & Hk & Hx).
    exists k. split; [lia | exact Hx].
Qed.

(** ** The search *)

(** A report ends the search at once: the loop is left without a further
    request, whatever fuel remains. *)
Lemma pageLoop_found E fuel u t a d c w body fb w1 es p w2 :
  fetchPage E u c w = (Ret (Page (Some body) fb), w1) ->
  edgesOf body = Some es ->
  scanEdges E fb u t a d es w1 = (Ret (Some p), w2) ->
  pageLoop E (S fuel) u t a d c w = (Ret (Some p), w2).
Proof.
  intros Hf He Hs. simpl. unfold bind. now rewrite Hf, He, Hs.
Qed.

(** What the search returns was on a page sent by the explorer, and its
    block timestamp, as resolved during the search, satisfies the four
    clauses with it. *)
Lemma pageLoop_sound E fuel u t a d c w p w' :
  pageLoop E fuel (Js.toLowerCase u) (Js.toLowerCase t) a d c w = (Ret (Some p), w') ->
  exists k req body es n ts fb wa,
    explorer E k req = HttpOk body /\ edgesOf body = Some es /\
    In (Some n) es /\
    resolveTimestamp E fb n wa = (Ret (Some ts), w') /\
    fourClauses u t a d n ts /\ p = proofOf n ts.
Proof.
  revert c w. induction fuel as [| fuel IH]; intros c w; simpl.
  - discriminate.
  - unfold bind.
    destruct (fetchPage E (Js.toLowerCase u) c w) as [[[| [body |] fb] | msg |] w1] eqn:Hf;
      try discriminate.
    destruct (edgesOf body) as [es |] eqn:He; [| discriminate].
    destruct (scanEdges_returns E fb (Js.toLowerCase u) (Js.toLowerCase t) a d es w1)
      as (r & w2 & Hs).
    rewrite Hs. destruct r as [q |].
    + intros H. inversion H; subst.
      apply scanEdges_Some in Hs.
      destruct Hs as (pre & n & post & ts & w3 & Hes & _ & Hr & H4 & Hp).
      destruct (fetchPage_origin _ _ _ _ _ _ _ Hf) as (k & _ & Hx).
      exists k, (if fb then ReqFallback (Js.toLowerCase u) c
                 else ReqPrimary (Js.toLowerCase u) c), body, es, n, ts, fb, w3.
      repeat (split; [auto |]); auto.
      subst es. apply in_or_app. right. now left.
    + destruct (Js.truthyOpt _); [apply IH | discriminate].
Qed.

(** C1.  A transaction is reported as the confirming one only if the four
    clauses hold of it -- sender and recipient equal to the user and the
    target wallet up to letter case, status OK, and a resolved block
    timestamp t with afterTimestamp <= t < deadline -- and the first
    transaction of a page, in page order, of which they hold ends the
    search with its hash returned.  In detail: (1) the scan of a page
    reports a transaction exactly when the edges before it were examined
    without one qualifying and this one resolves to a timestamp that
    satisfies the four clauses; (2) the scan reports nothing exactly when
    no edge qualifies; (3) a report ends the search on the spot, with no
    further request; (4) when the ownership check confirms, the hash it
    returns is that of a transaction which the explorer sent on a page and
    which, with the block timestamp resolved for it at the end of the
    search, satisfies the four clauses. *)
Theorem locator_reports_first_match E (t : string) (a d : Z) :
  (forall u fb es w p w',
     scanEdges E fb (Js.toLowerCase u) (Js.toLowerCase t) a d es w
       = (Ret (Some p), w')
     <-> exists pre n post ts w1,
           es = pre ++ Some n :: post /\
           NoneQualifies E fb u t a d pre w w1 /\
           resolveTimestamp E fb n w1 = (Ret (Some ts), w') /\
           fourClauses u t a d n ts /\
           p = proofOf n ts) /\
  (forall u fb es w w',
     scanEdges E fb (Js.toLowerCase u) (Js.toLowerCase t) a d es w
       = (Ret None, w')
     <-> NoneQualifies E fb u t a d es w w') /\
  (forall u fuel c w body fb w1 es p w2,
     fetchPage E (Js.toLowerCase u) c w = (Ret (Page (Some body) fb), w1) ->
     edgesOf body = Some es ->
     scanEdges E fb (Js.toLowerCase u) (Js.toLowerCase t) a d es w1
       = (Ret (Some p), w2) ->
     pageLoop E (S fuel) (Js.toLowerCase u) (Js.toLowerCase t) a d c w
       = (Ret (Some p), w2)) /\
  (forall fuel walletHash w r w',
     checkOwnershipAfter E fuel walletHash a d t w = (Ret r, w') ->
     isProofConfirmed r = true ->
     exists k req body es n ts fb wa,
       explorer E k req = HttpOk body /\ edgesOf body = Some es /\
       In (Some n) es /\
       resolveTimestamp E fb n wa = (Ret (Some ts), w') /\
       fourClauses (Js.toLowerCase (Js.trim walletHash)) t a d n ts /\
       txHash r = Some (hash n)).
Proof.
  split; [intros; apply scanEdges_Some |].
  split; [intros; apply scanEdges_None |].
  split; [intros; eapply pageLoop_found; eauto |].
  intros fuel walletHash w r w'. unfold checkOwnershipAfter.
  destruct (negb (Js.truthy t));
    [intros H; inversion H; subst; discriminate |].
  destruct (negb (isValidEvmAddress _));
    [intros H; inversion H; subst; discriminate |].
  destruct (negb (isValidEvmAddress t));
    [intros H; inversion H; subst; discriminate |].
  destruct (Z.leb d a);
    [intros H; inversion H; subst; discriminate |].
  unfold tryCatch, bind, findProofTransactionGraphQL.
  destruct (pageLoop E fuel _ _ a d None w) as [[[p |] | msg |] w1] eqn:Hp;
    intros H; inversion H; subst; try discriminate.
  intros _.
  destruct (pageLoop_sound _ _ _ _ _ _ _ _ _ _ Hp)
    as (k & req & body & es & n & ts & fb & wa & Hx & He & Hi & Hr & H4 & Hq).
  exists k, req, body, es, n, ts, fb, wa. subst p.
  repeat (split; [auto |]); auto.
Qed.

(** C4.  When the user wallet (trimmed and lower-cased, as the check takes
    it) or the target wallet is not a 0x-prefixed 40-hex-digit address, or
    when afterTimestamp >= deadline, the ownership check returns a
    not-confirmed result with a non-empty reason, in the world it started
    in -- hence without a request to the explorer -- and it returns rather
    than throws, whatever fuel it is given. *)
Theorem invalid_input_not_confirmed E fuel walletHash
        (afterTimestamp deadline : Z) targetWallet w :
  isValidEvmAddress (Js.toLowerCase (Js.trim walletHash)) = false \/
  isValidEvmAddress targetWallet = false \/
  deadline <= afterTimestamp ->
  exists reason,
    reason <> "" /\
    checkOwnershipAfter E fuel walletHash afterTimestamp deadline targetWallet w
    = (Ret {| isProofConfirmed := false; txHash := None;
              pr_error := Some reason |}, w).
Proof.
  intros H. unfold checkOwnershipAfter.
  destruct (Js.truthy targetWallet); simpl;
    [| eexists; split; [| reflexivity]; discriminate].
  destruct (isValidEvmAddress (Js.toLowerCase (Js.trim walletHash))) eqn:Hu; simpl;
    [| eexists; split; [| reflexivity]; discriminate].
  destruct (isValidEvmAddress targetWallet) eqn:Ht; simpl;
    [| eexists; split; [| reflexivity]; discriminate].
  destruct (Z.leb deadline afterTimestamp) eqn:Hw;
    [eexists; split; [| reflexivity]; discriminate |].
  apply Z.leb_gt in Hw. destruct H as [H | [H | H]]; try discriminate. lia.
Qed.

(** ** Primary and fallback queries *)

Lemma primaryAttempts_again E n left cur a c w :
  (forall i, (i < n)%nat ->
     primaryVerdict (explorer E (ticks w + i) (ReqPrimary a c)) = Again) ->
  primaryAttempts E (n + left) cur a c w =
  primaryAttempts E left (n + cur) a c (sentN (ReqPrimary a c) n w).
Proof.
  revert cur w. induction n as [| n IH]; intros cur w H.
  - reflexivity.
  - change (S n + left)%nat with (S (n + left)).
    change (sentN (ReqPrimary a c) (S n) w)
      with (sentN (ReqPrimary a c) n (sent (ReqPrimary a c) w)).
    rewrite primaryAttempts_step.
    pose proof (H O ltac:(lia)) as H0. rewrite Nat.add_0_r in H0. rewrite H0.
    rewrite IH.
    + now rewrite Nat.add_succ_r.
    + intros i Hi. rewrite ticks_sent.
      replace (S (ticks w) + i)%nat with (ticks w + S i)%nat by lia.
      apply H. lia.
Qed.

Lemma fallbackAttempts_again E n left cur a c w :
  (forall i, (i < n)%nat ->
     fallbackVerdict (explorer E (ticks w + i) (ReqFallback a c)) = Again) ->
  fallbackAttempts E (n + left) cur a c w =
  fallbackAttempts E left (n + cur) a c (sentN (ReqFallback a c) n w).
Proof.
  revert cur w. induction n as [| n IH]; intros cur w H.
  - reflexivity.
  - change (S n + left)%nat with (S (n + left)).
    change (sentN (ReqFallback a c) (S n) w)
      with (sentN (ReqFallback a c) n (sent (ReqFallback a c) w)).
    rewrite fallbackAttempts_step.
    pose proof (H O ltac:(lia)) as H0. rewrite Nat.add_0_r in H0. rewrite H0.
    rewrite IH.
    + now rewrite Nat.add_succ_r.
    + intros i Hi. rewrite ticks_sent.
      replace (S (ticks w) + i)%nat with (ticks w + S i)%nat by lia.
      apply H. lia.
Qed.

(** What is said of a failing primary attempt, in terms of the verdict. *)
Lemma status500_switches : primaryVerdict (HttpError (Some 500)) = Switch.
Proof. reflexivity. Qed.

Lemma internalError_switches r :
  isInternalErrorReply r -> primaryVerdict r = Switch.
Proof.
  intros (body & Hr & He & Hi). subst r. simpl. now rewrite He, Hi.
Qed.

Lemma otherTransportError_retries st :
  st <> Some 500 -> primaryVerdict (HttpError st) = Again.
Proof.
  intros H. simpl. destruct st as [z |]; simpl; auto.
  destruct (Z.eqb z 500) eqn:Hz; auto.
  apply Z.eqb_eq in Hz. congruence.
Qed.

(** All primary attempts retried: the page is given up, the fallback query
    never sent. *)
Lemma fetchPage_primary_exhausted E a c w :
  (forall i, (i < MAX_API_CALL_ATTEMPTS)%nat ->
     primaryVerdict (explorer E (ticks w + i) (ReqPrimary a c)) = Again) ->
  fetchPage E a c w = (Ret GiveUp, sentN (ReqPrimary a c) MAX_API_CALL_ATTEMPTS w).
Proof.
  intros H. unfold fetchPage, bind.
  replace MAX_API_CALL_ATTEMPTS with (MAX_API_CALL_ATTEMPTS + 0)%nat at 1
    by apply Nat.add_0_r.
  rewrite (primaryAttempts_again E _ 0 0 a c w H). reflexivity.
Qed.

(** A primary attempt accepted. *)
Lemma fetchPage_primary_accepted E a c w n body :
  (n < MAX_API_CALL_ATTEMPTS)%nat ->
  (forall i, (i < n)%nat ->
     primaryVerdict (explorer E (ticks w + i) (ReqPrimary a c)) = Again) ->
  primaryVerdict (explorer E (ticks w + n) (ReqPrimary a c)) = Accept body ->
  fetchPage E a c w = (Ret (Page (Some body) false), sentN (ReqPrimary a c) (S n) w).
Proof.
  intros Hn H Hv. unfold fetchPage, bind.
  replace MAX_API_CALL_ATTEMPTS
    with (n + S (MAX_API_CALL_ATTEMPTS - S n))%nat at 1 by lia.
  rewrite (primaryAttempts_again E _ _ 0 a c w H), primaryAttempts_step.
  rewrite ticks_sentN, Nat.add_comm, Hv, <- sentN_S.
  rewrite andb_false_r. reflexivity.
Qed.

(** A primary attempt that switches: the fetch continues with the fallback
    query for the same address and cursor. *)
Lemma fetchPage_switch E a c w n :
  (n < MAX_API_CALL_ATTEMPTS)%nat ->
  (forall i, (i < n)%nat ->
     primaryVerdict (explorer E (ticks w + i) (ReqPrimary a c)) = Again) ->
  primaryVerdict (explorer E (ticks w + n) (ReqPrimary a c)) = Switch ->
  fetchPage E a c w = fallbackPhase E a c (sentN (ReqPrimary a c) (S n) w).
Proof.
  intros Hn H Hv. unfold fetchPage, fallbackPhase, bind.
  replace MAX_API_CALL_ATTEMPTS
    with (n + S (MAX_API_CALL_ATTEMPTS - S n))%nat at 1 by lia.
  rewrite (primaryAttempts_again E _ _ 0 a c w H), primaryAttempts_step.
  rewrite ticks_sentN, Nat.add_comm, Hv, <- sentN_S.
  rewrite andb_false_r. reflexivity.
Qed.

Lemma fallbackPhase_exhausted E a c w :
  (forall j, (j < MAX_API_CALL_ATTEMPTS)%nat ->
     fallbackVerdict (explorer E (ticks w + j) (ReqFallback a c)) = Again) ->
  fallbackPhase E a c w
  = (Ret GiveUp, sentN (ReqFallback a c) MAX_API_CALL_ATTEMPTS w).
Proof.
  intros H. unfold fallbackPhase, bind.
  replace MAX_API_CALL_ATTEMPTS with (MAX_API_CALL_ATTEMPTS + 0)%nat at 1
    by apply Nat.add_0_r.
  rewrite (fallbackAttempts_again E _ 0 0 a c w H). reflexivity.
Qed.

Lemma fallbackPhase_accepted E a c w m body :
  (m < MAX_API_CALL_ATTEMPTS)%nat ->
  (forall j, (j < m)%nat ->
     fallbackVerdict (explorer E (ticks w + j) (ReqFallback a c)) = Again) ->
  fallbackVerdict (explorer E (ticks w + m) (ReqFallback a c)) = Accept body ->
  fallbackPhase E a c w
  = (Ret (Page (Some body) true), sentN (ReqFallback a c) (S m) w).
Proof.
  intros Hm H Hv. unfold fallbackPhase, bind.
  replace MAX_API_CALL_ATTEMPTS
    with (m + S (MAX_API_CALL_ATTEMPTS - S m))%nat at 1 by lia.
  rewrite (fallbackAttempts_again E _ _ 0 a c w H), fallbackAttempts_step.
  rewrite ticks_sentN, Nat.add_comm, Hv, <- sentN_S.
  rewrite andb_false_r. reflexivity.
Qed.

(** The fallback phase begins by sending the fallback query. *)
Lemma fallbackPhase_posts E a c w :
  exists l, posted (snd (fallbackPhase E a c w)) = l ++ ReqFallback a c :: posted w.
Proof.
  unfold fallbackPhase, bind.
  change MAX_API_CALL_ATTEMPTS with (S 4).
  rewrite fallbackAttempts_step.
  set (w1 := sent (ReqFallback a c) w).
  assert (Hw1 : posted w1 = ReqFallback a c :: posted w) by reflexivity.
  destruct (fallbackVerdict _).
  - exists []. simpl. exact Hw1.
  - pose proof (fallbackAttempts_grows E 4 1 a c w1) as Hg.
    destruct (fallbackAttempts E 4 1 a c w1) as [[[rd m] | msg |] w2];
      destruct Hg as (_ & _ & _ & _ & _ & _ & l & Hl); simpl in Hl;
      exists l; rewrite <- Hw1;
      try destruct (andb _ _); simpl; exact Hl.
  - pose proof (fallbackAttempts_grows E 4 1 a c w1) as Hg.
    destruct (fallbackAttempts E 4 1 a c w1) as [[[rd m] | msg |] w2];
      destruct Hg as (_ & _ & _ & _ & _ & _ & l & Hl); simpl in Hl;
      exists l; rewrite <- Hw1;
      try destruct (andb _ _); simpl; exact Hl.
Qed.

(** Among the first [N] replies either all are retried or there is a first
    one that is not. *)
Lemma first_decisive (f : nat -> Verdict) (N : nat) :
  (forall j, (j < N)%nat -> f j = Again) \/
  exists m, (m < N)%nat /\ (forall j, (j < m)%nat -> f j = Again) /\ f m <> Again.
Proof.
  induction N as [| N [IH | (m & Hm & Hb & Hd)]].
  - left. intros j Hj. lia.
  - destruct (f N) eqn:HN.
    + right. exists N. repeat split; auto; try lia; congruence.
    + right. exists N. repeat split; auto; try lia; congruence.
    + left. intros j Hj. destruct (Nat.eq_dec j N); [now subst | apply IH; lia].
  - right. exists m. repeat split; auto; lia.
Qed.

Lemma fallbackPhase_GiveUp_iff E a c w :
  fst (fallbackPhase E a c w) = Ret GiveUp <->
  forall j, (j < MAX_API_CALL_ATTEMPTS)%nat ->
    fallbackVerdict (explorer E (ticks w + j) (ReqFallback a c)) = Again.
Proof.
  split.
  - intros HG.
    destruct (first_decisive
                (fun j => fallbackVerdict (explorer E (ticks w + j) (ReqFallback a c)))
                MAX_API_CALL_ATTEMPTS) as [H | (m & Hm & Hb & Hd)]; auto.
    exfalso. simpl in Hd.
    destruct (fallbackVerdict (explorer E (ticks w + m) (ReqFallback a c)))
      as [body | |] eqn:Hv.
    + rewrite (fallbackPhase_accepted E a c w m body Hm Hb Hv) in HG. discriminate.
    + now apply fallbackVerdict_not_Switch in Hv.
    + congruence.
  - intros H. now rewrite (fallbackPhase_exhausted E a c w H).
Qed.

(** C5, as amended.  A primary attempt that fails with HTTP status 500 or
    with a GraphQL error mentioning an internal server error -- the
    attempts before it having been retried -- makes the client send the
    fallback query for the same address and cursor, and the page fetch then
    fails exactly when all fallback attempts are used up.  A transport
    error with another status or with none is retried on the primary
    query, and when all primary attempts are used up that way the page
    fetch fails with nothing but primary queries sent. *)
Theorem fallback_on_server_error E a c w :
  (forall n,
     (n < MAX_API_CALL_ATTEMPTS)%nat ->
     (forall i, (i < n)%nat ->
        primaryVerdict (explorer E (ticks w + i) (ReqPrimary a c)) = Again) ->
     explorer E (ticks w + n) (ReqPrimary a c) = HttpError (Some 500) \/
     isInternalErrorReply (explorer E (ticks w + n) (ReqPrimary a c)) ->
     let w1 := sentN (ReqPrimary a c) (S n) w in
     fetchPage E a c w = fallbackPhase E a c w1 /\
     (exists l, posted (snd (fetchPage E a c w))
                = l ++ ReqFallback a c :: posted w1) /\
     (fst (fetchPage E a c w) = Ret GiveUp <->
      forall j, (j < MAX_API_CALL_ATTEMPTS)%nat ->
        fallbackVerdict (explorer E (ticks w1 + j) (ReqFallback a c)) = Again)) /\
  (forall st, st <> Some 500 -> primaryVerdict (HttpError st) = Again) /\
  ((forall i, (i < MAX_API_CALL_ATTEMPTS)%nat ->
      primaryVerdict (explorer E (ticks w + i) (ReqPrimary a c)) = Again) ->
   fst (fetchPage E a c w) = Ret GiveUp /\
   posted (snd (fetchPage E a c w))
   = repeat (ReqPrimary a c) MAX_API_CALL_ATTEMPTS ++ posted w).
Proof.
  split; [| split].
  - intros n Hn Hb Hs w1.
    assert (Hv : primaryVerdict (explorer E (ticks w + n) (ReqPrimary a c)) = Switch).
    { destruct Hs as [Hs | Hs].
      - rewrite Hs. apply status500_switches.
      - now apply internalError_switches. }
    pose proof (fetchPage_switch E a c w n Hn Hb Hv) as Hf. fold w1 in Hf.
    rewrite Hf. split; [reflexivity |]. split.
    + apply fallbackPhase_posts.
    + apply fallbackPhase_GiveUp_iff.
  - apply otherTransportError_retries.
  - intros H. rewrite (fetchPage_primary_exhausted E a c w H).
    split; [reflexivity | apply posted_sentN].
Qed.

(** C5 as stated fails: with an explorer that cannot be reached, the first
    primary attempt fails with a transport error, yet the page fetch fails
    after five primary queries, the fallback query never sent. *)
Lemma transport_error_without_fallback :
  let E := Sample.env Sample.down Sample.at1500 Sample.quiet in
  let w := Sample.world [] [] in
  isTransportError (explorer E (ticks w) (ReqPrimary Sample.user None)) /\
  fetchPage E Sample.user None w
  = (Ret GiveUp, sentN (ReqPrimary Sample.user None) 5 w) /\
  ~ In (ReqFallback Sample.user None)
       (posted (snd (fetchPage E Sample.user None w))).
Proof.
  split; [now exists None |]. split; [reflexivity |].
  simpl. intros H.
  repeat (destruct H as [H | H]; [discriminate |]). exact H.
Qed.

(** ** Pagination *)

(** On the primary path timestamps come with the page: examining it sends
    nothing. *)
Lemma scanEdges_primary_pure E u t a d es w :
  exists r, scanEdges E false u t a d es w = (Ret r, w).
Proof.
  induction es as [| [n |] es (r & IH)]; simpl.
  - now exists None.
  - unfold bind, resolveTimestamp.
    destruct (block n) as [b |]; [| now exists r].
    destruct (Js.truthy (timestamp b)); [| now exists r].
    unfold ret. destruct (criteria _ _ _ _ _ _); [| now exists r].
    eexists; reflexivity.
  - now exists r.
Qed.

(** The early-exit test, spelled out: the page ends on a transaction whose
    block timestamp is there, parses, and lies before [a]. *)
Lemma lastIsOlder_last E a pre n b z :
  block n = Some b -> timestamp b <> "" ->
  dateSeconds E (timestamp b) = Js.JInt z -> z < a ->
  lastIsOlder E a (pre ++ [Some n]) = true.
Proof.
  intros Hb Hne Hd Hz. unfold lastIsOlder.
  rewrite last_last, Hb, Hd. simpl.
  apply Z.ltb_lt in Hz. rewrite Hz.
  destruct (timestamp b); [congruence | reflexivity].
Qed.

Lemma lastIsOlder_stops E a es pi :
  lastIsOlder E a es = true -> nextCursorOf E false a es pi = None.
Proof.
  intros H. unfold nextCursorOf.
  destruct pi as [p |]; auto.
  destruct (andb (hasNextPage p) _); auto.
  destruct es as [| e es]; [discriminate |].
  simpl. now rewrite H.
Qed.

(** What runs after a request has been sent sees it at the head of the
    requests. *)
Lemma posted_after_sent {A} (m : M A) req w :
  preserves grows m ->
  exists l, posted (snd (m (sent req w))) = l ++ req :: posted w.
Proof.
  intros Hm. destruct (Hm (sent req w)) as (_ & _ & _ & _ & _ & _ & l & Hl).
  now exists l.
Qed.

(** A new iteration of the loop begins by sending the primary query for
    its cursor. *)
Lemma pageLoop_posts E fuel u t a d c w :
  exists l, posted (snd (pageLoop E (S fuel) u t a d c w))
            = l ++ ReqPrimary u c :: posted w.
Proof.
  simpl pageLoop. unfold fetchPage.
  change MAX_API_CALL_ATTEMPTS with (S 4) at 1.
  match goal with
  | |- exists l, posted (snd (bind (bind _ ?k1) ?k2 w)) = _ =>
      set (settle := k1); set (examine := k2)
  end.
  assert (Hsettle : forall x, preserves grows (settle x)).
  { intros [[rd fb] n]. unfold settle. grows_tac. }
  assert (Hexamine : forall x, preserves grows (examine x)).
  { intros x. unfold examine. grows_tac. }
  assert (Hrest : forall m : M (option GraphQLResponseData * bool * nat),
             preserves grows m -> preserves grows (bind (bind m settle) examine)).
  { intros m Hm. repeat apply (preserves_bind _ grows_trans); auto. }
  unfold bind at 1 2. rewrite primaryAttempts_step.
  destruct (primaryVerdict _) as [body | |].
  - apply (posted_after_sent (bind (bind (ret (Some body, false, 1%nat)) settle) examine)).
    apply Hrest. grows_tac.
  - apply (posted_after_sent (bind (bind (ret (None, true, 1%nat)) settle) examine)).
    apply Hrest. grows_tac.
  - apply (posted_after_sent (bind (bind (primaryAttempts E 4 1 u c) settle) examine)).
    apply Hrest. grows_tac.
Qed.

(** What the early exit looks at.  On a page fetched with the primary
    query, when the last edge of the page holds a node whose block
    timestamp lies strictly below afterTimestamp, the search ends in the
    world reached by fetching that page: no further page is requested.  On
    a page fetched with the fallback query the test is not made: when no
    transaction of the page qualifies and the explorer reports a next page
    with a cursor, the loop goes on to that cursor, and its first act is to
    request that page. *)
Theorem early_exit_on_last_edge E u t a d c w body w1 es :
  edgesOf body = Some es ->
  (fetchPage E u c w = (Ret (Page (Some body) false), w1) ->
   forall pre n b z,
     es = pre ++ [Some n] ->
     block n = Some b -> timestamp b <> "" ->
     dateSeconds E (timestamp b) = Js.JInt z -> z < a ->
     forall fuel, exists r, pageLoop E (S fuel) u t a d c w = (Ret r, w1)) /\
  (fetchPage E u c w = (Ret (Page (Some body) true), w1) ->
   forall w2 p next fuel,
     scanEdges E true u t a d es w1 = (Ret None, w2) ->
     pageInfoOf body = Some p -> hasNextPage p = true ->
     endCursor p = Some next -> next <> "" ->
     pageLoop E (S (S fuel)) u t a d c w
     = pageLoop E (S fuel) u t a d (Some next) w2 /\
     exists l, posted (snd (pageLoop E (S (S fuel)) u t a d c w))
               = l ++ ReqPrimary u (Some next) :: posted w2).
Proof.
  intros He. split.
  - intros Hf pre n b z Hes Hb Hne Hd Hz fuel.
    assert (Hl : lastIsOlder E a es = true).
    { subst es. eapply lastIsOlder_last; eauto. }
    simpl. unfold bind. rewrite Hf, He.
    destruct (scanEdges_primary_pure E u t a d es w1) as (r & Hs). rewrite Hs.
    destruct r as [p |]; [now eexists |].
    rewrite (lastIsOlder_stops E a es _ Hl). now eexists.
  - intros Hf w2 p next fuel Hs Hp Hn Hc Hne.
    assert (Hstep : pageLoop E (S (S fuel)) u t a d c w
                    = pageLoop E (S fuel) u t a d (Some next) w2).
    { cbn [pageLoop]. unfold bind at 1. rewrite Hf, He.
      unfold bind at 1. rewrite Hs.
      unfold nextCursorOf. rewrite Hp, Hn, Hc.
      destruct next as [| ch next]; [congruence |]. reflexivity. }
    split; [exact Hstep |].
    rewrite Hstep. apply pageLoop_posts.
Qed.

(* ===================================================================== *)
(** * The scheduler *)
(* ===================================================================== *)

(** ** Running binds and handlers *)

Lemma snd_bind {A B} (m : M A) (k : A -> M B) w :
  snd (bind m k w) =
  match m w with
  | (Ret a, w1) => snd (k a w1)
  | (_, w1) => w1
  end.
Proof. unfold bind. now destruct (m w) as [[a | msg |] w1]. Qed.

Lemma fst_bind_Ret {A B} (m : M A) (k : A -> M B) w a w1 :
  m w = (Ret a, w1) -> bind m k w = k a w1.
Proof. intros H. unfold bind. now rewrite H. Qed.

(** ** Rows that correspond *)

Lemma Forall2_refl {A} (R : A -> A -> Prop) (l : list A) :
  (forall a, R a a) -> Forall2 R l l.
Proof. intros H. induction l; constructor; auto. Qed.

Lemma Forall2_compose {A} (R1 R2 R3 : A -> A -> Prop) (l1 l2 l3 : list A) :
  (forall a b c, In a l1 -> R1 a b -> R2 b c -> R3 a c) ->
  Forall2 R1 l1 l2 -> Forall2 R2 l2 l3 -> Forall2 R3 l1 l3.
Proof.
  intros H H12. revert l3 H. induction H12 as [| a b k1 k2 Hab _ IH]; intros l3 H H23.
  - inversion H23; subst. constructor.
  - inversion H23; subst. constructor.
    + eapply H; eauto. now left.
    + apply IH; auto. intros a0 b0 c0 Ha0. apply H. now right.
Qed.

Lemma Forall2_weaken {A} (R Q : A -> A -> Prop) (l l' : list A) :
  (forall a b, In a l -> R a b -> Q a b) -> Forall2 R l l' -> Forall2 Q l l'.
Proof.
  intros H H2. induction H2 as [| a b k k' Hab _ IH]; constructor.
  - apply H; auto. now left.
  - apply IH. intros x y Hx. apply H. now right.
Qed.

Lemma Forall2_In_l {A} (R : A -> A -> Prop) (l l' : list A) a :
  Forall2 R l l' -> In a l -> exists b, In b l' /\ R a b.
Proof.
  induction 1 as [| x y0 k k' Hxy _ IH]; intros Hin.
  - destruct Hin.
  - destruct Hin as [-> | Hin].
    + exists y0. split; [now left | assumption].
    + destruct (IH Hin) as (b & Hb & HR). exists b. split; [now right | assumption].
Qed.

Lemma Forall2_map_r {A} (R : A -> A -> Prop) (f : A -> A) (l : list A) :
  (forall a, R a (f a)) -> Forall2 R l (map f l).
Proof. intros H. induction l; simpl; constructor; auto. Qed.

(** Two rows of a table with unique [task_uid]s that share the uid are the
    same row. *)
Lemma unique_row (ts : list ProofTask) (r t : ProofTask) :
  NoDup (map task_uid ts) -> In r ts -> In t ts ->
  task_uid r = task_uid t -> r = t.
Proof.
  induction ts as [| x ts IH]; simpl; intros Hnd Hr Ht He.
  - destruct Hr.
  - inversion Hnd as [| ? ? Hx Hnd']; subst.
    destruct Hr as [-> | Hr], Ht as [-> | Ht]; auto.
    + exfalso. apply Hx. rewrite He. now apply in_map.
    + exfalso. apply Hx. rewrite <- He. now apply in_map.
Qed.

(** ** What processing one task does to the table *)

Lemma orZero_id n : orZero n = n.
Proof. unfold orZero. destruct (Z.eqb n 0) eqn:H; auto. now apply Z.eqb_eq in H. Qed.

Lemma rowStep_refl task r : rowStep task r r.
Proof. unfold rowStep. repeat split; auto; lia. Qed.

Lemma rowStep_trans task a b c :
  rowStep task a b -> rowStep task b c -> rowStep task a c.
Proof.
  unfold rowStep. intros (U1 & N1 & A1) (U2 & N2 & A2).
  split; [congruence |]. split.
  - intros Hne. rewrite N2, N1; auto. rewrite N1; auto.
  - intros Ha. destruct (A1 Ha) as [Hb Hle]. destruct (A2 Hb) as [Hc Hle'].
    split; [assumption | lia].
Qed.

Lemma tableStep_refl task w : tableStep task w w.
Proof. apply Forall2_refl, rowStep_refl. Qed.

Lemma tableStep_trans task a b c :
  tableStep task a b -> tableStep task b c -> tableStep task a c.
Proof.
  unfold tableStep. intros H1 H2.
  eapply Forall2_compose; [| exact H1 | exact H2].
  intros x y z _. apply rowStep_trans.
Qed.

Lemma tableStep_grows task w w' : grows w w' -> tableStep task w w'.
Proof.
  intros (Ht & _). unfold tableStep. rewrite Ht. apply Forall2_refl, rowStep_refl.
Qed.

Lemma tableStep_status task w st d now :
  tableStep task w (statusWritten (task_uid task) st d now w).
Proof.
  unfold tableStep, statusWritten, updateWhereUid. simpl.
  apply Forall2_map_r. intros r.
  destruct (String.eqb (task_uid r) (task_uid task)) eqn:He.
  - unfold rowStep; simpl. split; [reflexivity |]. split.
    + intros Hne. apply String.eqb_eq in He. contradiction.
    + intros Ha. split; [assumption | lia].
  - apply rowStep_refl.
Qed.

Lemma tableStep_attempts task w now :
  tableStep task w
    (attemptsWritten (task_uid task) (orZero (attempts task) + 1) now w).
Proof.
  unfold tableStep, attemptsWritten, updateWhereUid. simpl.
  apply Forall2_map_r. intros r.
  destruct (String.eqb (task_uid r) (task_uid task)) eqn:He.
  - unfold rowStep; simpl. rewrite orZero_id. split; [reflexivity |]. split.
    + intros Hne. apply String.eqb_eq in He. contradiction.
    + intros Ha. split; [now right | lia].
  - apply rowStep_refl.
Qed.

Lemma processPendingTask_tableStep E fuel now task :
  preserves (tableStep task) (processPendingTask E fuel now task).
Proof.
  apply processPendingTask_frame.
  - apply tableStep_refl.
  - apply tableStep_trans.
  - apply tableStep_grows.
  - intros w ws. apply (tableStep_refl task w).
  - intros w st d now' _. apply tableStep_status.
  - apply tableStep_attempts.
Qed.

Lemma expireTask_tableStep E task : preserves (tableStep task) (expireTask E task).
Proof.
  apply expireTask_frame.
  - apply tableStep_refl.
  - apply tableStep_trans.
  - apply tableStep_grows.
  - intros w st d now' _. apply tableStep_status.
Qed.

(** ** What a batch does to the table *)

Lemma batchStep_uids uids ts ts' :
  Forall2 (batchStep uids) ts ts' -> map task_uid ts' = map task_uid ts.
Proof.
  induction 1 as [| r r' ts ts' (Hu & _) _ IH]; simpl; congruence.
Qed.

Lemma tableStep_once task w w1 :
  uniqueUids w -> In task (proof_tasks w) -> tableStep task w w1 ->
  Forall2 (batchStep [task_uid task]) (proof_tasks w) (proof_tasks w1).
Proof.
  intros Hnd Hin Hs. eapply Forall2_weaken; [| exact Hs].
  intros r r' Hr (Hu & Hn & Ha). split; [assumption |]. split.
  - intros Hni. apply Hn. intros He. apply Hni. now left.
  - destruct (string_dec (task_uid r) (task_uid task)) as [He | Hne].
    + pose proof (unique_row _ _ _ Hnd Hr Hin He) as ->.
      apply Ha. now left.
    + rewrite (Hn Hne). lia.
Qed.

Lemma forEach_batch (body : ProofTask -> M unit) :
  (forall task, preserves (tableStep task) (body task)) ->
  forall ts w,
    uniqueUids w -> NoDup (map task_uid ts) ->
    (forall task, In task ts -> In task (proof_tasks w)) ->
    Forall2 (batchStep (map task_uid ts))
            (proof_tasks w) (proof_tasks (snd (forEach ts body w))).
Proof.
  intros Hbody ts. induction ts as [| task ts IH]; intros w Hnd Hts Hin.
  - simpl. apply Forall2_refl. intros r. unfold batchStep. repeat split; auto; lia.
  - simpl forEach. rewrite snd_bind.
    pose proof (Hbody task w) as Hstep.
    assert (Htask : In task (proof_tasks w)) by (apply Hin; now left).
    pose proof (tableStep_once task w _ Hnd Htask Hstep) as Hone.
    inversion Hts as [| ? ? Hfresh Hts']; subst.
    destruct (body task w) as [[[] | msg |] w1]; simpl in *.
    + assert (Hnd1 : uniqueUids w1).
      { unfold uniqueUids. now rewrite (batchStep_uids _ _ _ Hone). }
      assert (Hin1 : forall t', In t' ts -> In t' (proof_tasks w1)).
      { intros t' Ht'.
        destruct (Forall2_In_l _ _ _ t' Hone (Hin t' (or_intror Ht')))
          as (r' & Hr' & (_ & Hk & _)).
        rewrite Hk in Hr'; auto.
        intros [He | []]. apply Hfresh. rewrite He. now apply in_map. }
      specialize (IH w1 Hnd1 Hts' Hin1).
      eapply Forall2_compose; [| exact Hone | exact IH].
      intros a b c _ (U1 & N1 & A1) (U2 & N2 & A2).
      split; [congruence |]. split; [| lia].
      intros Hni.
      assert (H1 : ~ In (task_uid a) [task_uid task]).
      { intros [He | []]. apply Hni. now left. }
      assert (H2 : ~ In (task_uid b) (map task_uid ts)).
      { rewrite U1. intros Hc. apply Hni. now right. }
      rewrite (N2 H2). exact (N1 H1).
    + eapply Forall2_weaken; [| exact Hone].
      intros a b _ (U1 & N1 & A1). split; [assumption |]. split; [| assumption].
      intros Hni. apply N1. intros [He | []]. apply Hni. now left.
    + eapply Forall2_weaken; [| exact Hone].
      intros a b _ (U1 & N1 & A1). split; [assumption |]. split; [| assumption].
      intros Hni. apply N1. intros [He | []]. apply Hni. now left.
Qed.

(** ** The selection queries *)

Lemma insertByCreatedAt_perm t l : Permutation (insertByCreatedAt t l) (t :: l).
Proof.
  induction l as [| u l IH]; simpl; auto.
  destruct (Z.leb (created_at t) (created_at u)); auto.
  rewrite IH. apply perm_swap.
Qed.

Lemma orderByCreatedAt_perm l : Permutation (orderByCreatedAt l) l.
Proof.
  induction l as [| t l IH]; simpl; auto.
  rewrite insertByCreatedAt_perm. now constructor.
Qed.

(** A [WHERE] clause and a [LIMIT] keep the uids unique. *)
Lemma where_unique (selects : ProofTask -> bool) (rows : list ProofTask) :
  NoDup (map task_uid rows) -> NoDup (map task_uid (filter selects rows)).
Proof.
  intros Hnd. induction rows as [| r rows IH]; simpl; [constructor |].
  inversion Hnd as [| ? ? Hfresh Hrest]; subst.
  destruct (selects r); simpl; [| now apply IH].
  constructor; [| now apply IH].
  intros Hin. apply Hfresh.
  apply in_map_iff in Hin. destruct Hin as (r' & Hu & Hin).
  apply filter_In in Hin. rewrite <- Hu. apply in_map. tauto.
Qed.

Lemma limit_member (t : ProofTask) (limit : nat) (rows : list ProofTask) :
  In t (firstn limit rows) -> In t rows.
Proof.
  revert limit. induction rows as [| r rows IH]; intros [| limit]; simpl; try tauto.
  intros [H | H]; [now left | right; eauto].
Qed.

Lemma limit_unique (limit : nat) (rows : list ProofTask) :
  NoDup (map task_uid rows) -> NoDup (map task_uid (firstn limit rows)).
Proof.
  revert limit. induction rows as [| r rows IH]; intros [| limit] Hnd; simpl;
    try constructor.
  - inversion Hnd as [| ? ? Hfresh Hrest]; subst.
    intros Hin. apply Hfresh.
    apply in_map_iff in Hin. destruct Hin as (r' & Hu & Hin).
    rewrite <- Hu. apply in_map. eapply limit_member; eauto.
  - inversion Hnd; subst. now apply IH.
Qed.

(** The batch of a selection: its members are rows that satisfy the
    [WHERE] clause, and no uid occurs twice. *)
Lemma selection_sound limit (p : ProofTask -> bool) rows task :
  In task (firstn limit (orderByCreatedAt (filter p rows))) ->
  In task rows /\ p task = true.
Proof.
  intros H. apply limit_member in H.
  apply (Permutation_in _ (orderByCreatedAt_perm _)) in H.
  now apply filter_In in H.
Qed.

Lemma selection_unique limit (p : ProofTask -> bool) rows :
  NoDup (map task_uid rows) ->
  NoDup (map task_uid (firstn limit (orderByCreatedAt (filter p rows)))).
Proof.
  intros H. apply limit_unique.
  eapply Permutation_NoDup.
  - apply Permutation_map, Permutation_sym, orderByCreatedAt_perm.
  - now apply where_unique.
Qed.

(** ** Primitive runs *)

Lemma dateNowSeconds_run E w :
  dateNowSeconds E w = (Ret (clock E (ticks w)), with_ticks (S (ticks w)) w).
Proof. reflexivity. Qed.

Lemma storeCall_run E w :
  storeCall E w =
  match storeFault E (ticks w) with
  | Some message => (Throw message, with_ticks (S (ticks w)) w)
  | None => (Ret (ticks w), with_ticks (S (ticks w)) w)
  end.
Proof. unfold storeCall, bind, tick. now destruct (storeFault E (ticks w)). Qed.

Lemma findProcessableTasks_run E limit w :
  findProcessableTasks E limit w =
  match storeFault E (S (ticks w)) with
  | Some message => (Throw message, with_ticks (S (S (ticks w))) w)
  | None =>
      (Ret (firstn limit
              (orderByCreatedAt
                 (filter (isProcessable (clock E (ticks w))) (proof_tasks w)))),
       with_ticks (S (S (ticks w))) w)
  end.
Proof.
  unfold findProcessableTasks. unfold bind at 1. rewrite dateNowSeconds_run.
  unfold bind at 1. rewrite storeCall_run. simpl.
  now destruct (storeFault E (S (ticks w))).
Qed.

Lemma getStuckAndExpiredTasks_run E nowUtc w :
  getStuckAndExpiredTasks E nowUtc w =
  match storeFault E (ticks w) with
  | Some message => (Throw message, with_ticks (S (ticks w)) w)
  | None =>
      (Ret (filter (isStuckOrExpired nowUtc) (proof_tasks w)),
       with_ticks (S (ticks w)) w)
  end.
Proof.
  unfold getStuckAndExpiredTasks. unfold bind at 1. rewrite storeCall_run.
  now destruct (storeFault E (ticks w)).
Qed.

(** A phase behind its re-entrancy flag: skipped when the flag is up;
    otherwise the flag is raised, the body run with its exceptions caught,
    and the flag lowered -- unless the body never finishes. *)
Lemma guarded_run (flag : World -> bool) (set : bool -> World -> World)
      (body : M unit) w :
  bind (gets flag)
       (fun busy =>
          if busy then ret tt
          else bind (modify (set true))
                 (fun _ => bind (tryCatch body (fun _ => ret tt))
                             (fun _ => modify (set false)))) w
  = if flag w then (Ret tt, w)
    else match body (set true w) with
         | (OutOfFuel, w1) => (OutOfFuel, w1)
         | (_, w1) => (Ret tt, set false w1)
         end.
Proof.
  unfold bind, gets, modify, tryCatch, ret.
  destruct (flag w); auto.
  now destruct (body (set true w)) as [[[] | msg |] w1].
Qed.

Lemma handleStuckOrExpiredTasks_run E w :
  handleStuckOrExpiredTasks E w =
  if isCleaningUp w then (Ret tt, w)
  else match (bind (dateNowSeconds E)
                (fun nowUtc =>
                   bind (getStuckAndExpiredTasks E nowUtc)
                     (fun tasks => forEach tasks (expireTask E))))
               (with_isCleaningUp true w) with
       | (OutOfFuel, w1) => (OutOfFuel, w1)
       | (_, w1) => (Ret tt, with_isCleaningUp false w1)
       end.
Proof. apply guarded_run. Qed.

Lemma processPendingTasks_run E fuel w :
  processPendingTasks E fuel w =
  if isProcessingCycle w then (Ret tt, w)
  else match (bind (dateNowSeconds E)
                (fun now =>
                   bind (findProcessableTasks E 10)
                     (fun tasks => forEach tasks (processPendingTask E fuel now))))
               (with_isProcessingCycle true w) with
       | (OutOfFuel, w1) => (OutOfFuel, w1)
       | (_, w1) => (Ret tt, with_isProcessingCycle false w1)
       end.
Proof. apply guarded_run. Qed.

(** ** What a phase does to the table *)

Lemma phaseStep_refl selects r : phaseStep selects r r.
Proof. unfold phaseStep. repeat split; auto; lia. Qed.

Lemma batch_phase (selects : ProofTask -> bool) rows rows' ts :
  NoDup (map task_uid rows) ->
  (forall t, In t ts -> In t rows /\ selects t = true) ->
  Forall2 (batchStep (map task_uid ts)) rows rows' ->
  Forall2 (phaseStep selects) rows rows'.
Proof.
  intros Hnd Hsel. apply Forall2_weaken.
  intros r r' Hr (Hu & Hk & Ha). split; [assumption |]. split; [assumption |].
  intros Hs. apply Hk. intros Hin.
  apply in_map_iff in Hin. destruct Hin as (t & Ht & Hin).
  destruct (Hsel t Hin) as [Hrow Hst].
  pose proof (unique_row _ _ _ Hnd Hr Hrow (eq_sym Ht)) as ->. congruence.
Qed.

Lemma processPendingTasks_rows E fuel w :
  uniqueUids w ->
  Forall2 (phaseStep (isProcessable (clock E (S (ticks w)))))
          (proof_tasks w) (proof_tasks (snd (processPendingTasks E fuel w))).
Proof.
  intros Hnd. rewrite processPendingTasks_run.
  destruct (isProcessingCycle w); [apply Forall2_refl, phaseStep_refl |].
  set (wa := with_isProcessingCycle true w).
  assert (Hbody :
    Forall2 (phaseStep (isProcessable (clock E (S (ticks w)))))
      (proof_tasks w)
      (proof_tasks (snd (bind (dateNowSeconds E)
         (fun now => bind (findProcessableTasks E 10)
            (fun tasks => forEach tasks (processPendingTask E fuel now))) wa)))).
  { rewrite snd_bind, dateNowSeconds_run.
    rewrite snd_bind, findProcessableTasks_run. cbn [ticks with_ticks wa with_isProcessingCycle].
    destruct (storeFault E _); [apply Forall2_refl, phaseStep_refl |].
    match goal with
    | |- context [forEach ?ts ?body ?w3] =>
        pose proof (forEach_batch body
                      (processPendingTask_tableStep E fuel _) ts w3) as Hb
    end.
    cbn [proof_tasks with_ticks with_isProcessingCycle wa] in Hb.
    eapply batch_phase; [exact Hnd | | apply Hb].
    - intros t Ht. now apply selection_sound in Ht.
    - exact Hnd.
    - now apply selection_unique.
    - intros t Ht. now apply selection_sound in Ht. }
  destruct (bind _ _ wa) as [[[] | msg |] w1]; exact Hbody.
Qed.

Lemma handleStuckOrExpiredTasks_rows E w :
  uniqueUids w ->
  Forall2 (phaseStep (isStuckOrExpired (clock E (ticks w))))
          (proof_tasks w) (proof_tasks (snd (handleStuckOrExpiredTasks E w))).
Proof.
  intros Hnd. rewrite handleStuckOrExpiredTasks_run.
  destruct (isCleaningUp w); [apply Forall2_refl, phaseStep_refl |].
  set (wa := with_isCleaningUp true w).
  assert (Hbody :
    Forall2 (phaseStep (isStuckOrExpired (clock E (ticks w))))
      (proof_tasks w)
      (proof_tasks (snd (bind (dateNowSeconds E)
         (fun nowUtc => bind (getStuckAndExpiredTasks E nowUtc)
            (fun tasks => forEach tasks (expireTask E))) wa)))).
  { rewrite snd_bind, dateNowSeconds_run.
    rewrite snd_bind, getStuckAndExpiredTasks_run. cbn [ticks with_ticks wa with_isCleaningUp].
    destruct (storeFault E _); [apply Forall2_refl, phaseStep_refl |].
    match goal with
    | |- context [forEach ?ts ?body ?w3] =>
        pose proof (forEach_batch body (expireTask_tableStep E) ts w3) as Hb
    end.
    cbn [proof_tasks with_ticks with_isCleaningUp wa] in Hb.
    eapply batch_phase; [exact Hnd | | apply Hb].
    - intros t Ht. now apply filter_In in Ht.
    - exact Hnd.
    - now apply where_unique.
    - intros t Ht. now apply filter_In in Ht. }
  destruct (bind _ _ wa) as [[[] | msg |] w1]; exact Hbody.
Qed.

(** ** What a phase leaves alone, whatever it selects *)

Section PhaseFrame.

Variable E : Env.
Variable R : World -> World -> Prop.
Hypothesis R_refl : forall w, R w w.
Hypothesis R_trans : forall a b c, R a b -> R b c -> R a c.
Hypothesis R_grows : forall w w', grows w w' -> R w w'.
Hypothesis R_wallets : forall w ws, R w (with_wallets ws w).
Hypothesis R_cleaning : forall w b, R w (with_isCleaningUp b w).
Hypothesis R_processing : forall w b, R w (with_isProcessingCycle b w).
Hypothesis R_status : forall uid w st d now,
  taskWrite st d -> R w (statusWritten uid st d now w).
Hypothesis R_attempts : forall uid n w now, R w (attemptsWritten uid n now w).

Lemma handleStuckOrExpiredTasks_frame : preserves R (handleStuckOrExpiredTasks E).
Proof.
  pose proof (getStuckAndExpiredTasks_frame E R R_refl R_trans R_grows) as HG.
  pose proof (preserves_weaken grows R _ R_grows (dateNowSeconds_grows E)) as HD.
  unfold handleStuckOrExpiredTasks.
  preserve_with R_refl R_trans.
  - intros w. apply R_cleaning.
  - apply preserves_forEach; auto. intros task _.
    apply expireTask_frame; auto.
  - intros w. apply R_cleaning.
Qed.

Lemma processPendingTasks_frame fuel : preserves R (processPendingTasks E fuel).
Proof.
  pose proof (findProcessableTasks_frame E R R_refl R_trans R_grows) as HG.
  pose proof (preserves_weaken grows R _ R_grows (dateNowSeconds_grows E)) as HD.
  unfold processPendingTasks.
  preserve_with R_refl R_trans.
  - intros w. apply R_processing.
  - apply preserves_forEach; auto. intros task _.
    apply processPendingTask_frame; auto.
  - intros w. apply R_processing.
Qed.

Lemma runFullCycle_frame fuel : preserves R (runFullCycle E fuel).
Proof.
  unfold runFullCycle. apply preserves_bind; auto.
  - apply handleStuckOrExpiredTasks_frame.
  - intros _. apply processPendingTasks_frame.
Qed.

End PhaseFrame.

Lemma handleStuckOrExpiredTasks_later E :
  preserves later (handleStuckOrExpiredTasks E).
Proof.
  apply handleStuckOrExpiredTasks_frame; unfold later; simpl; try (intros; lia).
  intros w w' (_ & _ & _ & _ & _ & Ht & _). exact Ht.
Qed.

(** ** A full cycle *)

Lemma phaseStep_uids selects ts ts' :
  Forall2 (phaseStep selects) ts ts' -> map task_uid ts' = map task_uid ts.
Proof.
  induction 1 as [| r r' ts ts' (Hu & _) _ IH]; simpl; congruence.
Qed.

Lemma runFullCycle_rows E fuel w :
  uniqueUids w ->
  Forall2 (cycleStep E w)
          (proof_tasks w) (proof_tasks (snd (runFullCycle E fuel w))).
Proof.
  intros Hnd. unfold runFullCycle. rewrite snd_bind.
  pose proof (handleStuckOrExpiredTasks_rows E w Hnd) as H1.
  pose proof (handleStuckOrExpiredTasks_later E w) as Ht. unfold later in Ht.
  destruct (handleStuckOrExpiredTasks E w) as [[[] | msg |] w1]; simpl in *.
  - assert (Hnd1 : uniqueUids w1).
    { unfold uniqueUids. now rewrite (phaseStep_uids _ _ _ H1). }
    pose proof (processPendingTasks_rows E fuel w1 Hnd1) as H2.
    eapply Forall2_compose; [| exact H1 | exact H2].
    intros a b c _ (U1 & A1 & K1) (U2 & A2 & K2).
    split; [congruence |]. split; [lia |].
    intros Hs Hp. rewrite K2, K1; auto.
    rewrite K1; auto. apply Hp. lia.
  - eapply Forall2_weaken; [| exact H1].
    intros a b _ (U1 & A1 & K1). repeat split; auto.
  - eapply Forall2_weaken; [| exact H1].
    intros a b _ (U1 & A1 & K1). repeat split; auto.
Qed.

Lemma cycleStep_uids E w ts ts' :
  Forall2 (cycleStep E w) ts ts' -> map task_uid ts' = map task_uid ts.
Proof.
  induction 1 as [| r r' ts ts' (Hu & _) _ IH]; simpl; congruence.
Qed.

Lemma terminal_not_selected now r :
  isTerminal (status r) = true ->
  isStuckOrExpired now r = false /\ isProcessable now r = false.
Proof.
  unfold isTerminal, isStuckOrExpired, isProcessable.
  destruct (isActive (status r)); [discriminate | auto].
Qed.

Lemma runFullCycle_terminal E fuel w :
  uniqueUids w ->
  uniqueUids (snd (runFullCycle E fuel w)) /\
  map task_uid (proof_tasks (snd (runFullCycle E fuel w)))
  = map task_uid (proof_tasks w) /\
  forall t, In t (proof_tasks w) -> isTerminal (status t) = true ->
            In t (proof_tasks (snd (runFullCycle E fuel w))).
Proof.
  intros Hnd. pose proof (runFullCycle_rows E fuel w Hnd) as H.
  pose proof (cycleStep_uids _ _ _ _ H) as Hu.
  split; [unfold uniqueUids; now rewrite Hu |]. split; [exact Hu |].
  intros t Hin Hterm.
  destruct (Forall2_In_l _ _ _ t H Hin) as (r' & Hr' & (_ & _ & Hk)).
  rewrite Hk in Hr'; auto.
  - now apply terminal_not_selected.
  - intros k _. now apply terminal_not_selected.
Qed.

Lemma runCycles_terminal E fuel n :
  forall w,
    uniqueUids w ->
    map task_uid (proof_tasks (snd (runCycles E fuel n w)))
    = map task_uid (proof_tasks w) /\
    forall t, In t (proof_tasks w) -> isTerminal (status t) = true ->
              In t (proof_tasks (snd (runCycles E fuel n w))).
Proof.
  induction n as [| n IH]; intros w Hnd; simpl runCycles.
  - split; auto.
  - rewrite snd_bind.
    destruct (runFullCycle_terminal E fuel w Hnd) as (Hnd1 & Hu1 & Hk1).
    destruct (runFullCycle E fuel w) as [[[] | msg |] w1]; simpl in *; auto.
    destruct (IH w1 Hnd1) as (Hu2 & Hk2).
    split; [congruence | auto].
Qed.

Lemma findProcessableTasks_active E limit w ts w' :
  findProcessableTasks E limit w = (Ret ts, w') ->
  Forall (fun t => isActive (status t) = true) ts.
Proof.
  rewrite findProcessableTasks_run.
  destruct (storeFault E _); [discriminate |].
  intros H. inversion H; subst. apply Forall_forall. intros t Ht.
  apply selection_sound in Ht. destruct Ht as [_ Ht].
  unfold isProcessable in Ht. now apply andb_true_iff in Ht.
Qed.

Lemma getStuckAndExpiredTasks_active E now w ts w' :
  getStuckAndExpiredTasks E now w = (Ret ts, w') ->
  Forall (fun t => isActive (status t) = true) ts.
Proof.
  rewrite getStuckAndExpiredTasks_run.
  destruct (storeFault E _); [discriminate |].
  intros H. inversion H; subst. apply Forall_forall. intros t Ht.
  apply filter_In in Ht. destruct Ht as [_ Ht].
  unfold isStuckOrExpired in Ht. now apply andb_true_iff in Ht.
Qed.

(** Cycles that run one after another, each over before the next begins,
    leave terminal tasks alone: with [task_uid] unique, as the schema
    declares it, a terminal row of the table is found again, field for
    field, after any number of such cycles (reap phase, then work phase),
    the table having the same uids in the same places; and both selection
    queries return only tasks whose status is pending or processing.
    This holds for every behaviour of the explorer, the clock and the
    store, and also for a cycle that is cut short.  It says nothing of a
    cycle that is still in flight when the timer ticks. *)
Theorem terminal_tasks_never_mutated E fuel :
  (forall n w t,
     uniqueUids w ->
     In t (proof_tasks w) -> isTerminal (status t) = true ->
     In t (proof_tasks (snd (runCycles E fuel n w))) /\
     map task_uid (proof_tasks (snd (runCycles E fuel n w)))
     = map task_uid (proof_tasks w)) /\
  (forall limit w ts w',
     findProcessableTasks E limit w = (Ret ts, w') ->
     Forall (fun t => isActive (status t) = true) ts) /\
  (forall nowUtc w ts w',
     getStuckAndExpiredTasks E nowUtc w = (Ret ts, w') ->
     Forall (fun t => isActive (status t) = true) ts).
Proof.
  split; [| split].
  - intros n w t Hnd Hin Hterm.
    destruct (runCycles_terminal E fuel n w Hnd) as (Hu & Hk). auto.
  - apply findProcessableTasks_active.
  - apply getStuckAndExpiredTasks_active.
Qed.

(** C9.  A task whose deadline equals the second the clock shows during a
    cycle is selected by neither phase -- the reap query wants the
    deadline strictly below now, the work query strictly above -- and,
    with [task_uid] unique, the cycle leaves its row as it was, field for
    field. *)
Theorem deadline_second_left_alone E fuel w t :
  uniqueUids w ->
  In t (proof_tasks w) ->
  (forall k, (ticks w <= k)%nat -> clock E k = check_deadline_utc t) ->
  isStuckOrExpired (check_deadline_utc t) t = false /\
  isProcessable (check_deadline_utc t) t = false /\
  In t (proof_tasks (snd (runFullCycle E fuel w))).
Proof.
  intros Hnd Hin Hclock.
  assert (Hs : isStuckOrExpired (check_deadline_utc t) t = false).
  { unfold isStuckOrExpired. rewrite Z.ltb_irrefl. apply andb_false_r. }
  assert (Hp : isProcessable (check_deadline_utc t) t = false).
  { unfold isProcessable. rewrite Z.ltb_irrefl. apply andb_false_r. }
  split; [exact Hs |]. split; [exact Hp |].
  pose proof (runFullCycle_rows E fuel w Hnd) as H.
  destruct (Forall2_In_l _ _ _ t H Hin) as (r' & Hr' & (_ & _ & Hk)).
  rewrite Hk in Hr'; auto.
  - rewrite Hclock; auto.
  - intros k Hlt. rewrite Hclock; auto. lia.
Qed.

(** ** Store calls that go through *)

Lemma updateProofTaskStatus_run E uid st d w :
  updateProofTaskStatus E uid st d w =
  match storeFault E (ticks w) with
  | Some message => (Throw message, with_ticks (S (ticks w)) w)
  | None =>
      (Ret tt, statusWritten uid st d (clock E (ticks w))
                             (with_ticks (S (ticks w)) w))
  end.
Proof.
  unfold updateProofTaskStatus. unfold bind at 1. rewrite storeCall_run.
  now destruct (storeFault E (ticks w)).
Qed.

Lemma updateProofTaskAttempts_run E uid n w :
  updateProofTaskAttempts E uid n w =
  match storeFault E (ticks w) with
  | Some message => (Throw message, with_ticks (S (ticks w)) w)
  | None =>
      (Ret tt, attemptsWritten uid n (clock E (ticks w))
                               (with_ticks (S (ticks w)) w))
  end.
Proof.
  unfold updateProofTaskAttempts. unfold bind at 1. rewrite storeCall_run.
  now destruct (storeFault E (ticks w)).
Qed.

(** ** Looking a task up *)

Lemma selectByUid_update uid u (f : ProofTask -> ProofTask) ts :
  (forall r, task_uid (f r) = task_uid r) ->
  selectByUid uid (updateWhereUid u f ts) =
  if String.eqb uid u then option_map f (selectByUid uid ts)
  else selectByUid uid ts.
Proof.
  intros Hf. unfold selectByUid, updateWhereUid.
  induction ts as [| r ts IH]; simpl.
  - now destruct (String.eqb uid u).
  - destruct (String.eqb (task_uid r) u) eqn:Hru.
    + rewrite Hf. apply String.eqb_eq in Hru.
      destruct (String.eqb (task_uid r) uid) eqn:Hr.
      * apply String.eqb_eq in Hr. rewrite <- Hr, Hru, String.eqb_refl. reflexivity.
      * exact IH.
    + destruct (String.eqb (task_uid r) uid) eqn:Hr.
      * apply String.eqb_eq in Hr. subst uid. rewrite Hru. reflexivity.
      * exact IH.
Qed.

Lemma selectByUid_statusWritten uid st d now w :
  selectByUid uid (proof_tasks (statusWritten uid st d now w))
  = option_map (setStatus st d now) (selectByUid uid (proof_tasks w)).
Proof.
  unfold statusWritten. simpl.
  rewrite selectByUid_update, String.eqb_refl; auto.
Qed.

Lemma selectByUid_attemptsWritten uid n now w :
  selectByUid uid (proof_tasks (attemptsWritten uid n now w))
  = option_map (setAttempts n now) (selectByUid uid (proof_tasks w)).
Proof.
  unfold attemptsWritten. simpl.
  rewrite selectByUid_update, String.eqb_refl; auto.
Qed.

(** ** The start of a check *)

(** Once the task is marked processing, the table at the start of the
    check has the attempt counted -- unless the store refuses that write,
    which is logged and passed over. *)
Lemma checkStarts_tasks E task w :
  storeFault E (ticks w) = None ->
  proof_tasks (checkStarts E task w) =
  match storeFault E (S (ticks w)) with
  | None =>
      updateWhereUid (task_uid task)
        (setAttempts (attempts task + 1) (clock E (S (ticks w))))
        (updateWhereUid (task_uid task)
           (setStatus processing noDetails (clock E (ticks w))) (proof_tasks w))
  | Some _ =>
      updateWhereUid (task_uid task)
        (setStatus processing noDetails (clock E (ticks w))) (proof_tasks w)
  end.
Proof.
  intros H0. unfold checkStarts.
  rewrite snd_bind, updateProofTaskStatus_run, H0.
  unfold tryCatch. rewrite updateProofTaskAttempts_run, orZero_id.
  cbn [ticks statusWritten with_written with_tasks with_ticks].
  now destruct (storeFault E (S (ticks w))).
Qed.

Lemma processSingleTask_run E fuel task w cw :
  CHECK_WALLET E = Some cw -> cw <> "" ->
  storeFault E (ticks w) = None ->
  processSingleTask E fuel task w =
  attemptProof E fuel task cw (attempts task + 1) (checkStarts E task w).
Proof.
  intros Hcw Hne H0. unfold processSingleTask, checkStarts.
  rewrite Hcw. destruct cw as [| ch cw]; [congruence |].
  simpl (negb (Js.truthyOpt _)). cbv iota.
  pose proof (updateProofTaskStatus_run E (task_uid task) processing noDetails w) as HU.
  rewrite H0 in HU.
  unfold bind. rewrite HU. cbv iota beta.
  set (w1 := statusWritten _ _ _ _ _).
  unfold tryCatch. rewrite updateProofTaskAttempts_run, orZero_id.
  now destruct (storeFault E (ticks w1)).
Qed.

Lemma selectByUid_checkStarts E task w :
  storeFault E (ticks w) = None ->
  selectByUid (task_uid task) (proof_tasks w) = Some task ->
  selectByUid (task_uid task) (proof_tasks (checkStarts E task w))
  = Some (match storeFault E (S (ticks w)) with
          | None =>
              setAttempts (attempts task + 1) (clock E (S (ticks w)))
                (setStatus processing noDetails (clock E (ticks w)) task)
          | Some _ => setStatus processing noDetails (clock E (ticks w)) task
          end).
Proof.
  intros H0 Hsel. rewrite checkStarts_tasks; auto.
  destruct (storeFault E (S (ticks w))).
  - rewrite selectByUid_update, String.eqb_refl, Hsel; auto.
  - rewrite !selectByUid_update, String.eqb_refl, Hsel; auto.
Qed.

(** ** Attempts *)

Lemma attemptsKept_refl w : attemptsKept w w.
Proof. apply Forall2_refl. auto. Qed.

Lemma attemptsKept_trans a b c :
  attemptsKept a b -> attemptsKept b c -> attemptsKept a c.
Proof.
  unfold attemptsKept. intros H1 H2.
  eapply Forall2_compose; [| exact H1 | exact H2].
  intros x y z _ (U1 & A1) (U2 & A2). split; congruence.
Qed.

Lemma attemptsKept_status uid st d now w :
  attemptsKept w (statusWritten uid st d now w).
Proof.
  unfold attemptsKept, statusWritten, updateWhereUid. simpl.
  apply Forall2_map_r. intros r.
  now destruct (String.eqb (task_uid r) uid).
Qed.

Lemma attemptProof_attemptsKept E fuel task cw n :
  preserves attemptsKept (attemptProof E fuel task cw n).
Proof.
  apply attemptProof_frame.
  - apply attemptsKept_refl.
  - apply attemptsKept_trans.
  - intros w w' (Ht & _). unfold attemptsKept. rewrite Ht. apply Forall2_refl. auto.
  - intros w ws. apply (attemptsKept_refl w).
  - intros w st d now _. apply attemptsKept_status.
Qed.

Lemma selectByUid_attemptsKept uid w w' r :
  attemptsKept w w' ->
  selectByUid uid (proof_tasks w) = Some r ->
  exists r', selectByUid uid (proof_tasks w') = Some r' /\ attempts r' = attempts r.
Proof.
  unfold attemptsKept, selectByUid.
  induction 1 as [| x y ts ts' (Hu & Ha) _ IH]; simpl; [discriminate |].
  rewrite Hu. destruct (String.eqb (task_uid x) uid).
  - intros H. inversion H; subst. now exists y.
  - exact IH.
Qed.

Lemma getWallet_run E tg w :
  getWallet E tg w =
  match storeFault E (ticks w) with
  | Some message => (Throw message, with_ticks (S (ticks w)) w)
  | None =>
      (Ret (match find (fun r => String.eqb (telegram_id_hash r)
                                            (hashTelegramId E tg))
                       (wallets w) with
            | None => None
            | Some row =>
                Some {| wl_wallet := decryptWallet E (wallet_encrypted row);
                        wl_proofed := negb (Z.eqb (proofed row) 0) |}
            end),
       with_ticks (S (ticks w)) w)
  end.
Proof.
  unfold getWallet. unfold bind at 1. rewrite storeCall_run.
  destruct (storeFault E (ticks w)); auto.
  unfold bind, gets. simpl.
  now destruct (find _ (wallets w)).
Qed.

Lemma saveWalletLink_tasks E tg wa b raw w :
  proof_tasks (snd (saveWalletLink E tg wa b raw w)) = proof_tasks w /\
  posted (snd (saveWalletLink E tg wa b raw w)) = posted w.
Proof.
  unfold saveWalletLink. rewrite snd_bind, storeCall_run.
  now destruct (storeFault E (ticks w)).
Qed.

(** The already-proofed short circuit leaves every attempts count as it
    was and sends nothing to the explorer. *)
Lemma shortCircuit_quiet E fuel now task w link w1 :
  now < check_deadline_utc task ->
  getWallet E (telegram_id task) w = (Ret (Some link), w1) ->
  wl_proofed link = true ->
  map attempts (proof_tasks (snd (processPendingTask E fuel now task w)))
  = map attempts (proof_tasks w) /\
  posted (snd (processPendingTask E fuel now task w)) = posted w.
Proof.
  intros Hd Hg Hp. unfold processPendingTask.
  apply Z.leb_gt in Hd. rewrite Hd.
  rewrite snd_bind, Hg, Hp.
  assert (Hw1 : proof_tasks w1 = proof_tasks w /\ posted w1 = posted w).
  { rewrite getWallet_run in Hg. destruct (storeFault E (ticks w)); [discriminate |].
    inversion Hg; subst. auto. }
  destruct Hw1 as [Ht1 Hp1]. rewrite <- Ht1, <- Hp1.
  rewrite snd_bind, updateProofTaskStatus_run.
  destruct (storeFault E (ticks w1)); [auto |].
  set (w2 := statusWritten _ _ _ _ _).
  assert (Hw2 : map attempts (proof_tasks w2) = map attempts (proof_tasks w1)
                /\ posted w2 = posted w1).
  { split; [| reflexivity]. unfold w2, statusWritten, updateWhereUid. simpl.
    rewrite map_map. apply map_ext. intros r.
    now destruct (String.eqb (task_uid r) (task_uid task)). }
  destruct Hw2 as [Ht2 Hp2]. rewrite <- Ht2, <- Hp2.
  destruct (Js.truthy (wl_wallet link)); [| auto].
  destruct (saveWalletLink_tasks E (telegram_id task) (wl_wallet link) true
              (Some (telegram_id task)) w2) as [Ht3 Hp3].
  now rewrite Ht3, Hp3.
Qed.

(** C7, as amended.  The attempts of a task never decrease, and a call of
    [processSingleTask] that reaches the ownership check raises them by
    exactly one provided the store performs the attempts write:
    (1) over a full cycle, whatever the explorer, the clock and the store
    do, every row keeps its uid and no row loses attempts; (2) a call that
    gets past marking the task processing is the ownership attempt run in
    the world [checkStarts], where -- as at the end of the call -- the
    row's attempts stand exactly one above the task's if the store has
    performed the attempts write, and where the task's stood if the store
    has thrown on it, the exception being passed over and the attempt made
    all the same; (3) on the already-proofed short circuit no attempts
    count changes and nothing is sent to the explorer. *)
Theorem attempts_counted_once E fuel :
  (forall w,
     uniqueUids w ->
     Forall2 (fun r r' => task_uid r' = task_uid r /\ attempts r <= attempts r')
             (proof_tasks w) (proof_tasks (snd (runFullCycle E fuel w)))) /\
  (forall w task cw,
     CHECK_WALLET E = Some cw -> cw <> "" ->
     storeFault E (ticks w) = None ->
     selectByUid (task_uid task) (proof_tasks w) = Some task ->
     let counted :=
       match storeFault E (S (ticks w)) with
       | None => attempts task + 1
       | Some _ => attempts task
       end in
     processSingleTask E fuel task w
     = attemptProof E fuel task cw (attempts task + 1) (checkStarts E task w) /\
     option_map attempts
       (selectByUid (task_uid task) (proof_tasks (checkStarts E task w)))
     = Some counted /\
     option_map attempts
       (selectByUid (task_uid task)
          (proof_tasks (snd (processSingleTask E fuel task w))))
     = Some counted) /\
  (forall w task now link w1,
     now < check_deadline_utc task ->
     getWallet E (telegram_id task) w = (Ret (Some link), w1) ->
     wl_proofed link = true ->
     map attempts (proof_tasks (snd (processPendingTask E fuel now task w)))
     = map attempts (proof_tasks w) /\
     posted (snd (processPendingTask E fuel now task w)) = posted w).
Proof.
  split; [| split].
  - intros w Hnd. eapply Forall2_weaken; [| apply (runFullCycle_rows E fuel w Hnd)].
    intros r r' _ (Hu & Ha & _). auto.
  - intros w task cw Hcw Hne H0 Hsel counted.
    pose proof (processSingleTask_run E fuel task w cw Hcw Hne H0) as Hrun.
    pose proof (selectByUid_checkStarts E task w H0 Hsel) as Hstart.
    assert (Hcounted :
      option_map attempts
        (selectByUid (task_uid task) (proof_tasks (checkStarts E task w)))
      = Some counted).
    { rewrite Hstart. unfold counted. now destruct (storeFault E (S (ticks w))). }
    split; [exact Hrun |]. split; [exact Hcounted |].
    rewrite Hrun.
    destruct (selectByUid_attemptsKept (task_uid task) _ _ _
                (attemptProof_attemptsKept E fuel task cw (attempts task + 1)
                                           (checkStarts E task w)) Hstart)
      as (r' & Hr' & Ha).
    rewrite Hr'. rewrite Hstart in Hcounted. simpl in *. now rewrite Ha.
  - intros w task now link w1. apply shortCircuit_quiet.
Qed.

(** C7 as stated fails when the store throws on the attempts write: the
    exception is caught and logged, the ownership check is invoked all the
    same -- its request is sent, the proof found, the task marked success
    -- and the attempts of the task are what they were. *)
Lemma check_invoked_without_count :
  let E := Sample.env Sample.holding Sample.at1500 (Sample.failingAt 1) in
  let w := Sample.world [Sample.pendingTask] [] in
  let w' := snd (processSingleTask E 2 Sample.pendingTask w) in
  fst (updateProofTaskAttempts E "u1" 1
         (snd (updateProofTaskStatus E "u1" processing noDetails w)))
  = Throw "SQLITE_BUSY" /\
  posted w' = [ReqPrimary Sample.user None] /\
  option_map status (selectByUid "u1" (proof_tasks w')) = Some success /\
  option_map attempts (selectByUid "u1" (proof_tasks w'))
  = Some (attempts Sample.pendingTask).
Proof. repeat split. Qed.

(** ** Settling a task on a negative result *)

Lemma retryLimitMessage_distinct n :
  retryLimitMessage n <> "Deadline passed, proof not found.".
Proof. unfold retryLimitMessage. simpl. discriminate. Qed.

Lemma attemptProof_not_confirmed E fuel task cw n w2 pr w3 :
  storeReliable E ->
  decryptWallet E (wallet_address_encrypted task) <> "" ->
  checkOwnershipAfter E fuel (decryptWallet E (wallet_address_encrypted task))
    (after_timestamp task) (check_deadline_utc task) cw w2 = (Ret pr, w3) ->
  isProofConfirmed pr = false ->
  attemptProof E fuel task cw n w2 =
  let nowUtc := clock E (ticks w3) in
  let w4 := with_ticks (S (ticks w3)) w3 in
  if Z.leb (check_deadline_utc task) nowUtc then
    (Ret tt, statusWritten (task_uid task) expired
               (withErrorMessage "Deadline passed, proof not found.")
               (clock E (ticks w4)) (with_ticks (S (ticks w4)) w4))
  else if Z.leb PROOF_RETRY_LIMIT n then
    (Ret tt, statusWritten (task_uid task) failed_no_tx
               (withErrorMessage (retryLimitMessage n))
               (clock E (ticks w4)) (with_ticks (S (ticks w4)) w4))
  else (Ret tt, w4).
Proof.
  intros Hrel Hdec Hcheck Hno. unfold attemptProof.
  destruct (decryptWallet E (wallet_address_encrypted task)) as [| ch dec] eqn:Hd;
    [congruence |].
  simpl (negb (Js.truthy _)). cbv iota.
  unfold tryCatch, bind. rewrite Hcheck, Hno, dateNowSeconds_run.
  cbv zeta.
  destruct (Z.leb (check_deadline_utc task) (clock E (ticks w3))).
  - now rewrite updateProofTaskStatus_run, Hrel.
  - destruct (Z.leb PROOF_RETRY_LIMIT n).
    + now rewrite updateProofTaskStatus_run, Hrel.
    + reflexivity.
Qed.

(** C3.  When the ownership check of a task returns a result that is not
    confirmed -- the check wallet configured, the wallet decrypted, the
    store performing its writes -- [processSingleTask] returns and leaves
    the task's row with one attempt more and: status expired with the
    message of a passed deadline, if the deadline is at or before the
    clock read after the check; otherwise status failed_no_tx with the
    retry-limit message, if the raised attempts count has reached
    PROOF_RETRY_LIMIT; otherwise status processing with its error message
    untouched, to be taken up by the next cycle.  Expired and failed_no_tx
    are terminal, and their two messages differ whatever the count. *)
Theorem not_confirmed_outcome E fuel task w cw pr w3 :
  storeReliable E ->
  CHECK_WALLET E = Some cw -> cw <> "" ->
  decryptWallet E (wallet_address_encrypted task) <> "" ->
  selectByUid (task_uid task) (proof_tasks w) = Some task ->
  checkOwnershipAfter E fuel (decryptWallet E (wallet_address_encrypted task))
    (after_timestamp task) (check_deadline_utc task) cw (checkStarts E task w)
  = (Ret pr, w3) ->
  isProofConfirmed pr = false ->
  let nowUtc := clock E (ticks w3) in
  let newAttempts := attempts task + 1 in
  exists row,
    fst (processSingleTask E fuel task w) = Ret tt /\
    selectByUid (task_uid task)
      (proof_tasks (snd (processSingleTask E fuel task w))) = Some row /\
    attempts row = newAttempts /\
    (check_deadline_utc task <= nowUtc ->
     status row = expired /\
     error_message row = Some "Deadline passed, proof not found.") /\
    (nowUtc < check_deadline_utc task -> PROOF_RETRY_LIMIT <= newAttempts ->
     status row = failed_no_tx /\
     error_message row = Some (retryLimitMessage newAttempts)) /\
    (nowUtc < check_deadline_utc task -> newAttempts < PROOF_RETRY_LIMIT ->
     status row = processing /\ error_message row = error_message task) /\
    isTerminal expired = true /\ isTerminal failed_no_tx = true /\
    (forall n, retryLimitMessage n <> "Deadline passed, proof not found.").
Proof.
  intros Hrel Hcw Hne Hdec Hsel Hcheck Hno nowUtc newAttempts.
  rewrite (processSingleTask_run E fuel task w cw Hcw Hne (Hrel _)).
  rewrite (attemptProof_not_confirmed E fuel task cw _ _ pr w3 Hrel Hdec Hcheck Hno).
  cbv zeta.
  pose proof (selectByUid_checkStarts E task w (Hrel _) Hsel) as Hstart.
  rewrite Hrel in Hstart.
  pose proof (checkOwnershipAfter_grows E fuel
                (decryptWallet E (wallet_address_encrypted task))
                (after_timestamp task) (check_deadline_utc task) cw
                (checkStarts E task w)) as Hg.
  rewrite Hcheck in Hg. destruct Hg as (Htasks & _).
  simpl in Htasks. rewrite <- Htasks in Hstart.
  subst nowUtc newAttempts.
  destruct (Z.leb (check_deadline_utc task) (clock E (ticks w3))) eqn:Hd.
  - apply Z.leb_le in Hd.
    eexists. split; [reflexivity |]. split.
    { simpl snd. rewrite selectByUid_statusWritten.
      cbn [proof_tasks with_ticks].
      rewrite Hstart. reflexivity. }
    split; [reflexivity |].
    split; [intros _; split; reflexivity |].
    split; [intros; lia |]. split; [intros; lia |].
    split; [reflexivity |]. split; [reflexivity | apply retryLimitMessage_distinct].
  - apply Z.leb_gt in Hd.
    destruct (Z.leb PROOF_RETRY_LIMIT (attempts task + 1)) eqn:Hl.
    + apply Z.leb_le in Hl.
      eexists. split; [reflexivity |]. split.
      { simpl snd. rewrite selectByUid_statusWritten.
        cbn [proof_tasks with_ticks].
        rewrite Hstart. reflexivity. }
      split; [reflexivity |].
      split; [intros; lia |].
      split; [intros _ _; split; reflexivity |]. split; [intros; lia |].
      split; [reflexivity |]. split; [reflexivity | apply retryLimitMessage_distinct].
    + apply Z.leb_gt in Hl.
      eexists. split; [reflexivity |]. split.
      { simpl snd. cbn [proof_tasks with_ticks].
        rewrite Hstart. reflexivity. }
      split; [reflexivity |].
      split; [intros; lia |].
      split; [intros; lia |]. split; [intros _ _; split; reflexivity |].
      split; [reflexivity |]. split; [reflexivity | apply retryLimitMessage_distinct].
Qed.

(** ** Status writes *)

Lemma wrote_refl P w : wrote P w w.
Proof. exists []. split; [reflexivity | constructor]. Qed.

Lemma wrote_trans P a b c : wrote P a b -> wrote P b c -> wrote P a c.
Proof.
  unfold wrote, writtenBetween. intros (w1 & H1 & F1) (w2 & H2 & F2).
  exists (w2 ++ w1). split.
  - now rewrite H2, H1, app_assoc.
  - apply Forall_app. auto.
Qed.

Lemma taskWrite_message uid st d :
  taskWrite st d -> messageOnFailureOrShortCircuit (mkStatusWrite uid st d).
Proof.
  unfold messageOnFailureOrShortCircuit, messageOnlyOnFailure.
  destruct 1; simpl; auto.
Qed.

Lemma runFullCycle_wrote E fuel :
  preserves (wrote messageOnFailureOrShortCircuit) (runFullCycle E fuel).
Proof.
  apply runFullCycle_frame.
  - apply wrote_refl.
  - apply wrote_trans.
  - intros w w' (_ & _ & _ & _ & Hw & _). exists []. split; [exact Hw | constructor].
  - intros w ws. apply (wrote_refl _ w).
  - intros w b. apply (wrote_refl _ w).
  - intros w b. apply (wrote_refl _ w).
  - intros uid w st d now Hw. exists [mkStatusWrite uid st d]. split.
    + reflexivity.
    + constructor; [now apply taskWrite_message | constructor].
  - intros uid n w now. apply (wrote_refl _ w).
Qed.

(** C8, as amended.  Over a full cycle every status write carries an
    errorMessage only together with status error, expired or failed_no_tx
    -- or, on the already-proofed short circuit, together with status
    success and the diagnostic "Wallet already proofed."; the success
    write that records a found transaction carries none.  A status write
    without errorMessage leaves the field of the row as it was. *)
Theorem error_message_with_failure_or_short_circuit E fuel w :
  (exists ws,
     writtenBetween w (snd (runFullCycle E fuel w)) ws /\
     Forall messageOnFailureOrShortCircuit ws) /\
  (forall st d now row,
     errorMessage d = None ->
     error_message (setStatus st d now row) = error_message row) /\
  (forall h, errorMessage (withFoundTxHash h) = None).
Proof.
  split; [apply runFullCycle_wrote |]. split.
  - intros st d now row H. simpl. now rewrite H.
  - reflexivity.
Qed.

(** C8 as stated fails on the already-proofed short circuit: a pending task
    of a user whose wallet link is proofed is written with status success
    together with an errorMessage, and so the row ends. *)
Lemma success_written_with_message :
  let E := Sample.env Sample.empty Sample.at1500 Sample.quiet in
  let w := Sample.world [Sample.pendingTask] [Sample.proofedLink] in
  let w' := snd (runFullCycle E 1 w) in
  written w' = [ {| sw_uid := "u1"; sw_status := success;
                    sw_details := withErrorMessage "Wallet already proofed." |} ] /\
  ~ Forall messageOnlyOnFailure (written w') /\
  exists row,
    selectByUid "u1" (proof_tasks w') = Some row /\
    status row = success /\
    error_message row = Some "Wallet already proofed." /\
    error_message Sample.pendingTask = None.
Proof.
  split; [reflexivity |]. split.
  - intros H. vm_compute in H. inversion H as [| x l Hx _]; subst.
    destruct Hx as [Hx | [Hx | [Hx | Hx]]]; discriminate.
  - eexists. split; [reflexivity |]. repeat split.
Qed.

(** ** Termination and the re-entrancy flags *)

Create HintDb finishes.

Lemma finishes_ret A (a : A) : finishes (ret a).
Proof. intros w. discriminate. Qed.

Lemma finishes_bind A B (m : M A) (k : A -> M B) :
  finishes m -> (forall a, finishes (k a)) -> finishes (bind m k).
Proof.
  intros Hm Hk w. unfold bind. specialize (Hm w).
  destruct (m w) as [[a | msg |] w1]; simpl in *;
    [apply Hk | discriminate | now contradiction Hm].
Qed.

Lemma finishes_tryCatch A (m : M A) (h : string -> M A) :
  finishes m -> (forall msg, finishes (h msg)) -> finishes (tryCatch m h).
Proof.
  intros Hm Hh w. unfold tryCatch. specialize (Hm w).
  destruct (m w) as [[a | msg |] w1]; simpl in *;
    [discriminate | apply Hh | now contradiction Hm].
Qed.

Lemma finishes_forEach A (xs : list A) (body : A -> M unit) :
  (forall x, finishes (body x)) -> finishes (forEach xs body).
Proof.
  intros Hb. induction xs as [| x xs IH]; simpl.
  - apply finishes_ret.
  - apply finishes_bind; auto.
Qed.

Lemma returns_finishes A (m : M A) : returns m -> finishes m.
Proof. intros H w. destruct (H w) as (a & w' & ->). discriminate. Qed.

Lemma finishes_modify f : finishes (modify f).
Proof. intros w. discriminate. Qed.

Lemma finishes_gets A (f : World -> A) : finishes (gets f).
Proof. intros w. discriminate. Qed.

Lemma finishes_throw A msg : finishes (@throw A msg).
Proof. intros w. discriminate. Qed.

Lemma finishes_tick : finishes tick.
Proof. intros w. discriminate. Qed.

#[local] Hint Resolve finishes_ret finishes_modify finishes_gets finishes_throw
  finishes_tick : finishes.

Ltac finishes_tac :=
  repeat first
    [ solve [ eauto 2 with finishes ]
    | apply finishes_bind; [| intros ]
    | apply finishes_tryCatch; [| intros ]
    | match goal with
      | |- finishes (if ?b then _ else _) => destruct b
      | |- finishes (match ?x with _ => _ end) => destruct x
      end ].

Lemma nextCursorOf_more E fb a es pi :
  Js.truthyOpt (nextCursorOf E fb a es pi) = true ->
  exists p, pi = Some p /\ hasNextPage p = true.
Proof.
  unfold nextCursorOf. destruct pi as [p |]; [| discriminate].
  destruct (hasNextPage p) eqn:Hh; [| discriminate]. intros _. now exists p.
Qed.

Section Termination.

Variable E : Env.
Variable K : nat.
Hypothesis history : historyEndsBy E K.

(** Each page costs an event, and after event [K] no page has a successor:
    fuel beyond what is left of [K] is never used up. *)
Lemma pageLoop_finishes fuel u t a d :
  forall c w,
    (1 <= fuel)%nat -> (K < fuel + ticks w)%nat ->
    fst (pageLoop E fuel u t a d c w) <> OutOfFuel.
Proof.
  induction fuel as [| fuel IH]; intros c w Hpos Hk; [lia |].
  simpl. unfold bind.
  destruct (fetchPage_returns E u c w) as (pf & w1 & Hf). rewrite Hf.
  destruct pf as [| [body |] fb]; try discriminate.
  destruct (edgesOf body) as [es |] eqn:He; [| discriminate].
  destruct (scanEdges_returns E fb u t a d es w1) as (r & w2 & Hs). rewrite Hs.
  destruct r as [p |]; [discriminate |].
  destruct (Js.truthyOpt _) eqn:Hn; [| discriminate].
  apply nextCursorOf_more in Hn. destruct Hn as (p & Hp & Hmore).
  destruct (fetchPage_origin _ _ _ _ _ _ _ Hf) as (k & Hkk & Hx).
  pose proof (scanEdges_grows E fb u t a d es w1) as Hg.
  rewrite Hs in Hg. destruct Hg as (_ & _ & _ & _ & _ & Ht & _). simpl in Ht.
  destruct (Nat.le_gt_cases K k) as [Hle | Hgt].
  - rewrite (history k _ body p Hle Hx Hp) in Hmore. discriminate.
  - apply IH; lia.
Qed.

Lemma checkOwnershipAfter_finishes wh a d t :
  finishes (checkOwnershipAfter E (S K) wh a d t).
Proof.
  unfold checkOwnershipAfter, findProofTransactionGraphQL.
  assert (Hp : forall u t' c, finishes (pageLoop E (S K) u t' a d c)).
  { intros u t' c w. apply pageLoop_finishes; lia. }
  finishes_tac.
Qed.

Lemma storeCall_finishes : finishes (storeCall E).
Proof. unfold storeCall. finishes_tac. Qed.

#[local] Hint Resolve storeCall_finishes checkOwnershipAfter_finishes : finishes.

Lemma dateNowSeconds_finishes : finishes (dateNowSeconds E).
Proof. unfold dateNowSeconds. finishes_tac. Qed.

Lemma updateProofTaskStatus_finishes uid st d :
  finishes (updateProofTaskStatus E uid st d).
Proof. unfold updateProofTaskStatus. finishes_tac. Qed.

Lemma updateProofTaskAttempts_finishes uid n :
  finishes (updateProofTaskAttempts E uid n).
Proof. unfold updateProofTaskAttempts. finishes_tac. Qed.

Lemma saveWalletLink_finishes tg wa b raw : finishes (saveWalletLink E tg wa b raw).
Proof. unfold saveWalletLink. finishes_tac. Qed.

Lemma getWallet_finishes tg : finishes (getWallet E tg).
Proof. unfold getWallet. finishes_tac. Qed.

#[local] Hint Resolve dateNowSeconds_finishes updateProofTaskStatus_finishes
  updateProofTaskAttempts_finishes saveWalletLink_finishes getWallet_finishes
  : finishes.

Lemma attemptProof_finishes task cw n : finishes (attemptProof E (S K) task cw n).
Proof. unfold attemptProof. finishes_tac. Qed.

#[local] Hint Resolve attemptProof_finishes : finishes.

Lemma processSingleTask_finishes task : finishes (processSingleTask E (S K) task).
Proof. unfold processSingleTask. finishes_tac. Qed.

#[local] Hint Resolve processSingleTask_finishes : finishes.

Lemma processPendingTask_finishes now task :
  finishes (processPendingTask E (S K) now task).
Proof. unfold processPendingTask. finishes_tac. Qed.

Lemma findProcessableTasks_finishes n : finishes (findProcessableTasks E n).
Proof. unfold findProcessableTasks. finishes_tac. Qed.

Lemma workBody_finishes :
  finishes (bind (dateNowSeconds E)
              (fun now => bind (findProcessableTasks E 10)
                 (fun tasks => forEach tasks (processPendingTask E (S K) now)))).
Proof.
  apply finishes_bind; [apply dateNowSeconds_finishes | intros now].
  apply finishes_bind; [apply findProcessableTasks_finishes | intros tasks].
  apply finishes_forEach. intros task. apply processPendingTask_finishes.
Qed.

End Termination.

Lemma expireTask_finishes E task : finishes (expireTask E task).
Proof.
  unfold expireTask. destruct (isActive (status task)).
  - apply (updateProofTaskStatus_finishes E).
  - apply finishes_ret.
Qed.

Lemma reapBody_finishes E :
  finishes (bind (dateNowSeconds E)
              (fun nowUtc => bind (getStuckAndExpiredTasks E nowUtc)
                 (fun tasks => forEach tasks (expireTask E)))).
Proof.
  apply finishes_bind; [apply dateNowSeconds_finishes | intros now].
  apply finishes_bind.
  - unfold getStuckAndExpiredTasks.
    apply finishes_bind; [apply storeCall_finishes | intros k].
    apply finishes_bind; [apply finishes_gets | intros rows]. apply finishes_ret.
  - intros tasks. apply finishes_forEach. intros task. apply expireTask_finishes.
Qed.

Lemma flagsKept_refl w : flagsKept w w.
Proof. now split. Qed.

Lemma flagsKept_trans a b c : flagsKept a b -> flagsKept b c -> flagsKept a c.
Proof. unfold flagsKept. intros [] []. split; congruence. Qed.

Lemma flagsKept_grows w w' : grows w w' -> flagsKept w w'.
Proof. intros (_ & _ & Hp & Hc & _). now split. Qed.

Lemma reapBody_flagsKept E :
  preserves flagsKept
    (bind (dateNowSeconds E)
       (fun nowUtc => bind (getStuckAndExpiredTasks E nowUtc)
          (fun tasks => forEach tasks (expireTask E)))).
Proof.
  apply (preserves_bind _ flagsKept_trans).
  - apply (preserves_weaken grows); [apply flagsKept_grows | apply dateNowSeconds_grows].
  - intros nowUtc. apply (preserves_bind _ flagsKept_trans).
    + apply getStuckAndExpiredTasks_frame;
        [apply flagsKept_refl | apply flagsKept_trans | apply flagsKept_grows].
    + intros tasks. apply (preserves_forEach _ flagsKept_refl flagsKept_trans).
      intros task _. apply expireTask_frame;
        [apply flagsKept_refl | apply flagsKept_trans | apply flagsKept_grows |].
      intros w st d now _. now split.
Qed.

Lemma workBody_flagsKept E fuel :
  preserves flagsKept
    (bind (dateNowSeconds E)
       (fun now => bind (findProcessableTasks E 10)
          (fun tasks => forEach tasks (processPendingTask E fuel now)))).
Proof.
  apply (preserves_bind _ flagsKept_trans).
  - apply (preserves_weaken grows); [apply flagsKept_grows | apply dateNowSeconds_grows].
  - intros now. apply (preserves_bind _ flagsKept_trans).
    + apply findProcessableTasks_frame;
        [apply flagsKept_refl | apply flagsKept_trans | apply flagsKept_grows].
    + intros tasks. apply (preserves_forEach _ flagsKept_refl flagsKept_trans).
      intros task _. apply processPendingTask_frame;
        [apply flagsKept_refl | apply flagsKept_trans | apply flagsKept_grows | | |].
      * intros w ws. now split.
      * intros w st d now' _. now split.
      * intros w now'. now split.
Qed.

Lemma handleStuckOrExpiredTasks_resets E w :
  isCleaningUp w = false ->
  exists w',
    handleStuckOrExpiredTasks E w = (Ret tt, w') /\
    isCleaningUp w' = false /\
    isProcessingCycle w' = isProcessingCycle w.
Proof.
  intros Hflag. rewrite handleStuckOrExpiredTasks_run, Hflag.
  pose proof (reapBody_finishes E (with_isCleaningUp true w)) as Hfin.
  pose proof (reapBody_flagsKept E (with_isCleaningUp true w)) as [Hp _].
  destruct (bind _ _ (with_isCleaningUp true w)) as [[[] | msg |] w1];
    simpl in *; try (now contradiction Hfin);
    eexists; (split; [reflexivity |]); split; auto.
Qed.

Lemma processPendingTasks_cases E fuel w :
  isProcessingCycle w = false ->
  fst (processPendingTasks E fuel w) = OutOfFuel \/
  exists w',
    processPendingTasks E fuel w = (Ret tt, w') /\
    isProcessingCycle w' = false /\
    isCleaningUp w' = isCleaningUp w.
Proof.
  intros Hflag. rewrite processPendingTasks_run, Hflag.
  pose proof (workBody_flagsKept E fuel (with_isProcessingCycle true w)) as [_ Hc].
  destruct (bind _ _ (with_isProcessingCycle true w)) as [[[] | msg |] w1];
    simpl in *; [right | right | left; reflexivity];
    eexists; (split; [reflexivity |]); split; auto.
Qed.

Lemma processPendingTasks_resets E K w :
  historyEndsBy E K ->
  isProcessingCycle w = false ->
  exists w',
    processPendingTasks E (S K) w = (Ret tt, w') /\
    isProcessingCycle w' = false /\
    isCleaningUp w' = isCleaningUp w.
Proof.
  intros Hhist Hflag.
  destruct (processPendingTasks_cases E (S K) w Hflag) as [Hout | H]; [| exact H].
  exfalso. rewrite processPendingTasks_run, Hflag in Hout.
  pose proof (workBody_finishes E K Hhist (with_isProcessingCycle true w)) as Hfin.
  destruct (bind _ _ (with_isProcessingCycle true w)) as [[[] | msg |] w1];
    simpl in *; try discriminate. now contradiction Hfin.
Qed.

Lemma runCycles_resets E K n :
  historyEndsBy E K ->
  forall w,
    isCleaningUp w = false -> isProcessingCycle w = false ->
    exists w',
      runCycles E (S K) n w = (Ret tt, w') /\
      isCleaningUp w' = false /\ isProcessingCycle w' = false.
Proof.
  intros Hhist. induction n as [| n IH]; intros w Hc Hp; simpl runCycles.
  - exists w. auto.
  - destruct (handleStuckOrExpiredTasks_resets E w Hc) as (w1 & H1 & Hc1 & Hp1).
    rewrite Hp in Hp1.
    destruct (processPendingTasks_resets E K w1 Hhist Hp1) as (w2 & H2 & Hp2 & Hc2).
    rewrite Hc1 in Hc2.
    destruct (IH w2 Hc2 Hp2) as (w3 & H3 & Hc3 & Hp3).
    exists w3. split; [| auto].
    unfold runFullCycle, bind. rewrite H1, H2. exact H3.
Qed.

(** C10.  A phase that is entered -- its flag down -- ends with its flag
    down again and the other phase's flag as it was, exceptions of the
    body included, since every behaviour of the store is covered: (1) the
    reap phase always returns so; (2) the work phase, at any fuel, either
    has not come to its end or has returned so; (3) it does return so once
    the explorer's history ends, that is when from some event on no page
    reports a successor; (4) hence, from a state with both flags down,
    any number of cycles ends with both flags down, and no later tick
    finds a phase locked. *)
Theorem reentrancy_flags_reset E :
  (forall w,
     isCleaningUp w = false ->
     exists w',
       handleStuckOrExpiredTasks E w = (Ret tt, w') /\
       isCleaningUp w' = false /\
       isProcessingCycle w' = isProcessingCycle w) /\
  (forall fuel w,
     isProcessingCycle w = false ->
     fst (processPendingTasks E fuel w) = OutOfFuel \/
     exists w',
       processPendingTasks E fuel w = (Ret tt, w') /\
       isProcessingCycle w' = false /\
       isCleaningUp w' = isCleaningUp w) /\
  (forall K w,
     historyEndsBy E K ->
     isProcessingCycle w = false ->
     exists w',
       processPendingTasks E (S K) w = (Ret tt, w') /\
       isProcessingCycle w' = false /\
       isCleaningUp w' = isCleaningUp w) /\
  (forall K n w,
     historyEndsBy E K ->
     isCleaningUp w = false -> isProcessingCycle w = false ->
     exists w',
       runCycles E (S K) n w = (Ret tt, w') /\
       isCleaningUp w' = false /\ isProcessingCycle w' = false).
Proof.
  split; [apply handleStuckOrExpiredTasks_resets |].
  split; [apply processPendingTasks_cases |].
  split; [intros K w; apply processPendingTasks_resets |].
  intros K n w Hhist. now apply runCycles_resets.
Qed.

(* ===================================================================== *)
(** * The properties at work on the sample data *)
(* ===================================================================== *)

(** Scenario 1 of the specification: the explorer holds the transaction,
    the check confirms, and the confirmed hash is that of a transaction
    satisfying the four clauses. *)
Lemma locator_reports_first_match_witness :
  exists r w',
    checkOwnershipAfter (Sample.env Sample.holding Sample.at1500 Sample.quiet)
      1 Sample.user 1000 1900 Sample.target (Sample.world [] [])
    = (Ret r, w') /\
    isProofConfirmed r = true /\
    exists k req body es n ts fb wa,
      explorer (Sample.env Sample.holding Sample.at1500 Sample.quiet) k req
      = HttpOk body /\
      edgesOf body = Some es /\ In (Some n) es /\
      resolveTimestamp (Sample.env Sample.holding Sample.at1500 Sample.quiet)
                       fb n wa = (Ret (Some ts), w') /\
      fourClauses (Js.toLowerCase (Js.trim Sample.user)) Sample.target
                  1000 1900 n ts /\
      txHash r = Some (hash n).
Proof.
  eexists _, _. split; [reflexivity |]. split; [reflexivity |].
  eapply (proj2 (proj2 (proj2
            (locator_reports_first_match
               (Sample.env Sample.holding Sample.at1500 Sample.quiet)
               Sample.target 1000 1900)))
            1%nat Sample.user (Sample.world [] []));
    reflexivity.
Defined.

(** A wallet that is no address is turned away before any request. *)
Lemma invalid_input_not_confirmed_witness :
  isValidEvmAddress (Js.toLowerCase (Js.trim "not-an-address")) = false /\
  exists reason,
    reason <> "" /\
    checkOwnershipAfter (Sample.env Sample.holding Sample.at1500 Sample.quiet)
      0 "not-an-address" 1000 1900 Sample.target (Sample.world [] [])
    = (Ret {| isProofConfirmed := false; txHash := None;
              pr_error := Some reason |}, Sample.world [] []).
Proof.
  split; [reflexivity |].
  apply invalid_input_not_confirmed. left. reflexivity.
Defined.

(** Scenario 4 of the specification: the primary query answers HTTP 500,
    the fallback query is sent for the same page. *)
Lemma fallback_on_server_error_witness :
  explorer (Sample.env Sample.primaryBroken Sample.at1500 Sample.quiet) 0
           (ReqPrimary Sample.user None) = HttpError (Some 500) /\
  fetchPage (Sample.env Sample.primaryBroken Sample.at1500 Sample.quiet)
            Sample.user None (Sample.world [] [])
  = fallbackPhase (Sample.env Sample.primaryBroken Sample.at1500 Sample.quiet)
                  Sample.user None
                  (sentN (ReqPrimary Sample.user None) 1 (Sample.world [] [])) /\
  exists l,
    posted (snd (fetchPage
                   (Sample.env Sample.primaryBroken Sample.at1500 Sample.quiet)
                   Sample.user None (Sample.world [] [])))
    = l ++ ReqFallback Sample.user None
           :: posted (sentN (ReqPrimary Sample.user None) 1 (Sample.world [] [])).
Proof.
  split; [reflexivity |].
  destruct (proj1 (fallback_on_server_error
                     (Sample.env Sample.primaryBroken Sample.at1500 Sample.quiet)
                     Sample.user None (Sample.world [] []))
                  0%nat) as (H1 & H2 & _).
  - unfold MAX_API_CALL_ATTEMPTS. lia.
  - intros i Hi. lia.
  - left. reflexivity.
  - split; [exact H1 | exact H2].
Defined.

Lemma sample_three_unique :
  uniqueUids (Sample.world [Sample.pendingTask; Sample.expiredTask;
                            Sample.dueNowTask] []).
Proof.
  unfold uniqueUids. simpl.
  repeat (constructor; [simpl; intuition discriminate |]). constructor.
Defined.

(** An expired task is found unchanged after three cycles in which the
    pending task beside it is processed. *)
Lemma terminal_tasks_never_mutated_witness :
  isTerminal (status Sample.expiredTask) = true /\
  In Sample.expiredTask
     (proof_tasks
        (snd (runCycles (Sample.env Sample.holding Sample.at1500 Sample.quiet)
                        2 3
                        (Sample.world [Sample.pendingTask; Sample.expiredTask;
                                       Sample.dueNowTask] [])))).
Proof.
  split; [reflexivity |].
  apply (proj1 (terminal_tasks_never_mutated
                  (Sample.env Sample.holding Sample.at1500 Sample.quiet) 2)
               3%nat _ Sample.expiredTask sample_three_unique).
  - right. left. reflexivity.
  - reflexivity.
Defined.

(** A processing task whose deadline is second 1500 is left alone by a
    cycle run at second 1500. *)
Lemma deadline_second_left_alone_witness :
  isActive (status Sample.dueNowTask) = true /\
  In Sample.dueNowTask
     (proof_tasks
        (snd (runFullCycle (Sample.env Sample.holding Sample.at1500 Sample.quiet)
                           2
                           (Sample.world [Sample.pendingTask; Sample.expiredTask;
                                          Sample.dueNowTask] [])))).
Proof.
  split; [reflexivity |].
  apply (deadline_second_left_alone
           (Sample.env Sample.holding Sample.at1500 Sample.quiet) 2 _
           Sample.dueNowTask sample_three_unique).
  - right. right. left. reflexivity.
  - intros k _. reflexivity.
Defined.

Lemma sample_store_reliable ex now : storeReliable (Sample.env ex now Sample.quiet).
Proof. intros k. reflexivity. Defined.

(** A task at six attempts stands at seven when its check starts and when
    the call is over. *)
Lemma attempts_counted_once_witness :
  option_map attempts
    (selectByUid "u3"
       (proof_tasks
          (snd (processSingleTask
                  (Sample.env Sample.empty Sample.at1500 Sample.quiet) 2
                  Sample.lastAttemptTask
                  (Sample.world [Sample.lastAttemptTask] [])))))
  = Some 7.
Proof.
  apply (proj2 (proj2
           (proj1 (proj2 (attempts_counted_once
                            (Sample.env Sample.empty Sample.at1500 Sample.quiet) 2))
                  (Sample.world [Sample.lastAttemptTask] [])
                  Sample.lastAttemptTask Sample.target
                  eq_refl ltac:(discriminate) eq_refl eq_refl))).
Defined.

(** Scenario 2 of the specification: nothing found, deadline not reached,
    seventh attempt: the task fails for want of a transaction. *)
Lemma not_confirmed_outcome_witness :
  exists row,
    selectByUid "u3"
      (proof_tasks
         (snd (processSingleTask
                 (Sample.env Sample.empty Sample.at1500 Sample.quiet) 2
                 Sample.lastAttemptTask
                 (Sample.world [Sample.lastAttemptTask] [])))) = Some row /\
    status row = failed_no_tx /\
    error_message row = Some "Max retry limit (7) reached. Attempts: 7".
Proof.
  destruct (not_confirmed_outcome
              (Sample.env Sample.empty Sample.at1500 Sample.quiet) 2
              Sample.lastAttemptTask (Sample.world [Sample.lastAttemptTask] [])
              Sample.target
              (notConfirmed "Proof transaction not found via GraphQL")
              (sentN (ReqPrimary Sample.user None) 1
                 (checkStarts (Sample.env Sample.empty Sample.at1500 Sample.quiet)
                    Sample.lastAttemptTask
                    (Sample.world [Sample.lastAttemptTask] [])))
              (sample_store_reliable _ _) eq_refl)
    as (row & _ & Hrow & _ & _ & Hfailed & _).
  - discriminate.
  - discriminate.
  - reflexivity.
  - reflexivity.
  - reflexivity.
  - exists row. split; [exact Hrow |].
    apply Hfailed.
    + vm_compute. reflexivity.
    + vm_compute. discriminate.
Defined.

(** A status write without message keeps the message of the row. *)
Lemma error_message_with_failure_or_short_circuit_witness :
  errorMessage (withFoundTxHash (Some "0xfeed")) = None /\
  error_message (setStatus success (withFoundTxHash (Some "0xfeed")) 1500
                           Sample.pendingTask)
  = error_message Sample.pendingTask.
Proof.
  split; [reflexivity |].
  apply (proj1 (proj2 (error_message_with_failure_or_short_circuit
                         (Sample.env Sample.empty Sample.at1500 Sample.quiet) 1
                         (Sample.world [] [])))).
  reflexivity.
Defined.

Lemma sample_history_ends now fault :
  historyEndsBy (Sample.env Sample.empty now fault) 0.
Proof.
  intros k req body p _ Hx Hp. unfold Sample.env, Sample.empty, Sample.page in Hx.
  simpl in Hx. inversion Hx; subst. simpl in Hp. inversion Hp; subst. reflexivity.
Defined.

(** The store fails under the reap query, or under the work query; the
    exception is caught and the phase ends with its flag down. *)
Lemma reentrancy_flags_reset_witness :
  (fst (getStuckAndExpiredTasks
          (Sample.env Sample.empty Sample.at1500 (Sample.failingAt 1)) 1500
          (with_ticks 1 (Sample.world [Sample.pendingTask] [])))
   = Throw "SQLITE_BUSY" /\
   exists w',
     handleStuckOrExpiredTasks
       (Sample.env Sample.empty Sample.at1500 (Sample.failingAt 1))
       (Sample.world [Sample.pendingTask] [])
     = (Ret tt, w') /\
     isCleaningUp w' = false /\
     isProcessingCycle w' = false) /\
  (fst (findProcessableTasks
          (Sample.env Sample.empty Sample.at1500 (Sample.failingAt 2)) 10
          (with_ticks 1 (Sample.world [Sample.pendingTask] [])))
   = Throw "SQLITE_BUSY" /\
   exists w',
     processPendingTasks
       (Sample.env Sample.empty Sample.at1500 (Sample.failingAt 2)) 1
       (Sample.world [Sample.pendingTask] [])
     = (Ret tt, w') /\
     isProcessingCycle w' = false /\
     isCleaningUp w' = false).
Proof.
  split; (split; [reflexivity |]).
  - apply (proj1 (reentrancy_flags_reset
                    (Sample.env Sample.empty Sample.at1500 (Sample.failingAt 1)))
                 (Sample.world [Sample.pendingTask] []) eq_refl).
  - apply (proj1 (proj2 (proj2 (reentrancy_flags_reset
                    (Sample.env Sample.empty Sample.at1500 (Sample.failingAt 2)))))
                 0%nat (Sample.world [Sample.pendingTask] [])
                 (sample_history_ends _ _) eq_refl).
Defined.

(* ===================================================================== *)
(** * Further properties *)
(* ===================================================================== *)

(** ** Addresses and their normal form *)

Lemma lowerChar_idempotent c : Js.lowerChar (Js.lowerChar c) = Js.lowerChar c.
Proof. destruct c as [[] [] [] [] [] [] [] []]; reflexivity. Qed.

Lemma toLowerCase_idempotent s :
  Js.toLowerCase (Js.toLowerCase s) = Js.toLowerCase s.
Proof.
  induction s as [| c s IH]; simpl; [reflexivity |].
  now rewrite lowerChar_idempotent, IH.
Qed.

Lemma lowerChar_hex c : isHexDigit c = true -> isHexDigit (Js.lowerChar c) = true.
Proof. destruct c as [[] [] [] [] [] [] [] []]; vm_compute; congruence. Qed.

Lemma hex_not_space c : isHexDigit c = true -> Js.isSpace c = false.
Proof. destruct c as [[] [] [] [] [] [] [] []]; vm_compute; congruence. Qed.

Lemma lowerChar_space c : Js.lowerChar c = " "%char -> c = " "%char.
Proof. destruct c as [[] [] [] [] [] [] [] []]; vm_compute; congruence. Qed.

Lemma toLowerCase_length s : String.length (Js.toLowerCase s) = String.length s.
Proof. induction s as [| c s IH]; simpl; congruence. Qed.

Lemma allHex_lower s : allHex s = true -> allHex (Js.toLowerCase s) = true.
Proof.
  induction s as [| c s IH]; simpl; auto.
  intros H. apply andb_true_iff in H as [Hc Hs].
  now rewrite lowerChar_hex, IH.
Qed.

(** A string of hexadecimal digits has no trailing white space to drop. *)
Lemma trimEnd_hex s : allHex s = true -> Js.trimEnd s = s.
Proof.
  induction s as [| c s IH]; simpl; auto.
  intros H. apply andb_true_iff in H as [Hc Hs].
  rewrite (IH Hs). destruct s; [| reflexivity].
  now rewrite (hex_not_space c Hc).
Qed.

Lemma valid_shape a :
  isValidEvmAddress a = true ->
  exists digits,
    a = String "0" (String "x" digits) /\
    String.length digits = 40%nat /\ allHex digits = true.
Proof.
  unfold isValidEvmAddress.
  destruct a as [| c0 [| c1 digits]]; try discriminate;
    try (destruct c0 as [[] [] [] [] [] [] [] []]; discriminate).
  destruct (Ascii.eqb c0 "0") eqn:H0; [| now destruct c0 as [[] [] [] [] [] [] [] []]].
  destruct (Ascii.eqb c1 "x") eqn:H1;
    [| apply Ascii.eqb_eq in H0; subst c0;
       now destruct c1 as [[] [] [] [] [] [] [] []]].
  apply Ascii.eqb_eq in H0, H1. subst c0 c1.
  intros H. apply andb_true_iff in H as [Hlen Hhex].
  apply Nat.eqb_eq in Hlen. now exists digits.
Qed.

Lemma trim_valid a : isValidEvmAddress a = true -> Js.trim a = a.
Proof.
  intros H. destruct (valid_shape a H) as (digits & -> & _ & Hhex).
  unfold Js.trim. simpl Js.trimStart.
  change (Js.trimEnd (String "0" (String "x" digits)))
    with (match (match Js.trimEnd digits with
                 | EmptyString => String "x" EmptyString
                 | t => String "x" t
                 end) with
          | EmptyString => String "0" EmptyString
          | t => String "0" t
          end).
  rewrite (trimEnd_hex digits Hhex). now destruct digits.
Qed.

Lemma toLowerCase_valid a :
  isValidEvmAddress a = true -> isValidEvmAddress (Js.toLowerCase a) = true.
Proof.
  intros H. destruct (valid_shape a H) as (digits & -> & Hlen & Hhex).
  simpl. rewrite toLowerCase_length, Hlen, (allHex_lower digits Hhex).
  reflexivity.
Qed.

(** X1.  An address that [isValidEvmAddress] accepts has 42 characters,
    carries no white space to trim, and stays valid when it is put in
    lower case; and an address that was normalised with [trim] and
    [toLowerCase] before it was validated -- as the routes do -- is left as
    it is by every further normalisation, that of [createProofTask], of
    [encryptWallet] and of [checkOwnershipAfter] included. *)
Theorem valid_address_normal_form (a : string) :
  isValidEvmAddress a = true ->
  String.length a = 42%nat /\
  Js.trim a = a /\
  isValidEvmAddress (Js.toLowerCase (Js.trim a)) = true /\
  (forall x, a = Js.toLowerCase (Js.trim x) ->
     Js.toLowerCase a = a /\ Js.toLowerCase (Js.trim a) = a /\
     walletToEncrypt a = a).
Proof.
  intros H. split; [| split; [| split]].
  - destruct (valid_shape a H) as (digits & -> & Hlen & _). simpl. now rewrite Hlen.
  - now apply trim_valid.
  - rewrite (trim_valid a H). now apply toLowerCase_valid.
  - intros x Hx.
    assert (Hlow : Js.toLowerCase a = a).
    { rewrite Hx. apply toLowerCase_idempotent. }
    assert (Hnorm : Js.toLowerCase (Js.trim a) = a).
    { now rewrite (trim_valid a H). }
    repeat split; auto.
    unfold walletToEncrypt. rewrite Hnorm.
    destruct (valid_shape a H) as (digits & -> & _). reflexivity.
Qed.

Lemma valid_address_normal_form_witness :
  String.length Sample.target = 42%nat /\
  Js.trim Sample.target = Sample.target /\
  isValidEvmAddress (Js.toLowerCase (Js.trim Sample.target)) = true.
Proof.
  destruct (valid_address_normal_form Sample.target eq_refl) as (H1 & H2 & H3 & _).
  repeat split; assumption.
Defined.

(** ** crypto.ts: the round trip *)

Lemma trimEnd_single s c : Js.trimEnd s = String c EmptyString -> Js.isSpace c = false.
Proof.
  destruct s as [| c0 s']; simpl; [discriminate |].
  destruct (Js.trimEnd s') as [| c1 t].
  - destruct (Js.isSpace c0) eqn:Hs; [discriminate |].
    intros H. now inversion H; subst.
  - discriminate.
Qed.

Lemma normalized_not_blank wallet : Js.toLowerCase (Js.trim wallet) <> " ".
Proof.
  unfold Js.trim. intros H.
  destruct (Js.trimEnd (Js.trimStart wallet)) as [| c [| c' t]] eqn:Ht;
    simpl in H; try discriminate.
  inversion H as [Hc]. apply lowerChar_space in Hc. subst c.
  apply trimEnd_single in Ht. discriminate.
Qed.

(** X2.  [decryptWallet] undoes [encryptWallet]: a ciphertext that AES
    decrypts to what [encryptWallet] hands to AES for a wallet -- the
    wallet trimmed and in lower case, or one blank when nothing is left of
    it -- is decrypted to the trimmed, lower-case wallet, the empty string
    in the blank case. *)
Theorem decryptWallet_inverts_encryptWallet E (wallet cipher : string) :
  cipher <> "" ->
  aesDecrypt E cipher = Some (walletToEncrypt wallet) ->
  decryptWallet E cipher = Js.toLowerCase (Js.trim wallet).
Proof.
  intros Hne Hdec. unfold decryptWallet.
  destruct cipher as [| c cipher]; [congruence |].
  simpl negb. cbv iota. rewrite Hdec. unfold walletToEncrypt.
  destruct (Js.toLowerCase (Js.trim wallet)) as [| n ns] eqn:Hn; simpl Js.truthy; cbv iota.
  - reflexivity.
  - destruct (String.eqb (String n ns) " ") eqn:Heq; [| reflexivity].
    apply String.eqb_eq in Heq. exfalso.
    apply (normalized_not_blank wallet). congruence.
Qed.

(** A wallet typed with capitals and blanks around it comes back trimmed
    and in lower case; a blank one comes back empty. *)
Lemma decryptWallet_inverts_encryptWallet_witness :
  decryptWallet Scenario.env (walletToEncrypt "  0xAbCd ") = "0xabcd" /\
  decryptWallet Scenario.env (walletToEncrypt "   ") = "".
Proof.
  split.
  - apply (decryptWallet_inverts_encryptWallet Scenario.env "  0xAbCd "
             (walletToEncrypt "  0xAbCd ")); [discriminate | reflexivity].
  - apply (decryptWallet_inverts_encryptWallet Scenario.env "   "
             (walletToEncrypt "   ")); [discriminate | reflexivity].
Defined.

(** ** db.ts: runs of the further store functions *)

Lemma createProofTask_run E uid tg wa a d w :
  createProofTask E uid tg wa a d w =
  match storeFault E (ticks w) with
  | Some message => (Throw message, with_ticks (S (ticks w)) w)
  | None =>
      match selectByUid uid (proof_tasks w) with
      | Some _ =>
          (Throw "UNIQUE constraint failed: proof_tasks.task_uid",
           with_ticks (S (ticks w)) w)
      | None =>
          (Ret tt,
           with_tasks
             (proof_tasks w ++
                [newProofTask uid tg (encryptWallet E (Js.toLowerCase wa)) a d
                              (clock E (ticks w))])
             (with_ticks (S (ticks w)) w))
      end
  end.
Proof.
  unfold createProofTask. unfold bind at 1. rewrite storeCall_run.
  destruct (storeFault E (ticks w)); auto.
  unfold bind, gets. simpl.
  now destruct (selectByUid uid (proof_tasks w)).
Qed.

Lemma getProofTaskByUid_run E uid w :
  getProofTaskByUid E uid w =
  match storeFault E (ticks w) with
  | Some message => (Throw message, with_ticks (S (ticks w)) w)
  | None => (Ret (selectByUid uid (proof_tasks w)), with_ticks (S (ticks w)) w)
  end.
Proof.
  unfold getProofTaskByUid. unfold bind at 1. rewrite storeCall_run.
  now destruct (storeFault E (ticks w)).
Qed.

Lemma getActiveProofTaskByTelegramId_run E tg w :
  getActiveProofTaskByTelegramId E tg w =
  (Ret (match storeFault E (ticks w) with
        | Some _ => None
        | None => newestFirst (filter (isActiveOf tg) (proof_tasks w))
        end),
   with_ticks (S (ticks w)) w).
Proof.
  unfold getActiveProofTaskByTelegramId, tryCatch. unfold bind at 1.
  rewrite storeCall_run.
  now destruct (storeFault E (ticks w)).
Qed.

Lemma deleteNonFinalizedProofTasksByTelegramId_run E tg w :
  deleteNonFinalizedProofTasksByTelegramId E tg w =
  match storeFault E (ticks w) with
  | Some message => (Throw message, with_ticks (S (ticks w)) w)
  | None =>
      (Ret (List.length (filter (isActiveOf tg) (proof_tasks w))),
       with_tasks (filter (fun t => negb (isActiveOf tg t)) (proof_tasks w))
                  (with_ticks (S (ticks w)) w))
  end.
Proof.
  unfold deleteNonFinalizedProofTasksByTelegramId. unfold bind at 1.
  rewrite storeCall_run.
  now destruct (storeFault E (ticks w)).
Qed.

Lemma unlinkWallet_run E tg w :
  unlinkWallet E tg w =
  match storeFault E (ticks w) with
  | Some message => (Throw message, with_ticks (S (ticks w)) w)
  | None =>
      (Ret (Nat.ltb 0 (List.length
                         (filter (fun r => String.eqb (telegram_id_hash r)
                                                      (hashTelegramId E tg))
                                 (wallets w)))),
       with_wallets (filter (fun r => negb (String.eqb (telegram_id_hash r)
                                                       (hashTelegramId E tg)))
                            (wallets w))
                    (with_ticks (S (ticks w)) w))
  end.
Proof.
  unfold unlinkWallet. unfold bind at 1. rewrite storeCall_run.
  now destruct (storeFault E (ticks w)).
Qed.

Lemma saveWalletLink_run E tg wa p raw w :
  saveWalletLink E tg wa p raw w =
  match storeFault E (ticks w) with
  | Some message => (Throw message, with_ticks (S (ticks w)) w)
  | None =>
      (Ret tt,
       with_wallets
         (upsertWallet
            {| telegram_id_hash := hashTelegramId E tg;
               raw_telegram_id :=
                 if Js.truthyOpt raw
                 then match raw with Some r => r | None => tg end
                 else tg;
               wallet_hash := hashWallet E (Js.toLowerCase wa);
               wallet_encrypted := encryptWallet E (Js.toLowerCase wa);
               proofed := if p then 1 else 0 |}
            (wallets w))
         (with_ticks (S (ticks w)) w))
  end.
Proof.
  unfold saveWalletLink. unfold bind at 1. rewrite storeCall_run.
  now destruct (storeFault E (ticks w)).
Qed.

(** ** Look-ups in the two tables *)

Lemma selectByUid_absent uid rows :
  selectByUid uid rows = None -> ~ In uid (map task_uid rows).
Proof.
  unfold selectByUid. intros Hnone Hin.
  apply in_map_iff in Hin as (t & Ht & Hin).
  apply (find_none _ _ Hnone) in Hin. simpl in Hin.
  rewrite Ht, String.eqb_refl in Hin. discriminate.
Qed.

Lemma selectByUid_appended uid uid' rows t :
  task_uid t = uid ->
  selectByUid uid' (rows ++ [t]) =
  match selectByUid uid' rows with
  | Some r => Some r
  | None => if String.eqb uid uid' then Some t else None
  end.
Proof.
  intros Ht. unfold selectByUid.
  induction rows as [| r rows IH]; simpl.
  - now rewrite Ht.
  - destruct (String.eqb (task_uid r) uid'); auto.
Qed.

Lemma linkOf_upsert h row ws :
  linkOf h (upsertWallet row ws) =
  if String.eqb (telegram_id_hash row) h then Some row else linkOf h ws.
Proof.
  unfold linkOf. induction ws as [| r ws IH]; simpl.
  - reflexivity.
  - destruct (String.eqb (telegram_id_hash r) (telegram_id_hash row)) eqn:Hr; simpl.
    + apply String.eqb_eq in Hr. rewrite Hr.
      now destruct (String.eqb (telegram_id_hash row) h).
    + destruct (String.eqb (telegram_id_hash r) h) eqn:Hh.
      * apply String.eqb_eq in Hh. subst h.
        rewrite String.eqb_sym, Hr. reflexivity.
      * exact IH.
Qed.

Lemma hashes_upsert row ws :
  map telegram_id_hash (upsertWallet row ws) =
  if existsb (fun r => String.eqb (telegram_id_hash r) (telegram_id_hash row)) ws
  then map telegram_id_hash ws
  else map telegram_id_hash ws ++ [telegram_id_hash row].
Proof.
  induction ws as [| r ws IH]; simpl; [reflexivity |].
  destruct (String.eqb (telegram_id_hash r) (telegram_id_hash row)) eqn:Hr; simpl.
  - apply String.eqb_eq in Hr. now rewrite Hr.
  - rewrite IH. now destruct (existsb _ ws).
Qed.

Lemma linkOf_filtered h h' ws :
  linkOf h (filter (fun r => negb (String.eqb (telegram_id_hash r) h')) ws) =
  if String.eqb h h' then None else linkOf h ws.
Proof.
  unfold linkOf. induction ws as [| r ws IH]; simpl.
  - now destruct (String.eqb h h').
  - destruct (String.eqb (telegram_id_hash r) h') eqn:Hr; simpl.
    + rewrite IH. destruct (String.eqb h h') eqn:Hh; auto.
      destruct (String.eqb (telegram_id_hash r) h) eqn:Hrh; auto.
      apply String.eqb_eq in Hr, Hrh. subst. now rewrite String.eqb_refl in Hh.
    + destruct (String.eqb (telegram_id_hash r) h) eqn:Hrh.
      * apply String.eqb_eq in Hrh. subst h. now rewrite Hr.
      * exact IH.
Qed.

Lemma some_row_counts (mine : WalletRow -> bool) ws :
  Nat.ltb 0 (List.length (filter mine ws)) =
  match find mine ws with Some _ => true | None => false end.
Proof.
  induction ws as [| r ws IH]; simpl; auto.
  destruct (mine r); auto.
Qed.

(** ** db.ts: creating a task *)

(** X3.  A task created under a fresh [task_uid] is found again: with the
    store performing the insert and the look-up, [createProofTask] returns,
    [getProofTaskByUid] yields the new row -- pending, at zero attempts,
    with the time window it was given, stamped with the second of the
    insert and holding the encrypted lower-case wallet --, the row is
    added behind the rows there were, the wallet links are as before, and
    the uids stay unique. *)
Theorem created_task_is_found E (uid tg wa : string) (a d : Z) (w : World) :
  storeFault E (ticks w) = None ->
  storeFault E (S (ticks w)) = None ->
  selectByUid uid (proof_tasks w) = None ->
  let created :=
    newProofTask uid tg (encryptWallet E (Js.toLowerCase wa)) a d
                 (clock E (ticks w)) in
  let w1 := snd (createProofTask E uid tg wa a d w) in
  fst (createProofTask E uid tg wa a d w) = Ret tt /\
  fst (getProofTaskByUid E uid w1) = Ret (Some created) /\
  (status created = pending /\ attempts created = 0 /\
   after_timestamp created = a /\ check_deadline_utc created = d /\
   telegram_id created = tg) /\
  proof_tasks w1 = proof_tasks w ++ [created] /\
  wallets w1 = wallets w /\
  (uniqueUids w -> uniqueUids w1).
Proof.
  intros H0 H1 Hfresh created w1. subst w1.
  rewrite createProofTask_run, H0, Hfresh. simpl fst. simpl snd.
  split; [reflexivity |]. split.
  - rewrite getProofTaskByUid_run. simpl ticks. rewrite H1. simpl.
    rewrite (selectByUid_appended uid uid); [| reflexivity].
    now rewrite Hfresh, String.eqb_refl.
  - split; [repeat split |]. split; [reflexivity |]. split; [reflexivity |].
    unfold uniqueUids. simpl. intros Hnd.
    rewrite map_app. simpl.
    apply Permutation_NoDup with (l := uid :: map task_uid (proof_tasks w)).
    + apply Permutation_cons_append.
    + constructor; [now apply selectByUid_absent | exact Hnd].
Qed.

Lemma created_task_is_found_witness :
  fst (getProofTaskByUid Scenario.env "a9"
         (snd (createProofTask Scenario.env "a9" "tg7" Sample.target 1500 2400
                 (Sample.world [Scenario.olderTask] []))))
  = Ret (Some (newProofTask "a9" "tg7" (Js.toLowerCase Sample.target)
                            1500 2400 1500)).
Proof.
  apply (proj1 (proj2
           (created_task_is_found Scenario.env "a9" "tg7" Sample.target 1500 2400
              (Sample.world [Scenario.olderTask] []) eq_refl eq_refl eq_refl))).
Defined.

(** ** db.ts: the active task of a user *)

Lemma newestFirst_none ts : newestFirst ts = None -> ts = [].
Proof.
  destruct ts as [| t rest]; simpl; auto.
  destruct (newestFirst rest) as [u |]; [| discriminate].
  destruct (Z.ltb (created_at t) (created_at u)); discriminate.
Qed.

Lemma newestFirst_some ts t :
  newestFirst ts = Some t ->
  In t ts /\ forall u, In u ts -> created_at u <= created_at t.
Proof.
  revert t. induction ts as [| r rest IH]; simpl; [discriminate |].
  intros t. destruct (newestFirst rest) as [u |] eqn:Hrest.
  - destruct (IH u eq_refl) as [Hin Hmax].
    destruct (Z.ltb (created_at r) (created_at u)) eqn:Hlt; intros H; inversion H; subst.
    + apply Z.ltb_lt in Hlt. split; [now right |].
      intros v [-> | Hv]; [lia | now apply Hmax].
    + apply Z.ltb_ge in Hlt. split; [now left |].
      intros v [-> | Hv]; [lia |]. specialize (Hmax v Hv). lia.
  - apply newestFirst_none in Hrest. subst rest.
    intros H; inversion H; subst. split; [now left |].
    intros v [-> | []]. lia.
Qed.

Lemma isActiveOf_true tg t :
  isActiveOf tg t = true <-> telegram_id t = tg /\ isActive (status t) = true.
Proof.
  unfold isActiveOf. rewrite andb_true_iff, String.eqb_eq. reflexivity.
Qed.

(** X5.  [getActiveProofTaskByTelegramId] never throws.  A task it returns
    is a row of the table, belongs to the user, is pending or processing,
    and no pending or processing task of that user was created later; it
    returns [null] only when the user has no pending or processing task or
    the store has failed. *)
Theorem active_task_is_newest E (tg : string) (w : World) :
  match fst (getActiveProofTaskByTelegramId E tg w) with
  | Ret (Some t) =>
      In t (proof_tasks w) /\ telegram_id t = tg /\
      isActive (status t) = true /\
      forall u, In u (proof_tasks w) -> telegram_id u = tg ->
                isActive (status u) = true -> created_at u <= created_at t
  | Ret None =>
      storeFault E (ticks w) <> None \/ activeTasksOf tg w = []
  | _ => False
  end.
Proof.
  rewrite getActiveProofTaskByTelegramId_run. simpl fst.
  destruct (storeFault E (ticks w)) as [message |]; [left; discriminate |].
  destruct (newestFirst (filter (isActiveOf tg) (proof_tasks w))) as [t |] eqn:Hn.
  - destruct (newestFirst_some _ _ Hn) as [Hin Hmax].
    apply filter_In in Hin as [Hin Hact].
    apply isActiveOf_true in Hact as [Htg Hst].
    repeat split; auto.
    intros u Hu Hutg Hust. apply Hmax. apply filter_In. split; auto.
    apply isActiveOf_true. now split.
  - right. now apply newestFirst_none.
Qed.

(** X6.  Cancelling removes the pending and processing tasks of one user
    and nothing else: with the store performing the delete,
    [deleteNonFinalizedProofTasksByTelegramId] reports as many changes as
    the user had such tasks, the user has none afterwards and
    [getActiveProofTaskByTelegramId] returns [null]; every finished task
    and every task of another user is still there, no row is new, and the
    wallet links are as before. *)
Theorem cancel_removes_active_tasks_only E (tg : string) (w : World) :
  storeFault E (ticks w) = None ->
  let r := deleteNonFinalizedProofTasksByTelegramId E tg w in
  fst r = Ret (List.length (activeTasksOf tg w)) /\
  activeTasksOf tg (snd r) = [] /\
  fst (getActiveProofTaskByTelegramId E tg (snd r)) = Ret None /\
  (forall t, In t (proof_tasks (snd r)) <->
             In t (proof_tasks w) /\
             (telegram_id t <> tg \/ isTerminal (status t) = true)) /\
  wallets (snd r) = wallets w.
Proof.
  intros H0 r. subst r.
  rewrite deleteNonFinalizedProofTasksByTelegramId_run, H0. simpl fst. simpl snd.
  assert (Hnone : activeTasksOf tg
                    (with_tasks (filter (fun t => negb (isActiveOf tg t))
                                        (proof_tasks w))
                                (with_ticks (S (ticks w)) w)) = []).
  { unfold activeTasksOf. simpl.
    induction (proof_tasks w) as [| t ts IH]; simpl; auto.
    destruct (isActiveOf tg t) eqn:Ht; simpl; auto. now rewrite Ht. }
  split; [reflexivity |]. split; [exact Hnone |]. split.
  - rewrite getActiveProofTaskByTelegramId_run. simpl fst.
    unfold activeTasksOf in Hnone. simpl proof_tasks in *. rewrite Hnone.
    now destruct (storeFault E (S (ticks w))).
  - split; [| reflexivity].
    intros t. simpl. rewrite filter_In. unfold isActiveOf, isTerminal.
    destruct (String.eqb (telegram_id t) tg) eqn:Htg;
      [apply String.eqb_eq in Htg | apply String.eqb_neq in Htg];
      destruct (isActive (status t)); simpl; intuition congruence.
Qed.

Lemma cancel_removes_active_tasks_only_witness :
  fst (deleteNonFinalizedProofTasksByTelegramId Scenario.env "tg7"
         (Sample.world [Scenario.olderTask; Scenario.newerTask;
                        Scenario.doneTask; Scenario.overdueTask] []))
  = Ret 2%nat /\
  proof_tasks
    (snd (deleteNonFinalizedProofTasksByTelegramId Scenario.env "tg7"
            (Sample.world [Scenario.olderTask; Scenario.newerTask;
                           Scenario.doneTask; Scenario.overdueTask] [])))
  = [Scenario.doneTask; Scenario.overdueTask].
Proof.
  split.
  - apply (proj1 (cancel_removes_active_tasks_only Scenario.env "tg7"
                    (Sample.world [Scenario.olderTask; Scenario.newerTask;
                                   Scenario.doneTask; Scenario.overdueTask] [])
                    eq_refl)).
  - reflexivity.
Defined.

(** ** db.ts: housekeeping *)




(** ** db.ts: wallet links *)

Lemma saved_link_row E tg wa p raw w :
  storeFault E (ticks w) = None ->
  linkOf (hashTelegramId E tg) (wallets (snd (saveWalletLink E tg wa p raw w)))
  = Some {| telegram_id_hash := hashTelegramId E tg;
            raw_telegram_id :=
              if Js.truthyOpt raw
              then match raw with Some r => r | None => tg end
              else tg;
            wallet_hash := hashWallet E (Js.toLowerCase wa);
            wallet_encrypted := encryptWallet E (Js.toLowerCase wa);
            proofed := if p then 1 else 0 |}.
Proof.
  intros H0. rewrite saveWalletLink_run, H0. simpl snd. simpl wallets.
  rewrite linkOf_upsert. simpl. now rewrite String.eqb_refl.
Qed.

(** X8.  A saved link is read back: with the store performing both calls,
    [getWallet] after [saveWalletLink] yields the decryption of the
    encrypted lower-case wallet and the proofed flag that was passed,
    whatever link the user had before -- a proofed link saved again as
    unproofed reads as unproofed. *)
Theorem saved_link_is_read_back E (tg wa : string) (p : bool)
        (raw : option string) (w : World) :
  storeFault E (ticks w) = None ->
  storeFault E (S (ticks w)) = None ->
  fst (getWallet E tg (snd (saveWalletLink E tg wa p raw w)))
  = Ret (Some {| wl_wallet :=
                   decryptWallet E (encryptWallet E (Js.toLowerCase wa));
                 wl_proofed := p |}).
Proof.
  intros H0 H1. rewrite saveWalletLink_run, H0. simpl snd.
  rewrite getWallet_run. simpl ticks. rewrite H1. simpl fst.
  change (find (fun r => String.eqb (telegram_id_hash r) (hashTelegramId E tg)))
    with (linkOf (hashTelegramId E tg)).
  simpl wallets. rewrite linkOf_upsert. simpl telegram_id_hash.
  rewrite String.eqb_refl. simpl. now destruct p.
Qed.

Lemma saved_link_is_read_back_witness :
  fst (getWallet Scenario.env "tg1"
         (snd (saveWalletLink Scenario.env "tg1" Sample.target false None
                 (Sample.world [] [Sample.proofedLink]))))
  = Ret (Some {| wl_wallet := Js.toLowerCase Sample.target;
                 wl_proofed := false |}).
Proof.
  apply (saved_link_is_read_back Scenario.env "tg1" Sample.target false None
           (Sample.world [] [Sample.proofedLink]) eq_refl eq_refl).
Defined.

(** X9.  [saveWalletLink] is an upsert on the hash of the Telegram id:
    with the store performing the call, the link of every other hash is
    what it was, the hashes stay unique, at most one row is added and none
    when the user had a link, the stored raw Telegram id is the one passed
    or else the id itself, and the proof tasks are not touched. *)
Theorem saved_link_replaces_own_row_only E (tg wa : string) (p : bool)
        (raw : option string) (w : World) :
  storeFault E (ticks w) = None ->
  let w1 := snd (saveWalletLink E tg wa p raw w) in
  (forall h, h <> hashTelegramId E tg ->
             linkOf h (wallets w1) = linkOf h (wallets w)) /\
  (uniqueLinks w -> uniqueLinks w1) /\
  List.length (wallets w1) =
    (match linkOf (hashTelegramId E tg) (wallets w) with
     | Some _ => List.length (wallets w)
     | None => S (List.length (wallets w))
     end) /\
  option_map raw_telegram_id (linkOf (hashTelegramId E tg) (wallets w1))
  = Some (match raw with
          | Some r => if Js.truthy r then r else tg
          | None => tg
          end) /\
  proof_tasks w1 = proof_tasks w.
Proof.
  intros H0 w1. subst w1. rewrite saveWalletLink_run, H0. simpl snd.
  simpl wallets. simpl proof_tasks.
  set (row := {| telegram_id_hash := hashTelegramId E tg |}).
  split; [| split; [| split; [| split]]].
  - intros h Hh. rewrite linkOf_upsert. simpl.
    destruct (String.eqb (hashTelegramId E tg) h) eqn:Heq; auto.
    apply String.eqb_eq in Heq. congruence.
  - unfold uniqueLinks. simpl. intros Hnd. rewrite hashes_upsert.
    destruct (existsb _ (wallets w)) eqn:Hex; auto.
    apply Permutation_NoDup
      with (l := telegram_id_hash row :: map telegram_id_hash (wallets w)).
    + apply Permutation_cons_append.
    + constructor; auto. intros Hin.
      apply in_map_iff in Hin as (r & Hr & Hin).
      assert (Hsome : existsb (fun r0 => String.eqb (telegram_id_hash r0)
                                           (telegram_id_hash row)) (wallets w) = true).
      { apply existsb_exists. exists r. split; auto.
        rewrite Hr. apply String.eqb_refl. }
      congruence.
  - unfold linkOf. induction (wallets w) as [| r ws IH]; simpl; auto.
    change (telegram_id_hash row) with (hashTelegramId E tg).
    destruct (String.eqb (telegram_id_hash r) (hashTelegramId E tg)); simpl; auto.
    rewrite IH. now destruct (find _ ws).
  - rewrite linkOf_upsert. simpl. rewrite String.eqb_refl. simpl.
    destruct raw as [r |]; simpl; auto.
  - reflexivity.
Qed.

Lemma saved_link_replaces_own_row_only_witness :
  List.length
    (wallets (snd (saveWalletLink Scenario.env "tg1" Sample.target true
                     (Some "tg1") (Sample.world [] [Sample.proofedLink]))))
  = 1%nat.
Proof.
  apply (proj1 (proj2 (proj2
           (saved_link_replaces_own_row_only Scenario.env "tg1" Sample.target
              true (Some "tg1") (Sample.world [] [Sample.proofedLink])
              eq_refl)))).
Defined.

(** X10.  An unlinked wallet is gone: with the store performing both calls,
    [unlinkWallet] returns whether the user had a link, [getWallet] then
    returns [null], the links of all other hashes are what they were, and
    the proof tasks are not touched. *)
Theorem unlinked_wallet_is_gone E (tg : string) (w : World) :
  storeFault E (ticks w) = None ->
  storeFault E (S (ticks w)) = None ->
  let r := unlinkWallet E tg w in
  fst r = Ret (match linkOf (hashTelegramId E tg) (wallets w) with
               | Some _ => true
               | None => false
               end) /\
  fst (getWallet E tg (snd r)) = Ret None /\
  (forall h, h <> hashTelegramId E tg ->
             linkOf h (wallets (snd r)) = linkOf h (wallets w)) /\
  proof_tasks (snd r) = proof_tasks w.
Proof.
  intros H0 H1 r. subst r. rewrite unlinkWallet_run, H0. simpl fst. simpl snd.
  split; [| split; [| split]].
  - now rewrite some_row_counts.
  - rewrite getWallet_run. simpl ticks. rewrite H1. simpl fst. simpl wallets.
    change (find (fun r => String.eqb (telegram_id_hash r) (hashTelegramId E tg)))
      with (linkOf (hashTelegramId E tg)).
    now rewrite linkOf_filtered, String.eqb_refl.
  - intros h Hh. simpl wallets. rewrite linkOf_filtered.
    destruct (String.eqb h (hashTelegramId E tg)) eqn:Heq; auto.
    apply String.eqb_eq in Heq. congruence.
  - reflexivity.
Qed.

Lemma unlinked_wallet_is_gone_witness :
  fst (unlinkWallet Scenario.env "tg1" (Sample.world [] [Sample.proofedLink]))
  = Ret true /\
  fst (getWallet Scenario.env "tg1"
         (snd (unlinkWallet Scenario.env "tg1"
                 (Sample.world [] [Sample.proofedLink]))))
  = Ret None.
Proof.
  destruct (unlinked_wallet_is_gone Scenario.env "tg1"
              (Sample.world [] [Sample.proofedLink]) eq_refl eq_refl)
    as (H1 & H2 & _).
  split; [exact H1 | exact H2].
Defined.

(** ** server.ts: POST /api/v1/proof/initiate *)

Lemma selectByUid_kept uid (keep : ProofTask -> bool) rows :
  selectByUid uid rows = None -> selectByUid uid (filter keep rows) = None.
Proof.
  unfold selectByUid. induction rows as [| r rows IH]; simpl; auto.
  destruct (String.eqb (task_uid r) uid) eqn:Hr; [discriminate |].
  intros H. destruct (keep r); simpl; rewrite ?Hr; auto.
Qed.

Lemma activeTasksOf_cancelled tg rows :
  filter (isActiveOf tg) (filter (fun t => negb (isActiveOf tg t)) rows) = [].
Proof.
  induction rows as [| t ts IH]; simpl; auto.
  destruct (isActiveOf tg t) eqn:Ht; simpl; auto. now rewrite Ht.
Qed.

(** What is left of [POST /initiate] once the request has passed
    validation: two deletes, a uuid, a clock reading and an insert. *)
Lemma proofInitiate_run E uuidv4 telegramId wallet w cw :
  truthyValue telegramId = true ->
  truthyValue wallet = true ->
  isValidEvmAddress (Js.toLowerCase (Js.trim (toString wallet))) = true ->
  CHECK_WALLET E = Some cw -> cw <> "" ->
  proofInitiate E uuidv4 telegramId wallet w =
  let tg := toString telegramId in
  let failed := Ret (InitiateRejected 500 "Failed to initiate proof task") in
  match storeFault E (ticks w) with
  | Some _ => (failed, with_ticks (S (ticks w)) w)
  | None =>
      let links :=
        filter (fun r => negb (String.eqb (telegram_id_hash r)
                                          (hashTelegramId E tg))) (wallets w) in
      match storeFault E (S (ticks w)) with
      | Some _ =>
          (failed, with_ticks (S (S (ticks w))) (with_wallets links w))
      | None =>
          let rows := filter (fun t => negb (isActiveOf tg t)) (proof_tasks w) in
          let uid := uuidv4 (S (S (ticks w))) in
          let now := clock E (S (S (S (ticks w)))) in
          let w4 := with_ticks (S (S (S (S (S (ticks w))))))
                      (with_tasks rows (with_wallets links w)) in
          match storeFault E (S (S (S (S (ticks w))))) with
          | Some _ => (failed, w4)
          | None =>
              match selectByUid uid rows with
              | Some _ => (failed, w4)
              | None =>
                  (Ret (InitiateOk uid (now + 15 * 60) cw),
                   with_tasks
                     (rows ++
                        [newProofTask uid tg
                           (encryptWallet E
                              (Js.toLowerCase
                                 (Js.toLowerCase (Js.trim (toString wallet)))))
                           now (now + 15 * 60)
                           (clock E (S (S (S (S (ticks w))))))])
                     w4)
              end
          end
      end
  end.
Proof.
  intros Htg Hwa Hvalid Hcw Hne. unfold proofInitiate.
  rewrite Htg, Hwa, Hvalid, Hcw. destruct cw as [| c cw]; [congruence |].
  cbn [orb negb Js.truthyOpt Js.truthy].
  unfold tryCatch. unfold bind at 1. rewrite unlinkWallet_run.
  destruct (storeFault E (ticks w)) as [m0 |]; [reflexivity |].
  unfold bind at 1. rewrite deleteNonFinalizedProofTasksByTelegramId_run.
  simpl ticks.
  destruct (storeFault E (S (ticks w))) as [m1 |]; [reflexivity |].
  unfold bind at 1. unfold tick at 1. simpl ticks.
  unfold bind at 1. rewrite dateNowSeconds_run. simpl ticks.
  unfold bind at 1. rewrite createProofTask_run. simpl ticks. simpl proof_tasks.
  destruct (storeFault E (S (S (S (S (ticks w)))))) as [m4 |]; [reflexivity |].
  destruct (selectByUid _ _); reflexivity.
Qed.

(** X11.  A proof that is initiated leaves the user with one active task
    and no wallet link.  For a request with both fields, a wallet that is
    a valid address once trimmed and put in lower case, [CHECK_WALLET]
    configured, a store that performs the three calls and a uuid that no
    task holds: the answer carries the uuid, a deadline fifteen minutes
    after the clock reading, and the wallet to send to; the user's only
    pending or processing task is the new one, whose window opens at the
    clock reading and closes at the deadline; the user has no wallet link
    any more; and every finished task and every task of another user is
    still in the table. *)
Theorem initiate_leaves_one_active_task
        E (uuidv4 : nat -> string) (telegramId wallet : JsValue)
        (w : World) (cw : string) :
  truthyValue telegramId = true ->
  truthyValue wallet = true ->
  isValidEvmAddress (Js.toLowerCase (Js.trim (toString wallet))) = true ->
  CHECK_WALLET E = Some cw -> cw <> "" ->
  storeFault E (ticks w) = None ->
  storeFault E (S (ticks w)) = None ->
  storeFault E (S (S (S (S (ticks w))))) = None ->
  selectByUid (uuidv4 (S (S (ticks w)))) (proof_tasks w) = None ->
  let tg := toString telegramId in
  let uid := uuidv4 (S (S (ticks w))) in
  let now := clock E (S (S (S (ticks w)))) in
  let r := proofInitiate E uuidv4 telegramId wallet w in
  fst r = Ret (InitiateOk uid (now + 900) cw) /\
  (exists created,
     activeTasksOf tg (snd r) = [created] /\
     task_uid created = uid /\ status created = pending /\
     attempts created = 0 /\ after_timestamp created = now /\
     check_deadline_utc created = now + 900 /\
     wallet_address_encrypted created =
       encryptWallet E (Js.toLowerCase (Js.trim (toString wallet)))) /\
  linkOf (hashTelegramId E tg) (wallets (snd r)) = None /\
  (forall t, In t (proof_tasks w) -> isActiveOf tg t = false ->
             In t (proof_tasks (snd r))).
Proof.
  intros Htg Hwa Hvalid Hcw Hne H0 H1 H4 Hfresh tg uid now r. subst r tg uid now.
  rewrite (proofInitiate_run E uuidv4 telegramId wallet w cw); auto.
  cbv zeta. rewrite H0, H1, H4.
  rewrite (selectByUid_kept _ _ _ Hfresh).
  simpl fst. simpl snd. split; [reflexivity |]. split; [| split].
  - eexists. split.
    + unfold activeTasksOf. simpl proof_tasks.
      rewrite filter_app, activeTasksOf_cancelled. simpl.
      unfold isActiveOf at 1. simpl. rewrite String.eqb_refl. reflexivity.
    + simpl. repeat split; auto.
      now rewrite toLowerCase_idempotent.
  - simpl wallets. rewrite linkOf_filtered. now rewrite String.eqb_refl.
  - intros t Hin Hact. simpl proof_tasks. apply in_or_app. left.
    apply filter_In. split; auto. now rewrite Hact.
Qed.

Lemma initiate_leaves_one_active_task_witness :
  fst (proofInitiate Scenario.env Scenario.uuid (JNumber 77)
         (JString " 0xAAAAAAAAAAAAAAAAAAAAAAAAAAAAAAAAAAAAAAAA ")
         (Sample.world [Scenario.olderTask; Scenario.doneTask]
                       [Sample.proofedLink]))
  = Ret (InitiateOk "uuid-1" 2400 Sample.target).
Proof.
  apply (proj1
           (initiate_leaves_one_active_task Scenario.env Scenario.uuid
              (JNumber 77)
              (JString " 0xAAAAAAAAAAAAAAAAAAAAAAAAAAAAAAAAAAAAAAAA ")
              (Sample.world [Scenario.olderTask; Scenario.doneTask]
                            [Sample.proofedLink])
              Sample.target eq_refl eq_refl eq_refl eq_refl
              ltac:(discriminate) eq_refl eq_refl eq_refl eq_refl)).
Defined.

(** X12.  [POST /initiate] touches nothing when it refuses a request up
    front.  For a request whose Telegram id and wallet are absent, strings
    or integers: one without a Telegram id or without a wallet is answered
    with status 400; so is one whose wallet, a text in the ASCII range, is
    not a valid address once trimmed and put in lower case; and a valid
    request to a server without [CHECK_WALLET] is answered with status
    500.  In each case there is no store call, no clock reading and no
    change of the tables. *)
Theorem initiate_refuses_up_front
        E (uuidv4 : nat -> string) (telegramId wallet : JsValue) (w : World) :
  (truthyValue telegramId = false \/ truthyValue wallet = false ->
   proofInitiate E uuidv4 telegramId wallet w
   = (Ret (InitiateRejected 400 "Missing telegramId or wallet"), w)) /\
  (truthyValue telegramId = true -> truthyValue wallet = true ->
   isAsciiText (toString wallet) = true ->
   isValidEvmAddress (Js.toLowerCase (Js.trim (toString wallet))) = false ->
   proofInitiate E uuidv4 telegramId wallet w
   = (Ret (InitiateRejected 400 "Invalid EVM wallet address"), w)) /\
  (truthyValue telegramId = true -> truthyValue wallet = true ->
   isValidEvmAddress (Js.toLowerCase (Js.trim (toString wallet))) = true ->
   Js.truthyOpt (CHECK_WALLET E) = false ->
   proofInitiate E uuidv4 telegramId wallet w
   = (Ret (InitiateRejected 500
             "Server configuration error for proof verification."), w)).
Proof.
  split; [| split].
  - intros [Htg | Hwa]; unfold proofInitiate.
    + now rewrite Htg.
    + now rewrite Hwa, orb_true_r.
  - intros Htg Hwa _ Hvalid. unfold proofInitiate.
    now rewrite Htg, Hwa, Hvalid.
  - intros Htg Hwa Hvalid Hcw. unfold proofInitiate.
    now rewrite Htg, Hwa, Hvalid, Hcw.
Qed.

Lemma initiate_refuses_up_front_witness :
  proofInitiate Scenario.env Scenario.uuid (JNumber 77) (JString "0xabc")
                (Sample.world [Scenario.olderTask] [Sample.proofedLink])
  = (Ret (InitiateRejected 400 "Invalid EVM wallet address"),
     Sample.world [Scenario.olderTask] [Sample.proofedLink]).
Proof.
  apply (proj1 (proj2
           (initiate_refuses_up_front Scenario.env Scenario.uuid (JNumber 77)
              (JString "0xabc")
              (Sample.world [Scenario.olderTask] [Sample.proofedLink])))).
  - reflexivity.
  - reflexivity.
  - reflexivity.
  - reflexivity.
Defined.

(** X13.  [POST /initiate] is not atomic.  When the two deletes go through
    and the store then fails on the insert, the answer is status 500 and
    no task has been created, yet the user's wallet link and the user's
    pending and processing tasks are gone. *)
Theorem failed_initiate_has_unlinked
        E (uuidv4 : nat -> string) (telegramId wallet : JsValue)
        (w : World) (cw message : string) :
  truthyValue telegramId = true ->
  truthyValue wallet = true ->
  isValidEvmAddress (Js.toLowerCase (Js.trim (toString wallet))) = true ->
  CHECK_WALLET E = Some cw -> cw <> "" ->
  storeFault E (ticks w) = None ->
  storeFault E (S (ticks w)) = None ->
  storeFault E (S (S (S (S (ticks w))))) = Some message ->
  let tg := toString telegramId in
  let r := proofInitiate E uuidv4 telegramId wallet w in
  fst r = Ret (InitiateRejected 500 "Failed to initiate proof task") /\
  linkOf (hashTelegramId E tg) (wallets (snd r)) = None /\
  activeTasksOf tg (snd r) = [] /\
  (forall t, In t (proof_tasks (snd r)) -> In t (proof_tasks w)).
Proof.
  intros Htg Hwa Hvalid Hcw Hne H0 H1 H4 tg r. subst r tg.
  rewrite (proofInitiate_run E uuidv4 telegramId wallet w cw); auto.
  cbv zeta. rewrite H0, H1, H4. simpl fst. simpl snd.
  split; [reflexivity |]. split; [| split].
  - simpl wallets. now rewrite linkOf_filtered, String.eqb_refl.
  - unfold activeTasksOf. simpl proof_tasks. apply activeTasksOf_cancelled.
  - intros t Hin. simpl in Hin. now apply filter_In in Hin.
Qed.

Lemma failed_initiate_has_unlinked_witness :
  fst (proofInitiate
         (Sample.env Sample.empty Sample.at1500 (Sample.failingAt 4))
         Scenario.uuid (JString "tg1") (JString Sample.user)
         (Sample.world [Sample.pendingTask] [Sample.proofedLink]))
  = Ret (InitiateRejected 500 "Failed to initiate proof task") /\
  wallets (snd (proofInitiate
                  (Sample.env Sample.empty Sample.at1500 (Sample.failingAt 4))
                  Scenario.uuid (JString "tg1") (JString Sample.user)
                  (Sample.world [Sample.pendingTask] [Sample.proofedLink])))
  = [].
Proof.
  split.
  - apply (proj1
             (failed_initiate_has_unlinked
                (Sample.env Sample.empty Sample.at1500 (Sample.failingAt 4))
                Scenario.uuid (JString "tg1") (JString Sample.user)
                (Sample.world [Sample.pendingTask] [Sample.proofedLink])
                Sample.target "SQLITE_BUSY"
                eq_refl eq_refl eq_refl eq_refl ltac:(discriminate)
                eq_refl eq_refl eq_refl)).
  - reflexivity.
Defined.

(** ** server.ts: GET /api/v1/proof/status/:taskUid *)

Lemma statusText_completed_success s :
  String.eqb (statusText s) "completed_success" = false.
Proof. now destruct s. Qed.

Lemma statusText_error s :
  String.eqb (statusText s) "error" = true <-> s = error.
Proof. destruct s; vm_compute; intuition congruence. Qed.

(** X14.  The status route never reports a wallet.  For a task that the
    table holds and a store that performs the look-up, the answer carries
    the status text and, for an error task, its error message; it carries
    no wallet address and no proofed flag whatever the status -- the test
    for ['completed_success'] matches none of the statuses that the
    scheduler writes, success included --, and the route makes that single
    store call and changes nothing. *)
Theorem status_route_never_reports_wallet E (taskUid : string) (w : World)
        (task : ProofTask) :
  taskUid <> "" ->
  storeFault E (ticks w) = None ->
  selectByUid taskUid (proof_tasks w) = Some task ->
  proofStatus E taskUid w
  = (Ret (StatusOk
            {| sp_status := statusText (status task);
               sp_walletAddress := None;
               sp_proofed := None;
               sp_errorMessage :=
                 match status task with
                 | error => Some (error_message task)
                 | _ => None
                 end |}),
     with_ticks (S (ticks w)) w).
Proof.
  intros Hne H0 Hsel. unfold proofStatus.
  destruct taskUid as [| c uid]; [congruence |].
  cbn [negb Js.truthy]. unfold tryCatch. unfold bind at 1.
  rewrite getProofTaskByUid_run, H0, Hsel.
  rewrite statusText_completed_success.
  destruct (status task); reflexivity.
Qed.

Lemma status_route_never_reports_wallet_witness :
  fst (proofStatus Scenario.env "a3"
         (Sample.world [Scenario.olderTask; Scenario.doneTask]
                       [Sample.proofedLink]))
  = Ret (StatusOk {| sp_status := "success"; sp_walletAddress := None;
                     sp_proofed := None; sp_errorMessage := None |}).
Proof.
  rewrite (status_route_never_reports_wallet Scenario.env "a3"
             (Sample.world [Scenario.olderTask; Scenario.doneTask]
                           [Sample.proofedLink])
             Scenario.doneTask ltac:(discriminate) eq_refl eq_refl).
  reflexivity.
Defined.

(** ** server.ts: the cancel and active-task routes *)

(** X15.  Cancel, then ask: whatever the store does, neither route throws;
    with the store performing the delete, the cancel route answers with
    [success: true] and the number of tasks it removed when the user had a
    pending or processing task and with [success: false] when there was
    none, and the active-task route then reports no active task. *)
Theorem cancelled_user_has_no_active_task E (tg : string) (w : World) :
  tg <> "" ->
  storeFault E (ticks w) = None ->
  let r := proofTaskCancel E tg w in
  fst r = Ret (match activeTasksOf tg w with
               | [] => CancelDone false "No active proof tasks found to cancel."
               | ts =>
                   CancelDone true
                     ("Cancelled " ++ Js.showZ (Z.of_nat (List.length ts))
                        ++ " active proof tasks.")
               end) /\
  fst (proofTaskActive E tg (snd r)) = Ret ActiveNone.
Proof.
  intros Hne H0 r. subst r.
  assert (Hrun : proofTaskCancel E tg w =
                 (Ret (if Nat.ltb 0 (List.length (activeTasksOf tg w))
                       then CancelDone true
                              ("Cancelled "
                                 ++ Js.showZ (Z.of_nat (List.length (activeTasksOf tg w)))
                                 ++ " active proof tasks.")
                       else CancelDone false "No active proof tasks found to cancel."),
                  with_tasks (filter (fun t => negb (isActiveOf tg t)) (proof_tasks w))
                             (with_ticks (S (ticks w)) w))).
  { unfold proofTaskCancel, tryCatch. unfold bind at 1.
    rewrite deleteNonFinalizedProofTasksByTelegramId_run, H0.
    unfold activeTasksOf.
    now destruct (Nat.ltb 0 (List.length (filter (isActiveOf tg) (proof_tasks w)))). }
  rewrite Hrun. simpl fst. simpl snd. split.
  - now destruct (activeTasksOf tg w).
  - unfold proofTaskActive.
    destruct tg as [| c tg]; [congruence |]. cbn [negb Js.truthy].
    unfold tryCatch. unfold bind at 1.
    rewrite getActiveProofTaskByTelegramId_run.
    cbn [proof_tasks with_tasks ticks with_ticks].
    rewrite activeTasksOf_cancelled.
    now destruct (storeFault E (S (ticks w))).
Qed.

Lemma cancelled_user_has_no_active_task_witness :
  fst (proofTaskCancel Scenario.env "tg7"
         (Sample.world [Scenario.olderTask; Scenario.newerTask;
                        Scenario.doneTask] []))
  = Ret (CancelDone true "Cancelled 2 active proof tasks.").
Proof.
  apply (proj1
           (cancelled_user_has_no_active_task Scenario.env "tg7"
              (Sample.world [Scenario.olderTask; Scenario.newerTask;
                             Scenario.doneTask] [])
              ltac:(discriminate) eq_refl)).
Defined.

(** ** server.ts: POST /link and GET /terminal-access/:telegramId *)

Lemma rpcCall_run {A} (oracle : nat -> RpcReply A) w :
  rpcCall oracle w =
  match oracle (ticks w) with
  | RpcOk a => (Ret a, with_ticks (S (ticks w)) w)
  | RpcError message => (Throw message, with_ticks (S (ticks w)) w)
  end.
Proof. unfold rpcCall, bind, tick. now destruct (oracle (ticks w)). Qed.

Lemma terminalAccess_run E getNFTBalance tg w :
  tg <> "" ->
  terminalAccess E getNFTBalance tg w =
  match storeFault E (ticks w) with
  | Some _ =>
      (Ret (AccessRejected 500 "Internal server error checking access"),
       with_ticks (S (ticks w)) w)
  | None =>
      match linkOf (hashTelegramId E tg) (wallets w) with
      | None => (Ret (AccessRefused "Wallet not linked"),
                 with_ticks (S (ticks w)) w)
      | Some row =>
          let wallet := decryptWallet E (wallet_encrypted row) in
          if negb (Js.truthy wallet) then
            (Ret (AccessRefused "Wallet not linked"), with_ticks (S (ticks w)) w)
          else if Z.eqb (proofed row) 0 then
            (Ret (AccessRefused "Wallet ownership not verified"),
             with_ticks (S (ticks w)) w)
          else
            (Ret (match getNFTBalance (S (ticks w)) wallet with
                  | RpcOk balance =>
                      if isPositive balance then AccessGranted
                      else AccessRefused "NFT ownership required"
                  | RpcError _ => AccessRefused "NFT ownership required"
                  end),
             with_ticks (S (S (ticks w))) w)
      end
  end.
Proof.
  intros Hne. unfold terminalAccess.
  destruct tg as [| c tg]; [congruence |]. cbn [negb Js.truthy].
  unfold tryCatch at 1. unfold bind at 1. rewrite getWallet_run.
  destruct (storeFault E (ticks w)) as [m |]; [reflexivity |].
  unfold linkOf.
  destruct (find _ (wallets w)) as [row |]; [| reflexivity].
  cbn [wl_wallet wl_proofed].
  destruct (Js.truthy (decryptWallet E (wallet_encrypted row))); [| reflexivity].
  destruct (Z.eqb (proofed row) 0); [reflexivity |].
  cbn [negb]. unfold bind, tryCatch. rewrite rpcCall_run.
  cbn [ticks with_ticks].
  destruct (getNFTBalance (S (ticks w)) _) as [balance | m]; simpl;
    [now destruct (isPositive balance) | reflexivity].
Qed.

(** X16.  Terminal access is granted to proofed NFT holders only, and the
    route is read-only.  Access is granted exactly when the store performs
    the look-up, the user has a wallet link whose wallet decrypts to a
    non-empty address, the link is proofed, and the balance looked up for
    that address is a positive number; a link that is not proofed is
    refused before any balance is looked up; and whatever the answer, the
    route neither throws nor changes a table. *)
Theorem terminal_access_needs_proofed_holder
        E (getNFTBalance : nat -> string -> RpcReply Js.jsnum)
        (tg : string) (w : World) :
  tg <> "" ->
  let r := terminalAccess E getNFTBalance tg w in
  (fst r = Ret AccessGranted <->
   storeFault E (ticks w) = None /\
   exists row z,
     linkOf (hashTelegramId E tg) (wallets w) = Some row /\
     decryptWallet E (wallet_encrypted row) <> "" /\
     proofed row <> 0 /\
     getNFTBalance (S (ticks w)) (decryptWallet E (wallet_encrypted row))
     = RpcOk (Js.JInt z) /\
     0 < z) /\
  (forall row,
     storeFault E (ticks w) = None ->
     linkOf (hashTelegramId E tg) (wallets w) = Some row ->
     decryptWallet E (wallet_encrypted row) <> "" ->
     proofed row = 0 ->
     r = (Ret (AccessRefused "Wallet ownership not verified"),
          with_ticks (S (ticks w)) w)) /\
  (exists answer, fst r = Ret answer) /\
  sameTables w (snd r).
Proof.
  intros Hne r. subst r. rewrite (terminalAccess_run E getNFTBalance tg w Hne).
  destruct (storeFault E (ticks w)) as [m |].
  { split; [| split; [| split]].
    - split; [discriminate | intros [H _]; discriminate].
    - intros row H; discriminate.
    - eexists; reflexivity.
    - now split. }
  destruct (linkOf (hashTelegramId E tg) (wallets w)) as [row |].
  2:{ split; [| split; [| split]].
      - split; [discriminate | intros (_ & row & z & H & _); discriminate].
      - intros row _ H; discriminate.
      - eexists; reflexivity.
      - now split. }
  cbv zeta.
  destruct (decryptWallet E (wallet_encrypted row)) as [| c wallet] eqn:Hdec;
    cbn [negb Js.truthy].
  { split; [| split; [| split]].
    - split; [discriminate |].
      intros (_ & row' & z & H & Hd & _). inversion H; subst. congruence.
    - intros row' _ H Hd. inversion H; subst. congruence.
    - eexists; reflexivity.
    - now split. }
  destruct (Z.eqb (proofed row) 0) eqn:Hp.
  { apply Z.eqb_eq in Hp. split; [| split; [| split]].
    - split; [discriminate |].
      intros (_ & row' & z & H & _ & Hp' & _). inversion H; subst. congruence.
    - reflexivity.
    - eexists; reflexivity.
    - now split. }
  apply Z.eqb_neq in Hp. split; [| split; [| split]].
  - simpl fst. split.
    + intros H. split; [reflexivity |].
      destruct (getNFTBalance (S (ticks w)) (String c wallet))
        as [[| z] | m] eqn:Hb; simpl in H; try discriminate.
      destruct (Z.ltb 0 z) eqn:Hz; [| discriminate].
      apply Z.ltb_lt in Hz. exists row, z. rewrite Hdec.
      repeat split; auto. discriminate.
    + intros (_ & row' & z & H & _ & _ & Hb & Hz). inversion H; subst row'.
      rewrite Hdec in Hb. rewrite Hb. simpl.
      apply Z.ltb_lt in Hz. now rewrite Hz.
  - intros row' _ H _ Hp'. inversion H; subst. congruence.
  - eexists; reflexivity.
  - now split.
Qed.

Lemma terminal_access_needs_proofed_holder_witness :
  fst (terminalAccess Scenario.env Scenario.oneToken "tg1"
         (Sample.world [] [Sample.proofedLink]))
  = Ret AccessGranted.
Proof.
  apply (proj1 (terminal_access_needs_proofed_holder Scenario.env
                  Scenario.oneToken "tg1"
                  (Sample.world [] [Sample.proofedLink])
                  ltac:(discriminate))).
  split; [reflexivity |].
  exists Sample.proofedLink, 1. repeat split; try discriminate; reflexivity.
Defined.

(** X17.  Linking again takes the proof away.  After a [POST /link] that
    is accepted -- both fields present, the wallet a valid address once
    trimmed and put in lower case, the store performing the upsert -- the
    user's link reads as not proofed whatever it was before, so that the
    terminal-access route, if the wallet decrypts, refuses the user with
    [Wallet ownership not verified] even when the user holds the NFT. *)
Theorem linking_again_revokes_access
        E (getNFTBalance : nat -> string -> RpcReply Js.jsnum)
        (telegramId wallet : JsValue) (w : World) :
  truthyValue telegramId = true ->
  toString telegramId <> "" ->
  truthyValue wallet = true ->
  isValidEvmAddress (Js.toLowerCase (Js.trim (toString wallet))) = true ->
  storeFault E (ticks w) = None ->
  storeFault E (S (ticks w)) = None ->
  let stored :=
    decryptWallet E
      (encryptWallet E
         (Js.toLowerCase (Js.toLowerCase (Js.trim (toString wallet))))) in
  stored <> "" ->
  let r := legacyLink E telegramId wallet w in
  fst r = Ret (LinkOk "Wallet linked initially. Proof pending.") /\
  fst (getWallet E (toString telegramId) (snd r))
  = Ret (Some {| wl_wallet := stored; wl_proofed := false |}) /\
  fst (terminalAccess E getNFTBalance (toString telegramId) (snd r))
  = Ret (AccessRefused "Wallet ownership not verified").
Proof.
  intros Htg Hne Hwa Hvalid H0 H1 stored Hst r. subst r.
  assert (Hrun : legacyLink E telegramId wallet w =
                 (Ret (LinkOk "Wallet linked initially. Proof pending."),
                  snd (saveWalletLink E (toString telegramId)
                         (Js.toLowerCase (Js.trim (toString wallet)))
                         false None w))).
  { unfold legacyLink. rewrite Htg, Hwa, Hvalid. cbn [orb negb].
    unfold tryCatch. unfold bind at 1.
    rewrite saveWalletLink_run, H0. reflexivity. }
  rewrite Hrun. simpl fst. simpl snd.
  pose proof (saved_link_row E (toString telegramId)
                (Js.toLowerCase (Js.trim (toString wallet))) false None w H0)
    as Hrow.
  split; [reflexivity |]. split.
  - rewrite getWallet_run.
    rewrite saveWalletLink_run, H0 in *. simpl snd in *. simpl ticks.
    rewrite H1. simpl fst. simpl wallets.
    unfold linkOf in Hrow. simpl wallets in Hrow. now rewrite Hrow.
  - rewrite (terminalAccess_run E getNFTBalance (toString telegramId) _ Hne).
    rewrite saveWalletLink_run, H0 in *. simpl snd in *. simpl ticks.
    rewrite H1. simpl wallets in *. rewrite Hrow. cbv zeta.
    cbn [wallet_encrypted proofed].
    fold stored. destruct stored; [congruence | reflexivity].
Qed.

Lemma linking_again_revokes_access_witness :
  fst (terminalAccess Scenario.env Scenario.oneToken "tg1"
         (snd (legacyLink Scenario.env (JString "tg1") (JString Sample.user)
                 (Sample.world [] [Sample.proofedLink]))))
  = Ret (AccessRefused "Wallet ownership not verified").
Proof.
  apply (proj2 (proj2
           (linking_again_revokes_access Scenario.env Scenario.oneToken
              (JString "tg1") (JString Sample.user)
              (Sample.world [] [Sample.proofedLink])
              eq_refl ltac:(discriminate) eq_refl eq_refl eq_refl eq_refl
              ltac:(discriminate)))).
Defined.

(** ** ProofVerificationService: a proof that is found *)

Lemma attemptProof_confirmed E fuel task cw n w2 pr w3 :
  storeFault E (ticks w3) = None ->
  storeFault E (S (ticks w3)) = None ->
  decryptWallet E (wallet_address_encrypted task) <> "" ->
  checkOwnershipAfter E fuel (decryptWallet E (wallet_address_encrypted task))
    (after_timestamp task) (check_deadline_utc task) cw w2 = (Ret pr, w3) ->
  isProofConfirmed pr = true ->
  attemptProof E fuel task cw n w2 =
  let w4 := snd (saveWalletLink E (telegram_id task)
                   (decryptWallet E (wallet_address_encrypted task)) true
                   (Some (telegram_id task)) w3) in
  (Ret tt, statusWritten (task_uid task) success (withFoundTxHash (txHash pr))
             (clock E (S (ticks w3))) (with_ticks (S (S (ticks w3))) w4)).
Proof.
  intros H3 H4 Hdec Hcheck Hyes. unfold attemptProof.
  destruct (decryptWallet E (wallet_address_encrypted task)) as [| ch dec] eqn:Hd;
    [congruence |].
  simpl (negb (Js.truthy _)). cbv iota.
  unfold tryCatch, bind. rewrite Hcheck, Hyes.
  rewrite saveWalletLink_run, H3.
  rewrite updateProofTaskStatus_run. cbn [ticks with_wallets with_ticks].
  rewrite H4. reflexivity.
Qed.

(** X18.  A proof that is found links the wallet.  When the ownership
    check of a task reports a confirmed proof -- the check wallet
    configured, the wallet decrypted, the store performing its calls --
    [processSingleTask] returns; the task's row has status success, the
    hash that the check reported as its found transaction, one attempt
    more and its error message untouched; the user's row in the wallets
    table is proofed, holds the raw Telegram id of the task and the
    encrypted lower-case wallet; and [getWallet] reads the link back as
    proofed. *)
Theorem confirmed_proof_links_wallet E fuel task w cw pr w3 :
  storeReliable E ->
  CHECK_WALLET E = Some cw -> cw <> "" ->
  decryptWallet E (wallet_address_encrypted task) <> "" ->
  selectByUid (task_uid task) (proof_tasks w) = Some task ->
  checkOwnershipAfter E fuel (decryptWallet E (wallet_address_encrypted task))
    (after_timestamp task) (check_deadline_utc task) cw (checkStarts E task w)
  = (Ret pr, w3) ->
  isProofConfirmed pr = true ->
  let wallet := decryptWallet E (wallet_address_encrypted task) in
  let w' := snd (processSingleTask E fuel task w) in
  fst (processSingleTask E fuel task w) = Ret tt /\
  (exists row,
     selectByUid (task_uid task) (proof_tasks w') = Some row /\
     status row = success /\ found_tx_hash row = txHash pr /\
     attempts row = attempts task + 1 /\
     error_message row = error_message task) /\
  (exists link,
     linkOf (hashTelegramId E (telegram_id task)) (wallets w') = Some link /\
     proofed link = 1 /\ raw_telegram_id link = telegram_id task /\
     wallet_encrypted link = encryptWallet E (Js.toLowerCase wallet)) /\
  fst (getWallet E (telegram_id task) w')
  = Ret (Some {| wl_wallet :=
                   decryptWallet E (encryptWallet E (Js.toLowerCase wallet));
                 wl_proofed := true |}).
Proof.
  intros Hrel Hcw Hne Hdec Hsel Hcheck Hyes wallet w'. subst w' wallet.
  rewrite (processSingleTask_run E fuel task w cw Hcw Hne (Hrel _)).
  rewrite (attemptProof_confirmed E fuel task cw _ _ pr w3
             (Hrel _) (Hrel _) Hdec Hcheck Hyes).
  cbv zeta. simpl fst. simpl snd.
  pose proof (selectByUid_checkStarts E task w (Hrel _) Hsel) as Hstart.
  rewrite Hrel in Hstart.
  pose proof (checkOwnershipAfter_grows E fuel
                (decryptWallet E (wallet_address_encrypted task))
                (after_timestamp task) (check_deadline_utc task) cw
                (checkStarts E task w)) as Hg.
  rewrite Hcheck in Hg. destruct Hg as (Htasks & _).
  simpl in Htasks. rewrite <- Htasks in Hstart.
  pose proof (saved_link_row E (telegram_id task)
                (decryptWallet E (wallet_address_encrypted task)) true
                (Some (telegram_id task)) w3 (Hrel _)) as Hrow.
  pose proof (saveWalletLink_tasks E (telegram_id task)
                (decryptWallet E (wallet_address_encrypted task)) true
                (Some (telegram_id task)) w3) as [Hkept _].
  split; [reflexivity |]. split; [| split].
  - eexists. split.
    + rewrite selectByUid_statusWritten. cbn [proof_tasks with_ticks].
      rewrite Hkept, Hstart. reflexivity.
    + repeat split.
  - eexists. split; [exact Hrow |]. cbn.
    repeat split. now destruct (telegram_id task).
  - rewrite getWallet_run. rewrite Hrel. simpl fst.
    unfold linkOf in Hrow. cbn [wallets statusWritten with_written with_tasks with_ticks].
    rewrite Hrow. reflexivity.
Qed.

Lemma confirmed_proof_links_wallet_witness :
  fst (getWallet (Sample.env Sample.holding Sample.at1500 Sample.quiet) "tg1"
         (snd (processSingleTask
                 (Sample.env Sample.holding Sample.at1500 Sample.quiet) 2
                 Sample.pendingTask (Sample.world [Sample.pendingTask] []))))
  = Ret (Some {| wl_wallet := Sample.user; wl_proofed := true |}).
Proof.
  eapply (proj2 (proj2 (proj2
            (confirmed_proof_links_wallet
               (Sample.env Sample.holding Sample.at1500 Sample.quiet) 2
               Sample.pendingTask (Sample.world [Sample.pendingTask] [])
               Sample.target _ _
               (sample_store_reliable _ _) eq_refl ltac:(discriminate)
               ltac:(discriminate) eq_refl eq_refl eq_refl)))).
Defined.

(** ** ProofVerificationService: failures inside the attempt *)

(** X19.  A wallet that cannot be decrypted fails the task without a
    search.  When [decryptWallet] yields the empty string for the task --
    the check wallet configured, the store performing its writes --
    [processSingleTask] returns, the task's row has status error with the
    message of the failed decryption and one attempt more, no request has
    been sent to the explorer, and the wallet links are as before. *)
Theorem undecryptable_wallet_fails_task E fuel task w cw :
  storeReliable E ->
  CHECK_WALLET E = Some cw -> cw <> "" ->
  decryptWallet E (wallet_address_encrypted task) = "" ->
  selectByUid (task_uid task) (proof_tasks w) = Some task ->
  let w' := snd (processSingleTask E fuel task w) in
  fst (processSingleTask E fuel task w) = Ret tt /\
  (exists row,
     selectByUid (task_uid task) (proof_tasks w') = Some row /\
     status row = error /\
     error_message row
     = Some "Internal error: Failed to decrypt wallet address" /\
     attempts row = attempts task + 1) /\
  posted w' = posted w /\
  wallets w' = wallets w.
Proof.
  intros Hrel Hcw Hne Hdec Hsel w'. subst w'.
  rewrite (processSingleTask_run E fuel task w cw Hcw Hne (Hrel _)).
  pose proof (selectByUid_checkStarts E task w (Hrel _) Hsel) as Hstart.
  rewrite Hrel in Hstart.
  assert (Hframe : posted (checkStarts E task w) = posted w /\
                   wallets (checkStarts E task w) = wallets w).
  { unfold checkStarts. rewrite snd_bind, updateProofTaskStatus_run, Hrel.
    unfold tryCatch. rewrite updateProofTaskAttempts_run.
    cbn [ticks statusWritten with_written with_tasks with_ticks].
    rewrite Hrel. now split. }
  destruct Hframe as [Hposted Hwallets].
  unfold attemptProof. rewrite Hdec. simpl (negb (Js.truthy _)). cbv iota.
  unfold tryCatch. rewrite updateProofTaskStatus_run, Hrel.
  simpl fst. simpl snd.
  split; [reflexivity |]. split; [| split].
  - eexists. split.
    + rewrite selectByUid_statusWritten. cbn [proof_tasks with_ticks].
      rewrite Hstart. reflexivity.
    + repeat split.
  - exact Hposted.
  - exact Hwallets.
Qed.

Lemma undecryptable_wallet_fails_task_witness :
  option_map status
    (selectByUid "u1"
       (proof_tasks (snd (processSingleTask Scenario.wrongKey 2
                            Sample.pendingTask
                            (Sample.world [Sample.pendingTask] [])))))
  = Some error.
Proof.
  destruct (undecryptable_wallet_fails_task Scenario.wrongKey 2
              Sample.pendingTask (Sample.world [Sample.pendingTask] [])
              Sample.target (fun _ => eq_refl) eq_refl ltac:(discriminate)
              eq_refl eq_refl)
    as (_ & (row & Hrow & Hst & _) & _).
  change "u1" with (task_uid Sample.pendingTask).
  rewrite Hrow. simpl. now rewrite Hst.
Defined.

(** X20.  A store failure after the proof was found marks the task as an
    error.  When the ownership check reports a confirmed proof and the
    store then throws on saving the wallet link, the exception is caught
    and -- the store performing the next write -- the task's row has
    status error with the message of the exception and no found
    transaction recorded by this call, and the wallet links are as they
    were before the call: the proof is lost for this task. *)
Theorem store_failure_after_proof_marks_error
        E fuel task w cw pr w3 (message : string) :
  CHECK_WALLET E = Some cw -> cw <> "" ->
  storeFault E (ticks w) = None ->
  decryptWallet E (wallet_address_encrypted task) <> "" ->
  selectByUid (task_uid task) (proof_tasks w) = Some task ->
  checkOwnershipAfter E fuel (decryptWallet E (wallet_address_encrypted task))
    (after_timestamp task) (check_deadline_utc task) cw (checkStarts E task w)
  = (Ret pr, w3) ->
  isProofConfirmed pr = true ->
  storeFault E (ticks w3) = Some message ->
  storeFault E (S (ticks w3)) = None ->
  let w' := snd (processSingleTask E fuel task w) in
  fst (processSingleTask E fuel task w) = Ret tt /\
  (exists row,
     selectByUid (task_uid task) (proof_tasks w') = Some row /\
     status row = error /\ error_message row = Some message /\
     found_tx_hash row = found_tx_hash task) /\
  wallets w' = wallets w.
Proof.
  intros Hcw Hne H0 Hdec Hsel Hcheck Hyes H3 H4 w'. subst w'.
  rewrite (processSingleTask_run E fuel task w cw Hcw Hne H0).
  pose proof (selectByUid_checkStarts E task w H0 Hsel) as Hstart.
  pose proof (checkOwnershipAfter_grows E fuel
                (decryptWallet E (wallet_address_encrypted task))
                (after_timestamp task) (check_deadline_utc task) cw
                (checkStarts E task w)) as Hg.
  rewrite Hcheck in Hg. destruct Hg as (Htasks & Hwallets & _).
  simpl in Htasks, Hwallets. rewrite <- Htasks in Hstart.
  assert (Hws : wallets (checkStarts E task w) = wallets w).
  { unfold checkStarts. rewrite snd_bind, updateProofTaskStatus_run, H0.
    unfold tryCatch. rewrite updateProofTaskAttempts_run.
    cbn [ticks statusWritten with_written with_tasks with_ticks].
    now destruct (storeFault E (S (ticks w))). }
  assert (Hrun : attemptProof E fuel task cw (attempts task + 1)
                   (checkStarts E task w) =
                 (Ret tt, statusWritten (task_uid task) error
                            (withErrorMessage message) (clock E (S (ticks w3)))
                            (with_ticks (S (S (ticks w3))) w3))).
  { unfold attemptProof.
    destruct (decryptWallet E (wallet_address_encrypted task)) as [| ch dec] eqn:Hd;
      [congruence |].
    simpl (negb (Js.truthy _)). cbv iota.
    unfold tryCatch, bind. rewrite Hcheck, Hyes.
    rewrite saveWalletLink_run, H3.
    rewrite updateProofTaskStatus_run. cbn [ticks with_ticks].
    rewrite H4. reflexivity. }
  rewrite Hrun. simpl fst. simpl snd.
  split; [reflexivity |]. split.
  - destruct (storeFault E (S (ticks w))); eexists; (split;
      [rewrite selectByUid_statusWritten; cbn [proof_tasks with_ticks];
       rewrite Hstart; reflexivity | repeat split]).
  - cbn [wallets statusWritten with_written with_tasks with_ticks]. congruence.
Qed.

Lemma store_failure_after_proof_marks_error_witness :
  option_map status
    (selectByUid "u1"
       (proof_tasks
          (snd (processSingleTask
                  (Sample.env Sample.holding Sample.at1500 (Sample.failingAt 3))
                  2 Sample.pendingTask
                  (Sample.world [Sample.pendingTask] [])))))
  = Some error.
Proof.
  destruct (store_failure_after_proof_marks_error
              (Sample.env Sample.holding Sample.at1500 (Sample.failingAt 3)) 2
              Sample.pendingTask (Sample.world [Sample.pendingTask] [])
              Sample.target _ _ "SQLITE_BUSY"
              eq_refl ltac:(discriminate) eq_refl ltac:(discriminate)
              eq_refl eq_refl eq_refl eq_refl eq_refl)
    as (_ & (row & Hrow & Hst & _) & _).
  change "u1" with (task_uid Sample.pendingTask).
  rewrite Hrow. simpl. now rewrite Hst.
Defined.

(** ** ProofVerificationService: what the reap phase leaves *)

Lemma expireTask_run E task w :
  isActive (status task) = true ->
  storeFault E (ticks w) = None ->
  expireTask E task w =
  (Ret tt, statusWritten (task_uid task) expired
             (withErrorMessage "Task auto-expired by cleanup.")
             (clock E (ticks w)) (with_ticks (S (ticks w)) w)).
Proof.
  intros Hact H0. unfold expireTask. rewrite Hact.
  now rewrite updateProofTaskStatus_run, H0.
Qed.

Lemma expiredAmong_step uid uids now r r' :
  expiredAmong uids
    (if String.eqb (task_uid r) uid
     then setStatus expired (withErrorMessage "Task auto-expired by cleanup.") now r
     else r) r' ->
  expiredAmong (uid :: uids) r r'.
Proof.
  unfold expiredAmong. cbn [existsb].
  destruct (String.eqb (task_uid r) uid) eqn:Hu; cbn [orb]; [| tauto].
  cbn [task_uid setStatus attempts found_tx_hash foundTxHash withErrorMessage].
  destruct (existsb _ uids); [tauto |].
  intros ->. repeat split.
Qed.

Lemma expiredAmong_rows uid uids now rows rows' :
  Forall2 (expiredAmong uids)
          (updateWhereUid uid
             (setStatus expired
                (withErrorMessage "Task auto-expired by cleanup.") now) rows)
          rows' ->
  Forall2 (expiredAmong (uid :: uids)) rows rows'.
Proof.
  unfold updateWhereUid. revert rows'.
  induction rows as [| r rows IH]; intros rows' H; inversion H; subst;
    constructor; eauto using expiredAmong_step.
Qed.

(** The clean-up loop over tasks that the query returned. *)
Lemma forEach_expireTask E ts :
  storeReliable E ->
  Forall (fun t => isActive (status t) = true) ts ->
  forall w, exists w',
    forEach ts (expireTask E) w = (Ret tt, w') /\
    Forall2 (expiredAmong (map task_uid ts)) (proof_tasks w) (proof_tasks w') /\
    wallets w' = wallets w /\ posted w' = posted w /\
    isProcessingCycle w' = isProcessingCycle w /\
    isCleaningUp w' = isCleaningUp w.
Proof.
  intros Hrel Hact. induction Hact as [| t ts Ht Hts IH]; intros w.
  - exists w. simpl. repeat split; auto.
    induction (proof_tasks w); constructor; auto. reflexivity.
  - simpl forEach. unfold bind. rewrite (expireTask_run E t w Ht (Hrel _)).
    destruct (IH (statusWritten (task_uid t) expired
                    (withErrorMessage "Task auto-expired by cleanup.")
                    (clock E (ticks w)) (with_ticks (S (ticks w)) w)))
      as (w' & Hrun & Hrows & Hw & Hp & Hf1 & Hf2).
    exists w'. rewrite Hrun. split; [reflexivity |].
    split; [| repeat split; assumption].
    simpl map. eapply expiredAmong_rows. exact Hrows.
Qed.

Lemma selected_among (selects : ProofTask -> bool) rows r :
  NoDup (map task_uid rows) -> In r rows ->
  existsb (String.eqb (task_uid r)) (map task_uid (filter selects rows))
  = selects r.
Proof.
  intros Hnd Hin. destruct (selects r) eqn:Hs.
  - apply existsb_exists. exists (task_uid r). split; [| apply String.eqb_refl].
    apply in_map, filter_In. now split.
  - destruct (existsb _ _) eqn:Hex; auto.
    apply existsb_exists in Hex as (uid & Huid & Heq).
    apply String.eqb_eq in Heq. subst uid.
    apply in_map_iff in Huid as (t & Ht & Htin).
    apply filter_In in Htin as [Htin Hst].
    rewrite (unique_row rows r t Hnd Hin Htin (eq_sym Ht)) in Hs. congruence.
Qed.

Lemma reaped_rows nowUtc rows rows0 rows' :
  NoDup (map task_uid rows0) -> incl rows rows0 ->
  Forall2 (expiredAmong (map task_uid (filter (isStuckOrExpired nowUtc) rows0)))
          rows rows' ->
  Forall2 (reaped nowUtc) rows rows'.
Proof.
  intros Hnd Hincl H. induction H as [| r r' rows rows' Hr Hrest IH].
  - constructor.
  - constructor.
    + unfold expiredAmong in Hr. unfold reaped.
      rewrite (selected_among _ rows0 r Hnd) in Hr; [exact Hr |].
      apply Hincl. now left.
    + apply IH. intros x Hx. apply Hincl. now right.
Qed.

(** X21.  The reap phase expires what is overdue.  Entered with its flag
    down, on a table with unique uids and a store that performs its
    calls, [handleStuckOrExpiredTasks] returns; row by row, a pending or
    processing task whose deadline lies before the clock reading has
    become expired with the clean-up message, its uid, attempts and found
    transaction untouched, and every other row is as it was; so no row of
    the table is left pending or processing with a deadline before that
    reading; and neither the wallet links nor the explorer are touched. *)
Theorem reap_expires_overdue_tasks E (w : World) :
  storeReliable E ->
  uniqueUids w ->
  isCleaningUp w = false ->
  let nowUtc := clock E (ticks w) in
  let r := handleStuckOrExpiredTasks E w in
  fst r = Ret tt /\
  Forall2 (reaped nowUtc) (proof_tasks w) (proof_tasks (snd r)) /\
  (forall t, In t (proof_tasks (snd r)) -> isStuckOrExpired nowUtc t = false) /\
  wallets (snd r) = wallets w /\
  posted (snd r) = posted w.
Proof.
  intros Hrel Hnd Hflag nowUtc r. subst r nowUtc.
  rewrite handleStuckOrExpiredTasks_run, Hflag.
  set (ts := filter (isStuckOrExpired (clock E (ticks w))) (proof_tasks w)).
  set (w2 := with_ticks (S (S (ticks w)))
               (with_ticks (S (ticks w)) (with_isCleaningUp true w))).
  assert (Hbody : bind (dateNowSeconds E)
                    (fun nowUtc =>
                       bind (getStuckAndExpiredTasks E nowUtc)
                            (fun tasks => forEach tasks (expireTask E)))
                    (with_isCleaningUp true w)
                  = forEach ts (expireTask E) w2).
  { unfold bind at 1. rewrite dateNowSeconds_run.
    unfold bind at 1. rewrite getStuckAndExpiredTasks_run.
    cbn [ticks with_ticks with_isCleaningUp proof_tasks]. now rewrite Hrel. }
  rewrite Hbody.
  assert (Hact : Forall (fun t => isActive (status t) = true) ts).
  { apply Forall_forall. intros t Ht. apply filter_In in Ht as [_ Ht].
    unfold isStuckOrExpired in Ht. now apply andb_true_iff in Ht. }
  destruct (forEach_expireTask E ts Hrel Hact w2)
    as (w' & Hrun & Hrows & Hw & Hp & _ & _).
  rewrite Hrun. simpl fst. simpl snd.
  cbn [proof_tasks wallets posted with_isCleaningUp with_ticks w2] in *.
  assert (Hreaped : Forall2 (reaped (clock E (ticks w)))
                            (proof_tasks w) (proof_tasks w')).
  { eapply reaped_rows; [exact Hnd | apply incl_refl | exact Hrows]. }
  split; [reflexivity |]. split; [exact Hreaped |]. split; [| now split].
  intros t Ht.
  assert (Hsrc : exists r0, reaped (clock E (ticks w)) r0 t).
  { clear - Hreaped Ht. induction Hreaped as [| a b la lb Hab _ IH].
    - destruct Ht.
    - destruct Ht as [-> | Ht]; [now exists a | now apply IH]. }
  destruct Hsrc as (r0 & Hr0). unfold reaped in Hr0.
  destruct (isStuckOrExpired (clock E (ticks w)) r0) eqn:Hsel.
  - destruct Hr0 as (Hst & _). unfold isStuckOrExpired. now rewrite Hst.
  - now subst t.
Qed.

Lemma reap_expires_overdue_tasks_witness :
  fst (handleStuckOrExpiredTasks Scenario.env
         (Sample.world [Scenario.overdueTask; Scenario.newerTask;
                        Scenario.doneTask] []))
  = Ret tt /\
  map status
    (proof_tasks (snd (handleStuckOrExpiredTasks Scenario.env
                         (Sample.world [Scenario.overdueTask; Scenario.newerTask;
                                        Scenario.doneTask] []))))
  = [expired; pending; success].
Proof.
  split; [| reflexivity].
  apply (proj1
           (reap_expires_overdue_tasks Scenario.env
              (Sample.world [Scenario.overdueTask; Scenario.newerTask;
                             Scenario.doneTask] [])
              (fun _ => eq_refl)
              ltac:(unfold uniqueUids; simpl; repeat constructor; simpl;
                    intuition discriminate)
              eq_refl)).
Defined.

(** ** proofChecker.ts: how many requests a fetch sends *)

Lemma primaryAttempts_sends E left cur a c w :
  exists n, (n <= left)%nat /\ (0 < left -> 0 < n)%nat /\
    snd (primaryAttempts E left cur a c w) = sentN (ReqPrimary a c) n w.
Proof.
  revert cur w. induction left as [| left IH]; intros cur w.
  - exists O. repeat split; auto.
  - rewrite primaryAttempts_step.
    destruct (primaryVerdict _).
    + exists 1%nat. repeat split; auto; lia.
    + exists 1%nat. repeat split; auto; lia.
    + destruct (IH (S cur) (sent (ReqPrimary a c) w)) as (n & Hn & _ & Hs).
      exists (S n). repeat split; auto; lia.
Qed.

Lemma fallbackAttempts_sends E left cur a c w :
  exists m, (m <= left)%nat /\
    snd (fallbackAttempts E left cur a c w) = sentN (ReqFallback a c) m w.
Proof.
  revert cur w. induction left as [| left IH]; intros cur w.
  - exists O. split; auto.
  - rewrite fallbackAttempts_step.
    destruct (fallbackVerdict _);
      try (destruct (IH (S cur) (sent (ReqFallback a c) w)) as (m & Hm & Hs);
           exists (S m); split; [lia | exact Hs]).
    exists 1%nat. split; [lia | reflexivity].
Qed.

Lemma timestampAttempts_sends E left cur bn w :
  exists n, (n <= left)%nat /\ (0 < left -> 0 < n)%nat /\
    snd (timestampAttempts E left cur bn w) = sentN (ReqBlock bn) n w.
Proof.
  revert cur w. induction left as [| left IH]; intros cur w.
  - exists O. repeat split; auto.
  - destruct (IH (S cur) (sent (ReqBlock bn) w)) as (n & Hn & _ & Hs).
    assert (Hone : exists k, (k <= S left)%nat /\ (0 < S left -> 0 < k)%nat /\
                     sent (ReqBlock bn) w = sentN (ReqBlock bn) k w).
    { exists 1%nat. repeat split; auto; lia. }
    assert (Hmore : exists k, (k <= S left)%nat /\ (0 < S left -> 0 < k)%nat /\
                      snd (timestampAttempts E left (S cur) bn (sent (ReqBlock bn) w))
                      = sentN (ReqBlock bn) k w).
    { exists (S n). repeat split; auto; lia. }
    simpl timestampAttempts. unfold bind at 1. rewrite axiosPost_run.
    destruct (explorer E (ticks w) (ReqBlock bn)) as [body | st].
    + destruct (hasErrors body).
      * destruct (andb _ _); [exact Hone | exact Hmore].
      * destruct (blockTimestamp body) as [ts |]; [| exact Hmore].
        destruct (Js.truthy ts); [exact Hone | exact Hmore].
    + destruct (andb _ _); [exact Hone | exact Hmore].
Qed.

(** X22.  The explorer client is bounded.  Whatever the explorer replies,
    fetching one page returns after at least one and at most five primary
    requests followed by at most five fallback requests, all for the same
    address and cursor, and looking up the timestamp of a block returns
    after at least one and at most five requests for that block; neither
    throws, and each leaves the world as it was but for those requests
    and the events they took. *)
Theorem explorer_client_is_bounded E (a : string) (c : option string)
        (bn : Z) (w : World) :
  (exists n m,
     (1 <= n <= MAX_API_CALL_ATTEMPTS)%nat /\
     (m <= MAX_API_CALL_ATTEMPTS)%nat /\
     snd (fetchPage E a c w)
     = sentN (ReqFallback a c) m (sentN (ReqPrimary a c) n w)) /\
  (exists page, fst (fetchPage E a c w) = Ret page) /\
  (exists n,
     (1 <= n <= MAX_API_CALL_ATTEMPTS)%nat /\
     snd (getTimestampForBlockGraphQL E bn w) = sentN (ReqBlock bn) n w) /\
  (exists t, fst (getTimestampForBlockGraphQL E bn w) = Ret t).
Proof.
  split; [| split; [| split]].
  - unfold fetchPage. rewrite snd_bind.
    destruct (primaryAttempts_sends E MAX_API_CALL_ATTEMPTS 0 a c w)
      as (n & Hn & Hpos & Hs).
    assert (Hn1 : (1 <= n <= MAX_API_CALL_ATTEMPTS)%nat).
    { split; [apply Hpos; unfold MAX_API_CALL_ATTEMPTS; lia | exact Hn]. }
    destruct (primaryAttempts E MAX_API_CALL_ATTEMPTS 0 a c w)
      as [[[[rd fb] ap] | msg |] w1]; simpl in Hs; subst w1;
      try (exists n, O; repeat split; auto; lia).
    destruct (andb (Nat.leb MAX_API_CALL_ATTEMPTS ap) _);
      [exists n, O; repeat split; auto; lia |].
    destruct fb; [| exists n, O; repeat split; auto; lia].
    rewrite snd_bind.
    destruct (fallbackAttempts_sends E MAX_API_CALL_ATTEMPTS 0 a c
                (sentN (ReqPrimary a c) n w)) as (m & Hm & Hsm).
    destruct (fallbackAttempts E MAX_API_CALL_ATTEMPTS 0 a c
                (sentN (ReqPrimary a c) n w))
      as [[[rdf af] | msg |] w2]; simpl in Hsm; subst w2;
      try (exists n, m; repeat split; auto; lia).
    exists n, m. repeat split; auto; try lia.
    now destruct (andb _ _).
  - destruct (fetchPage_returns E a c w) as (page & w1 & Hrun).
    exists page. now rewrite Hrun.
  - unfold getTimestampForBlockGraphQL.
    destruct (timestampAttempts_sends E MAX_API_CALL_ATTEMPTS 0 bn w)
      as (n & Hn & Hpos & Hs).
    exists n. split; [| exact Hs].
    split; [apply Hpos; unfold MAX_API_CALL_ATTEMPTS; lia | exact Hn].
  - destruct (timestampAttempts_returns E MAX_API_CALL_ATTEMPTS 0 bn w)
      as (t & w1 & Hrun).
    exists t. unfold getTimestampForBlockGraphQL. now rewrite Hrun.
Qed.

(** ** db.ts: the batch of the work phase *)

Lemma insertByCreatedAt_member t u l :
  In u (insertByCreatedAt t l) -> u = t \/ In u l.
Proof.
  intros H. apply (Permutation_in _ (insertByCreatedAt_perm t l)) in H.
  destruct H as [-> | H]; auto.
Qed.

Lemma insertByCreatedAt_oldestFirst t l :
  oldestFirst l -> oldestFirst (insertByCreatedAt t l).
Proof.
  induction l as [| u rest IH]; simpl.
  - intros _. split; [intros v [] | exact I].
  - intros [Hu Hrest].
    destruct (Z.leb (created_at t) (created_at u)) eqn:Hle.
    + apply Z.leb_le in Hle. simpl. split; [| split; assumption].
      intros v [-> | Hv]; [exact Hle |]. specialize (Hu v Hv). lia.
    + apply Z.leb_gt in Hle. simpl. split; [| now apply IH].
      intros v Hv. apply insertByCreatedAt_member in Hv as [-> | Hv];
        [lia | now apply Hu].
Qed.

Lemma orderByCreatedAt_oldestFirst l : oldestFirst (orderByCreatedAt l).
Proof.
  induction l as [| t l IH]; simpl; [exact I |].
  now apply insertByCreatedAt_oldestFirst.
Qed.

Lemma oldestFirst_limit limit l : oldestFirst l -> oldestFirst (firstn limit l).
Proof.
  revert limit. induction l as [| t l IH]; intros [| limit]; simpl; auto.
  intros [Ht Hl]. split; [| now apply IH].
  intros u Hu. apply Ht. eapply limit_member; eauto.
Qed.

(** In an ordered list, whatever the limit leaves out was created no
    earlier than anything it lets through, and it leaves something out
    only when it is reached. *)
Lemma oldestFirst_left_out limit l t :
  oldestFirst l -> In t l -> ~ In t (firstn limit l) ->
  List.length (firstn limit l) = limit /\
  forall u, In u (firstn limit l) -> created_at u <= created_at t.
Proof.
  revert limit. induction l as [| x l IH]; intros limit Hs Hin Hout.
  - destruct Hin.
  - destruct limit as [| limit]; simpl in *.
    + split; [reflexivity | intros u []].
    + destruct Hs as [Hx Hl].
      destruct Hin as [-> | Hin]; [exfalso; apply Hout; now left |].
      destruct (IH limit Hl Hin) as [Hlen Hle].
      { intros H. apply Hout. now right. }
      split; [now rewrite Hlen |].
      intros u [-> | Hu]; [now apply Hx | now apply Hle].
Qed.

(** X23.  The work phase takes the oldest tasks first.  What
    [findProcessableTasks] returns holds at most [limit] tasks, in
    ascending order of creation; each is a row of the table that is
    pending or processing with its deadline after the clock reading; a
    pending or processing row with its deadline after that reading is left
    out only when the limit is reached, and then every task returned was
    created no later than it; and the query changes no table. *)
Theorem processable_tasks_oldest_first E (limit : nat) (w : World)
        (ts : list ProofTask) (w' : World) :
  findProcessableTasks E limit w = (Ret ts, w') ->
  let nowUtc := clock E (ticks w) in
  (List.length ts <= limit)%nat /\
  oldestFirst ts /\
  (forall t, In t ts ->
     In t (proof_tasks w) /\ isActive (status t) = true /\
     nowUtc < check_deadline_utc t) /\
  (forall t, In t (proof_tasks w) -> isProcessable nowUtc t = true ->
     ~ In t ts ->
     List.length ts = limit /\
     forall u, In u ts -> created_at u <= created_at t) /\
  sameTables w w'.
Proof.
  rewrite findProcessableTasks_run.
  destruct (storeFault E (S (ticks w))); [discriminate |].
  intros H nowUtc. inversion H; subst ts w'. clear H. subst nowUtc.
  set (l := orderByCreatedAt (filter (isProcessable (clock E (ticks w)))
                                     (proof_tasks w))).
  split; [apply firstn_le_length |].
  split; [apply oldestFirst_limit, orderByCreatedAt_oldestFirst |].
  split; [| split; [| now split]].
  - intros t Ht. apply selection_sound in Ht as [Hin Hp].
    unfold isProcessable in Hp. apply andb_true_iff in Hp as [Ha Hd].
    apply Z.ltb_lt in Hd. auto.
  - intros t Hin Hp Hout.
    apply oldestFirst_left_out; auto.
    + apply orderByCreatedAt_oldestFirst.
    + apply (Permutation_in _ (Permutation_sym (orderByCreatedAt_perm _))).
      apply filter_In. now split.
Qed.

Lemma processable_tasks_oldest_first_witness :
  fst (findProcessableTasks Scenario.env 1
         (Sample.world [Scenario.newerTask; Scenario.olderTask;
                        Scenario.overdueTask] []))
  = Ret [Scenario.olderTask] /\
  oldestFirst [Scenario.olderTask].
Proof.
  split; [reflexivity |].
  apply (proj1 (proj2
           (processable_tasks_oldest_first Scenario.env 1
              (Sample.world [Scenario.newerTask; Scenario.olderTask;
                             Scenario.overdueTask] [])
              [Scenario.olderTask] _ eq_refl))).
Defined.

(** ** proofChecker.ts: the JSON-RPC search *)

Lemma elapsed_elapsed n m w : elapsed n (elapsed m w) = elapsed (n + m) w.
Proof.
  unfold elapsed. destruct w; unfold with_ticks; simpl. f_equal. lia.
Qed.

Lemma elapsed_one w : with_ticks (S (ticks w)) w = elapsed 1 w.
Proof. reflexivity. Qed.

Lemma getBlockNumberFromTimestamp_run provider BTC ts current w :
  getBlockNumberFromTimestamp provider BTC ts current w =
  match getBlock provider (ticks w) current with
  | RpcError message => (Throw message, elapsed 1 w)
  | RpcOk None => (Throw "Could not get latest block data", elapsed 1 w)
  | RpcOk (Some b) =>
      match rb_timestamp b with
      | None =>
          (Throw "Latest block data does not contain a valid timestamp",
           elapsed 1 w)
      | Some latest =>
          (Ret (if Z.ltb 0 BTC
                then Z.max (current - BTC + 1)
                           (Z.max 0 (current - (latest - ts) / BLOCK_TIME))
                else Z.max 0 (current - (latest - ts) / BLOCK_TIME)),
           elapsed 1 w)
      end
  end.
Proof.
  unfold getBlockNumberFromTimestamp. unfold bind at 1. rewrite rpcCall_run.
  destruct (getBlock provider (ticks w) current) as [[b |] | message]; auto.
  destruct (rb_timestamp b); auto.
  now destruct (Z.ltb 0 BTC).
Qed.

(** Scanning [count] blocks fetches at most [count] of them, changes
    nothing else, and yields only a transfer from the wallet to the check
    wallet. *)
Lemma scanBlocks_run E provider wallet count :
  forall i w, exists out n,
    scanBlocks E provider count i wallet w = (out, elapsed n w) /\
    (n <= count)%nat /\ out <> OutOfFuel /\
    (forall tx, out = Ret (Some tx) -> isProofTransfer E wallet tx = true).
Proof.
  induction count as [| count IH]; intros i w.
  - exists (Ret None), O. repeat split; auto; try discriminate.
    unfold elapsed. now destruct w.
  - simpl scanBlocks. unfold bind at 1. rewrite rpcCall_run, elapsed_one.
    destruct (IH (i - 1) (elapsed 1 w)) as (out & n & Hrun & Hn & Hfuel & Hok).
    assert (Hmore : exists out0 n0,
              scanBlocks E provider count (i - 1) wallet (elapsed 1 w)
              = (out0, elapsed n0 w) /\
              (n0 <= S count)%nat /\ out0 <> OutOfFuel /\
              (forall tx, out0 = Ret (Some tx) ->
                          isProofTransfer E wallet tx = true)).
    { exists out, (n + 1)%nat. rewrite Hrun, elapsed_elapsed.
      repeat split; auto. lia. }
    destruct (getBlock provider (ticks w) i) as [[b |] | message].
    + destruct (prefetchedTransactions b) as [txs |]; [| exact Hmore].
      destruct (find (isProofTransfer E wallet) txs) as [tx |] eqn:Hfind;
        [| exact Hmore].
      exists (Ret (Some tx)), 1%nat. repeat split; auto; try lia; try discriminate.
      intros tx' Htx'. inversion Htx'; subst tx'.
      now apply find_some in Hfind.
    + exact Hmore.
    + exists (Throw message), 1%nat.
      repeat split; auto; try lia; discriminate.
Qed.

Lemma isProofTransfer_true E wallet tx :
  isProofTransfer E wallet tx = true ->
  (exists sender, rt_from tx = Some sender /\ Js.toLowerCase sender = wallet) /\
  option_map Js.toLowerCase (rt_to tx)
  = option_map Js.toLowerCase (CHECK_WALLET E).
Proof.
  unfold isProofTransfer. intros H. apply andb_true_iff in H as [Hf Ht]. split.
  - destruct (rt_from tx) as [sender |]; simpl in Hf; [| discriminate].
    apply String.eqb_eq in Hf. now exists sender.
  - destruct (option_map Js.toLowerCase (rt_to tx)) as [x |],
             (option_map Js.toLowerCase (CHECK_WALLET E)) as [y |];
      simpl in Ht; try discriminate; auto.
    apply String.eqb_eq in Ht. now subst.
Qed.

(** X24.  The JSON-RPC search validates, is bounded and is sound.  A
    wallet that is not a valid address once trimmed and put in lower case
    makes [findTransaction] throw at once, before any call to the node.
    For a valid one the function never throws, whatever the node does; it
    changes nothing but the event counter; with a positive
    [BLOCKS_TO_CHECK] it makes at most two calls to the node plus one per
    block of that window; and a transaction it returns was sent from the
    wallet and to the check wallet, letter case aside. *)
Theorem rpc_search_is_bounded_and_sound
        E (provider : Provider) (BTC : Z) (walletHash : string)
        (afterTimestamp : Z) (w : World) :
  let wallet := Js.toLowerCase (Js.trim walletHash) in
  let r := findTransaction E provider BTC walletHash afterTimestamp w in
  (isValidEvmAddress wallet = false -> r = (Throw "Invalid EVM address", w)) /\
  (isValidEvmAddress wallet = true ->
   exists found n,
     r = (Ret found, elapsed n w) /\
     (0 < BTC -> (n <= 2 + Z.to_nat BTC)%nat) /\
     (forall tx, found = Some tx ->
        (exists sender,
           rt_from tx = Some sender /\ Js.toLowerCase sender = wallet) /\
        option_map Js.toLowerCase (rt_to tx)
        = option_map Js.toLowerCase (CHECK_WALLET E))).
Proof.
  intros wallet r. subst r. unfold findTransaction. fold wallet.
  split; [intros Hbad; now rewrite Hbad |].
  intros Hvalid. rewrite Hvalid. cbn [negb].
  unfold tryCatch. unfold bind at 1. rewrite rpcCall_run, elapsed_one.
  destruct (getBlockNumber provider (ticks w)) as [current | message].
  2:{ exists None, 1%nat. repeat split; try discriminate. lia. }
  unfold bind at 1. rewrite getBlockNumberFromTimestamp_run, elapsed_elapsed.
  destruct (getBlock provider (ticks (elapsed 1 w)) current)
    as [[b |] | message];
    try (exists None, 2%nat; repeat split; try discriminate; lia).
  destruct (rb_timestamp b) as [latest |];
    [| exists None, 2%nat; repeat split; try discriminate; lia].
  match goal with
  | |- context [scanBlocks E provider ?c current wallet] => set (count := c)
  end.
  assert (Hcount : 0 < BTC -> (count <= Z.to_nat BTC)%nat).
  { intros Hpos. subst count. apply Z.ltb_lt in Hpos. rewrite Hpos. lia. }
  destruct (scanBlocks_run E provider wallet count current (elapsed 2 w))
    as (out & n & Hrun & Hn & Hfuel & Hok).
  simpl Nat.add. rewrite Hrun, elapsed_elapsed.
  destruct out as [found | message |]; [| | congruence].
  - exists found, (n + 2)%nat. split; [reflexivity |]. split.
    + intros Hpos. specialize (Hcount Hpos). lia.
    + intros tx ->. apply isProofTransfer_true. now apply Hok.
  - exists None, (n + 2)%nat. split; [reflexivity |]. split.
    + intros Hpos. specialize (Hcount Hpos). lia.
    + discriminate.
Qed.

Lemma rpc_search_is_bounded_and_sound_witness :
  findTransaction Scenario.env Scenario.chain 1000 " 0xAAAA " 1990
                  (Sample.world [] [])
  = (Throw "Invalid EVM address", Sample.world [] []) /\
  exists found n,
    findTransaction Scenario.env Scenario.chain 1000 Sample.user 1990
                    (Sample.world [] [])
    = (Ret found, elapsed n (Sample.world [] [])).
Proof.
  split.
  - apply (proj1 (rpc_search_is_bounded_and_sound Scenario.env Scenario.chain
                    1000 " 0xAAAA " 1990 (Sample.world [] []))).
    reflexivity.
  - destruct (proj2 (rpc_search_is_bounded_and_sound Scenario.env
                       Scenario.chain 1000 Sample.user 1990
                       (Sample.world [] [])) eq_refl)
      as (found & n & Hrun & _).
    exists found, n. exact Hrun.
Defined.

(** X25.  A JSON-RPC search that starts after the head block looks at no
    block.  When the timestamp to search from is later than the timestamp
    of the head block, [findTransaction] returns [null] after its two
    calls for the head, without fetching a single block to scan, whatever
    [BLOCKS_TO_CHECK] is and whatever the blocks hold. *)
Theorem rpc_search_after_head_scans_nothing
        E (provider : Provider) (BTC : Z) (walletHash : string)
        (afterTimestamp : Z) (w : World)
        (current latest : Z) (b : RpcBlock) :
  isValidEvmAddress (Js.toLowerCase (Js.trim walletHash)) = true ->
  getBlockNumber provider (ticks w) = RpcOk current ->
  getBlock provider (S (ticks w)) current = RpcOk (Some b) ->
  rb_timestamp b = Some latest ->
  latest < afterTimestamp ->
  findTransaction E provider BTC walletHash afterTimestamp w
  = (Ret None, elapsed 2 w).
Proof.
  intros Hvalid Hhead Hblock Hts Hlate. unfold findTransaction.
  rewrite Hvalid. cbn [negb].
  unfold tryCatch. unfold bind at 1. rewrite rpcCall_run, elapsed_one, Hhead.
  unfold bind at 1. rewrite getBlockNumberFromTimestamp_run, elapsed_elapsed.
  change (ticks (elapsed 1 w)) with (S (ticks w)). rewrite Hblock, Hts.
  assert (Hdiff : (latest - afterTimestamp) / BLOCK_TIME < 0).
  { apply Z.div_lt_upper_bound; unfold BLOCK_TIME; lia. }
  match goal with
  | |- context [scanBlocks E provider ?c current ?a] => set (count := c)
  end.
  assert (Hcount : count = O).
  { subst count. destruct (Z.ltb 0 BTC); lia. }
  rewrite Hcount. reflexivity.
Qed.

Lemma rpc_search_after_head_scans_nothing_witness :
  findTransaction Scenario.env Scenario.chain 1000 Sample.user 2001
                  (Sample.world [] [])
  = (Ret None, elapsed 2 (Sample.world [] [])).
Proof.
  apply (rpc_search_after_head_scans_nothing Scenario.env Scenario.chain 1000
           Sample.user 2001 (Sample.world [] []) 100 2000
           {| rb_timestamp := Some 2000;
              prefetchedTransactions := Some [Scenario.transfer] |}
           eq_refl eq_refl eq_refl eq_refl eq_refl).
Defined.

(** ** db.ts: from a wallet back to its user *)

(** X26.  A saved wallet leads back to its user.  With the store
    performing both calls, and no link of another user holding the same
    wallet hash, [getTelegramIdByWallet] for the lower-case wallet that
    [saveWalletLink] has stored returns the hash of the Telegram id it
    was stored under. *)
Theorem saved_wallet_leads_back_to_user E (tg wa : string) (p : bool)
        (raw : option string) (w : World) :
  storeFault E (ticks w) = None ->
  storeFault E (S (ticks w)) = None ->
  (forall r, In r (wallets w) ->
     wallet_hash r = hashWallet E (Js.toLowerCase wa) ->
     telegram_id_hash r = hashTelegramId E tg) ->
  fst (getTelegramIdByWallet E (Js.toLowerCase wa)
         (snd (saveWalletLink E tg wa p raw w)))
  = Ret (Some (hashTelegramId E tg)).
Proof.
  intros H0 H1 Hown. rewrite saveWalletLink_run, H0. simpl snd.
  unfold getTelegramIdByWallet. unfold bind at 1. rewrite storeCall_run.
  cbn [ticks with_wallets with_ticks]. rewrite H1.
  unfold bind, gets, ret. simpl fst. cbn [wallets].
  set (row := {| telegram_id_hash := hashTelegramId E tg |}).
  assert (Hfind : forall ws,
            (forall r, In r ws ->
               wallet_hash r = hashWallet E (Js.toLowerCase wa) ->
               telegram_id_hash r = hashTelegramId E tg) ->
            option_map telegram_id_hash
              (find (fun r => String.eqb (wallet_hash r)
                                         (hashWallet E (Js.toLowerCase wa)))
                    (upsertWallet row ws))
            = Some (hashTelegramId E tg)).
  { induction ws as [| r ws IH]; intros Hws; simpl.
    - now rewrite String.eqb_refl.
    - destruct (String.eqb (telegram_id_hash r) (hashTelegramId E tg)) eqn:Hr;
        simpl.
      + now rewrite String.eqb_refl.
      + destruct (String.eqb (wallet_hash r) (hashWallet E (Js.toLowerCase wa)))
          eqn:Hh.
        * apply String.eqb_eq in Hh. apply String.eqb_neq in Hr.
          exfalso. apply Hr. apply Hws; [now left | exact Hh].
        * apply IH. intros r' Hr'. apply Hws. now right. }
  now rewrite (Hfind (wallets w) Hown).
Qed.

Lemma saved_wallet_leads_back_to_user_witness :
  fst (getTelegramIdByWallet Scenario.env (Js.toLowerCase Sample.target)
         (snd (saveWalletLink Scenario.env "tg5" Sample.target true None
                 (Sample.world [] [Sample.proofedLink]))))
  = Ret (Some "tg5").
Proof.
  apply (saved_wallet_leads_back_to_user Scenario.env "tg5" Sample.target true
           None (Sample.world [] [Sample.proofedLink]) eq_refl eq_refl).
  intros r [<- | []] H. discriminate H.
Defined.

(** ** ProofVerificationService: the deadline test of the work phase *)

Section LiveWrites.

Variable E : Env.

Lemma live_refl w : live w w.
Proof. apply wrote_refl. Qed.

Lemma live_trans a b c : live a b -> live b c -> live a c.
Proof. apply wrote_trans. Qed.

Lemma live_grows w w' : grows w w' -> live w w'.
Proof.
  intros (_ & _ & _ & _ & Hw & _). exists []. split; [exact Hw | constructor].
Qed.

Lemma live_wallets w ws : live w (with_wallets ws w).
Proof. apply (wrote_refl _ w). Qed.

Lemma updateProofTaskStatus_live uid st d :
  ~ expiredBeforeAttempt (mkStatusWrite uid st d) ->
  preserves live (updateProofTaskStatus E uid st d).
Proof.
  intros Hd w. rewrite updateProofTaskStatus_run.
  destruct (storeFault E (ticks w)); simpl.
  - apply (wrote_refl _ w).
  - exists [mkStatusWrite uid st d]. split; [reflexivity |].
    constructor; [exact Hd | constructor].
Qed.

Lemma updateProofTaskAttempts_live uid n :
  preserves live (updateProofTaskAttempts E uid n).
Proof.
  intros w. rewrite updateProofTaskAttempts_run.
  destruct (storeFault E (ticks w)); simpl; apply (wrote_refl _ w).
Qed.

Lemma processSingleTask_live fuel task :
  preserves live (processSingleTask E fuel task).
Proof.
  pose proof (saveWalletLink_frame E live live_trans live_grows
                live_wallets) as HW.
  pose proof (fun wh a d t =>
                preserves_weaken grows live _ live_grows
                  (checkOwnershipAfter_grows E fuel wh a d t)) as HC.
  pose proof (preserves_weaken grows live _ live_grows
                (dateNowSeconds_grows E)) as HD.
  pose proof (updateProofTaskAttempts_live (task_uid task)) as HA.
  assert (HS : forall st d,
             st <> expired \/
             errorMessage d <> Some "Deadline passed before processing attempt." ->
             preserves live (updateProofTaskStatus E (task_uid task) st d)).
  { intros st d Hd. apply updateProofTaskStatus_live.
    intros [Hst Hm]. simpl in Hst, Hm. destruct Hd; contradiction. }
  unfold processSingleTask, attemptProof.
  repeat first
    [ apply HW | apply HC | apply HD | apply HA
    | apply HS; solve [left; discriminate | right; discriminate]
    | apply (preserves_ret _ live_refl)
    | apply (preserves_bind _ live_trans); [| intros ]
    | apply (preserves_tryCatch _ live_trans); [| intros ]
    | split_branch ].
Qed.

Lemma processPendingTask_live fuel now task :
  now < check_deadline_utc task ->
  preserves live (processPendingTask E fuel now task).
Proof.
  intros Hlive.
  pose proof (saveWalletLink_frame E live live_trans live_grows
                live_wallets) as HW.
  pose proof (getWallet_frame E live live_refl live_trans live_grows) as HG.
  pose proof (processSingleTask_live fuel task) as HP.
  unfold processPendingTask.
  apply Z.leb_gt in Hlive. rewrite Hlive.
  apply (preserves_bind _ live_trans); [apply HG | intros link].
  destruct link as [link |]; [| exact HP].
  destruct (wl_proofed link); [| exact HP].
  apply (preserves_bind _ live_trans).
  - apply updateProofTaskStatus_live. intros [Hst _]. discriminate Hst.
  - intros _. destruct (Js.truthy (wl_wallet link));
      [apply HW | apply (preserves_ret _ live_refl)].
Qed.

End LiveWrites.

(** X27.  The deadline test of the work phase never fires under a clock
    that does not run backwards.  If the second read by
    [findProcessableTasks] is not before the second that
    [processPendingTasks] has read just before it, then no status write of
    the phase is the write of status expired with the message [Deadline
    passed before processing attempt.]: a task whose deadline has passed
    is not returned by the query, and is left to the reap phase. *)
Theorem deadline_test_never_fires E fuel (w : World) :
  clock E (ticks w) <= clock E (S (ticks w)) ->
  exists ws,
    writtenBetween w (snd (processPendingTasks E fuel w)) ws /\
    Forall (fun sw => ~ expiredBeforeAttempt sw) ws.
Proof.
  intros Hclock. rewrite processPendingTasks_run.
  destruct (isProcessingCycle w); [apply (wrote_refl _ w) |].
  set (w0 := with_isProcessingCycle true w).
  assert (Hbody : wrote (fun sw => ~ expiredBeforeAttempt sw) w0
                    (snd (bind (dateNowSeconds E)
                            (fun now =>
                               bind (findProcessableTasks E 10)
                                 (fun tasks =>
                                    forEach tasks
                                      (processPendingTask E fuel now))) w0))).
  { unfold bind at 1. rewrite dateNowSeconds_run.
    unfold bind at 1. rewrite findProcessableTasks_run.
    cbn [ticks with_ticks proof_tasks].
    change (ticks w0) with (ticks w). change (proof_tasks w0) with (proof_tasks w).
    destruct (storeFault E (S (S (ticks w)))); [apply (wrote_refl _ w0) |].
    eapply wrote_trans;
      [| apply (preserves_forEach _ (live_refl) (live_trans))].
    - exists []. split; [reflexivity | constructor].
    - intros task Htask. apply processPendingTask_live.
      apply selection_sound in Htask as [_ Hp].
      unfold isProcessable in Hp. apply andb_true_iff in Hp as [_ Hd].
      apply Z.ltb_lt in Hd. lia. }
  destruct (bind (dateNowSeconds E) _ w0) as [[[] | msg |] w1];
    simpl in Hbody |- *; exact Hbody.
Qed.

Lemma deadline_test_never_fires_witness :
  exists ws,
    writtenBetween
      (Sample.world [Sample.dueNowTask; Sample.lastAttemptTask] [])
      (snd (processPendingTasks Scenario.env 2
              (Sample.world [Sample.dueNowTask; Sample.lastAttemptTask] [])))
      ws /\
    Forall (fun sw => ~ expiredBeforeAttempt sw) ws.
Proof.
  apply (deadline_test_never_fires Scenario.env 2
           (Sample.world [Sample.dueNowTask; Sample.lastAttemptTask] [])).
  apply Z.leb_le. reflexivity.
Defined.

(* ===================================================================== *)
(** * The timer and a cycle in flight *)
(* ===================================================================== *)

(** The calendar of the samples: the epoch, and the noon at which the
    sample proof is initiated. *)
Lemma iso_seconds_of_samples :
  Iso.seconds "1970-01-01T00:00:00Z" = Js.JInt 0 /\
  Iso.seconds "2024-05-01T12:00:00Z" = Js.JInt Timeline.noon /\
  Iso.seconds "2024-05-01T11:00:00Z" = Js.JInt (Timeline.noon - 3600) /\
  Iso.seconds "2024-05-01T12:10:00Z" = Js.JInt (Timeline.noon + 600).
Proof. repeat split. Qed.

(** Over [axiosPost], [Live] is the scheduler of the sections above. *)
Lemma live_over_axiosPost E fuel :
  Live.runFullCycle E (axiosPost E) fuel = runFullCycle E fuel /\
  Live.processPendingTasks E (axiosPost E) fuel = processPendingTasks E fuel /\
  (forall walletHash afterTimestamp deadlineTimestamp targetWalletAddress,
     Live.checkOwnershipAfter E (axiosPost E) fuel walletHash afterTimestamp
                              deadlineTimestamp targetWalletAddress
     = checkOwnershipAfter E fuel walletHash afterTimestamp deadlineTimestamp
                           targetWalletAddress).
Proof. repeat split. Qed.

(** A request during which the timer does not tick is [axiosPost], and a
    cycle during which it never ticks is [runFullCycle]. *)
Lemma awaited_without_ticks E fuel :
  (forall req w, axiosPostAwaited E fuel still req w = axiosPost E req w) /\
  runFullCycleAwaited E fuel still = runFullCycle E fuel.
Proof. split; reflexivity. Qed.

(** C2.  A terminal task is rewritten by a cycle that is in flight when
    the timer ticks.  A cycle begins at 12:14:50, ten seconds before the
    deadline of the pending task u1: its work phase selects the task,
    marks it processing and asks the explorer.  While the reply is awaited
    the timer ticks, at 12:15:20: the reap phase of that tick finds the
    deadline passed and expires the task, a terminal status.  The reply
    then arrives with the user's proof transaction, and the work phase,
    still holding the row it had selected, writes success over the
    expired row and links the wallet as proofed.  The status writes on u1
    are, in order, processing, expired, success; the row ends with status
    success, the transaction hash, and the error message of the clean-up.
    With a timer that does not tick during the request the same cycle
    writes processing and success only. *)
Theorem expired_task_rewritten_by_cycle_in_flight :
  let E := Timeline.env Timeline.holding Timeline.slowReply in
  let w := Sample.world [Timeline.task] [] in
  let r := runFullCycleAwaited E 3 Timeline.oneTick w in
  fst r = Ret tt /\
  written (snd r)
  = [mkStatusWrite "u1" success (withFoundTxHash (Some "0xfeed"));
     mkStatusWrite "u1" expired
                   (withErrorMessage "Task auto-expired by cleanup.");
     mkStatusWrite "u1" processing noDetails] /\
  isTerminal expired = true /\
  proof_tasks (snd r)
  = [{| task_uid := "u1"; telegram_id := "tg1";
        wallet_address_encrypted := Sample.user;
        after_timestamp := Timeline.noon;
        check_deadline_utc := Timeline.deadline;
        status := success; attempts := 1;
        created_at := Timeline.noon;
        updated_at := Timeline.deadline + 20;
        found_tx_hash := Some "0xfeed";
        error_message := Some "Task auto-expired by cleanup.";
        last_checked_block := None |}] /\
  wallets (snd r) = [Sample.proofedLink] /\
  written (snd (runFullCycleAwaited E 3 still w))
  = [mkStatusWrite "u1" success (withFoundTxHash (Some "0xfeed"));
     mkStatusWrite "u1" processing noDetails].
Proof. vm_compute. repeat split. Qed.

(* ===================================================================== *)
(** * The early exit and the last edge *)
(* ===================================================================== *)

(** A first page that ends on a transaction of 11:00:00 stops a search for
    transactions from noon on, though more pages are reported. *)
Lemma early_exit_on_last_edge_witness :
  fetchPage (Timeline.env Timeline.oldHistory Timeline.fiveAfter)
            Sample.user None (Sample.world [] [])
  = (Ret (Page (Some (Sample.pageBody Timeline.oldPage true (Some "c1"))) false),
     sentN (ReqPrimary Sample.user None) 1 (Sample.world [] [])) /\
  Timeline.noon - 3600 < Timeline.noon /\
  exists r,
    pageLoop (Timeline.env Timeline.oldHistory Timeline.fiveAfter)
             3 Sample.user (Js.toLowerCase Sample.target)
             Timeline.noon Timeline.deadline None (Sample.world [] [])
    = (Ret r, sentN (ReqPrimary Sample.user None) 1 (Sample.world [] [])).
Proof.
  split; [reflexivity |]. split; [lia |].
  refine (proj1 (early_exit_on_last_edge
                   (Timeline.env Timeline.oldHistory Timeline.fiveAfter)
                   Sample.user (Js.toLowerCase Sample.target)
                   Timeline.noon Timeline.deadline None
                   (Sample.world [] [])
                   (Sample.pageBody Timeline.oldPage true (Some "c1"))
                   (sentN (ReqPrimary Sample.user None) 1 (Sample.world [] []))
                   Timeline.oldPage eq_refl)
                eq_refl
                [Sample.tx "0x03" Sample.other Sample.target "OK"
                           "2024-05-01T11:30:00Z"]
                _ {| timestamp := "2024-05-01T11:00:00Z" |}
                (Timeline.noon - 3600) eq_refl eq_refl _ eq_refl _ 2%nat).
  - discriminate.
  - lia.
Defined.

(** C6.  The early exit is missed where the last edge of a page is not
    its oldest transaction.  The search is for transactions from noon on.
    The first page is fetched with the primary query and announces a next
    page behind cursor c1.  In the first case it holds one transaction, of
    11:00:00, followed by an edge without a node; in the second it is not
    listed newest first, a transaction of 11:00:00 preceding one of
    12:05:00.  In both the oldest transaction of the page is older than
    afterTimestamp, yet the test, made on the last edge alone, does not
    stop the search: the page behind c1 is requested. *)
Theorem early_exit_missed_behind_last_edge :
  let w := Sample.world [] [] in
  let missed (ex : nat -> Request -> Reply) (es : list (option TxNode)) :=
    let E := Timeline.env ex Timeline.fiveAfter in
    fst (fetchPage E Sample.user None w)
    = Ret (Page (Some (Sample.pageBody es true (Some "c1"))) false) /\
    holdsOlder E Timeline.noon es = true /\
    lastIsOlder E Timeline.noon es = false /\
    posted (snd (findProofTransactionGraphQL E 3 Sample.user Sample.target
                   Timeline.noon Timeline.deadline w))
    = [ReqPrimary Sample.user (Some "c1"); ReqPrimary Sample.user None] in
  (missed Timeline.dangling Timeline.danglingPage /\
   Forall (fun edge => edge = None \/
                       isOlder (Timeline.env Timeline.dangling Timeline.fiveAfter)
                               Timeline.noon edge = true)
          Timeline.danglingPage) /\
  missed Timeline.shuffled Timeline.shuffledPage.
Proof.
  cbv zeta. split; [split |].
  - repeat split.
  - constructor; [right; reflexivity |].
    constructor; [left; reflexivity | constructor].
  - repeat split.
Qed.
